(** * TaskEither: asynchronous computations that may fail

    A shallow embedding of the [TaskEither] module of fp-ts (and of the parts
    of [Task], [Either], [EitherT] and [Apply] it is built from) together with
    the laws its combinators obey.

    ** The host model

    A JavaScript call either returns a value or throws; a promise is pending,
    fulfilled or rejected. Effects are made explicit by passing a [World]
    (the state of the host: counters, logs, files ...) through every call.
    A promise-returning call is run to settlement, its effects on the world
    included, before the next step of the model; operations that the code
    initiates together (through [Promise.all]) have their effects in the
    order of initiation. Time and the interleaving chosen by the event loop
    are not part of the model. Functions typed as pure in the source
    ([(a: A) => B], [(reason: unknown) => E]) are total functions here. *)

From Stdlib Require Import List String Arith Lia.
Import ListNotations.

Set Implicit Arguments.

(* ------------------------------------------------------------------------- *)
(** ** function.ts *)
(* ------------------------------------------------------------------------- *)

Module function.

(** Modelled from the spec: [function.ts] is not among the sources;
    [identity] returns its argument. *)
Definition identity {A : Type} (a : A) : A := a.

(** Modelled from the spec: [function.ts] is not among the sources;
    [pipe(a, ab)] feeds [a] to [ab]. *)
Definition pipe {A B : Type} (a : A) (ab : A -> B) : B := ab a.

(** Modelled from the spec: [pipe(a, ab, bc)], the three argument form. *)
Definition pipe3 {A B C : Type} (a : A) (ab : A -> B) (bc : B -> C) : C :=
  bc (ab a).

(** Modelled from the spec: [flow(ab, bc)] is left-to-right composition. *)
Definition flow {A B C : Type} (ab : A -> B) (bc : B -> C) : A -> C :=
  fun a => bc (ab a).

End function.

(* ------------------------------------------------------------------------- *)
(** ** The host: calls, promises, [then], [Promise.all], [new Promise] *)
(* ------------------------------------------------------------------------- *)

Module JS.
Section Host.

Context {World Reason : Type}.

(** The outcome of a synchronous call. [Reason] is the type of the values
    that can be thrown or used as rejection reasons ([unknown]). *)
Inductive Completion (A : Type) : Type :=
| Returns (a : A)
| Throws (x : Reason).

Arguments Returns {A} a.
Arguments Throws {A} x.

(** The state of a promise once the host has run everything that was
    started. [Pending] is a promise that never settles. *)
Inductive Promise (A : Type) : Type :=
| Pending
| Fulfilled (a : A)
| Rejected (r : Reason).

Arguments Pending {A}.
Arguments Fulfilled {A} a.
Arguments Rejected {A} r.

(** A call with effects: [Lazy<A>] and the body of every function. *)
Definition Call (A : Type) : Type := World -> Completion A * World.

(** What a reaction registered by [then] leaves in the derived promise:
    the promise it returns is adopted, an exception it throws becomes a
    rejection. *)
Definition absorb {A} (r : Completion (Promise A) * World)
  : Promise A * World :=
  match r with
  | (Returns q, w) => (q, w)
  | (Throws x, w) => (Rejected x, w)
  end.

(** [p.then(onFulfilled, onRejected)]. A reaction is a call returning a
    promise; a reaction that returns a plain value is given as
    [value f] below ([then] resolves the derived promise with it). *)
Definition then2 {A B} (p : Promise A)
    (onFulfilled : A -> Call (Promise B))
    (onRejected : Reason -> Call (Promise B)) : World -> Promise B * World :=
  fun w =>
    match p with
    | Pending => (Pending, w)
    | Fulfilled a => absorb (onFulfilled a w)
    | Rejected r => absorb (onRejected r w)
    end.

(** A reaction [(a) => f(a)] with [f] pure. *)
Definition value {A B} (f : A -> B) : A -> Call (Promise B) :=
  fun a w => (Returns (Fulfilled (f a)), w).

(** The reaction used when [then] is given no [onRejected]. *)
Definition rethrow {B} : Reason -> Call (Promise B) :=
  fun r w => (Returns (Rejected r), w).

(** [p.then(onFulfilled)]. *)
Definition then1 {A B} (p : Promise A) (onFulfilled : A -> Call (Promise B))
  : World -> Promise B * World :=
  then2 p onFulfilled rethrow.

(** [Promise.all([p, q])] on two promises of different types. *)
Definition all2 {A B} (p : Promise A) (q : Promise B) : Promise (A * B) :=
  match p, q with
  | Rejected r, _ => Rejected r
  | _, Rejected r => Rejected r
  | Pending, _ => Pending
  | _, Pending => Pending
  | Fulfilled a, Fulfilled b => Fulfilled (a, b)
  end.

(** [Promise.all(ps)]: rejected with the first rejection, otherwise pending
    while one of [ps] is, otherwise fulfilled with the values in order. *)
Fixpoint all {A} (ps : list (Promise A)) : Promise (list A) :=
  match ps with
  | [] => Fulfilled []
  | p :: rest =>
      match p, all rest with
      | Rejected r, _ => Rejected r
      | _, Rejected r => Rejected r
      | Pending, _ => Pending
      | _, Pending => Pending
      | Fulfilled a, Fulfilled l => Fulfilled (a :: l)
      end
  end.

(** [() => lazy().then(...)]: the call is made, and the promise it returns
    is handed to [k]; an exception thrown by the call itself is not caught
    by anything and propagates. *)
Definition andThen {A B} (lazy : Call (Promise A))
    (k : Promise A -> World -> Promise B * World) : Call (Promise B) :=
  fun w =>
    match lazy w with
    | (Throws x, w') => (Throws x, w')
    | (Returns p, w') => let (q, w'') := k p w' in (Returns q, w'')
    end.

(** [arr.map((x, i) => f(i, x)())]: the calls are made in order, from
    index [i] on; an exception thrown by one of them stops the rest. *)
Fixpoint invokeEach {A B} (f : nat -> A -> Call B) (i : nat) (arr : list A)
  : Call (list B) :=
  fun w =>
    match arr with
    | [] => (Returns [], w)
    | a :: rest =>
        match f i a w with
        | (Throws x, w') => (Throws x, w')
        | (Returns b, w') =>
            match invokeEach f (S i) rest w' with
            | (Throws x, w'') => (Throws x, w'')
            | (Returns bs, w'') => (Returns (b :: bs), w'')
            end
        end
    end.

(** [resolve(v)] inside an executor: settles the promise under
    construction unless it is settled already. *)
Definition resolve {T} (v : T) (p : Promise T) : Promise T :=
  match p with
  | Pending => Fulfilled v
  | _ => p
  end.

(** [new Promise((resolve) => body)]. The executor runs at once, on the
    promise under construction and the world; an exception it throws
    rejects the promise unless it is settled already. *)
Definition newPromise {T}
    (executor : Promise T * World -> Completion unit * (Promise T * World))
  : World -> Promise T * World :=
  fun w =>
    match executor (Pending, w) with
    | (Returns _, pw) => pw
    | (Throws x, (Pending, w')) => (Rejected x, w')
    | (Throws _, pw) => pw
    end.

End Host.

Arguments Completion : clear implicits.
Arguments Promise : clear implicits.
Arguments Call : clear implicits.
Arguments Returns {Reason A} a.
Arguments Throws {Reason A} x.
Arguments Pending {Reason A}.
Arguments Fulfilled {Reason A} a.
Arguments Rejected {Reason A} r.

End JS.

(* ------------------------------------------------------------------------- *)
(** ** Type classes: Functor, Pointed, Apply, Applicative, Monad, Semigroup *)
(* ------------------------------------------------------------------------- *)

(** The instance records of the source ([{ URI, map, ap, of, chain }]), with
    the data-first members the source gives them ([map: (fa, f) => ...]).
    Each interface is a record over the type constructor [F]. The member
    [of] is written [of_]. *)

Module Semigroup.
(** Modelled from the spec: [Semigroup.ts] is not among the sources; a
    semigroup is an associative merge [concat]. *)
Record Semigroup (A : Type) : Type := { concat : A -> A -> A }.
End Semigroup.

Module Functor.
(** Modelled from the spec: [Functor.ts] is not among the sources; a functor
    supports [map]. *)
Record Functor (F : Type -> Type) : Type :=
  { map : forall A B : Type, F A -> (A -> B) -> F B }.
Arguments map {F} _ {A B} _ _.
End Functor.

Module Pointed.
(** Modelled from the spec: [Pointed.ts] is not among the sources; [of]
    lifts a plain value. *)
Record Pointed (F : Type -> Type) : Type :=
  { map : forall A B : Type, F A -> (A -> B) -> F B;
    of_ : forall A : Type, A -> F A }.
Arguments map {F} _ {A B} _ _.
Arguments of_ {F} _ {A} _.
End Pointed.

Module Apply.
(** Modelled from the spec: [Apply.ts] is not among the sources; [ap] is the
    independent combination of a wrapped function and a wrapped value. *)
Record Apply (F : Type -> Type) : Type :=
  { map : forall A B : Type, F A -> (A -> B) -> F B;
    ap : forall A B : Type, F (A -> B) -> F A -> F B }.
Arguments map {F} _ {A B} _ _.
Arguments ap {F} _ {A B} _ _.

(** Modelled from the spec: [Apply.ts] is not among the sources. [ap_(F, G)]
    is the application of the composition of [F] and [G]: the [G]-level
    application is mapped over the function computation and the outcome is
    applied, in [F], to the value computation. *)
Definition ap_ {F G : Type -> Type} (FA : Apply F) (GA : Apply G) {A B : Type}
    (fa : F (G A)) (fab : F (G (A -> B))) : F (G B) :=
  ap FA (map FA fab (fun gab => fun ga => ap GA gab ga)) fa.
End Apply.

Module Applicative.
(** Modelled from the spec: [Applicative.ts] is not among the sources; an
    applicative supports [map], [ap] and [of]. *)
Record Applicative (F : Type -> Type) : Type :=
  { map : forall A B : Type, F A -> (A -> B) -> F B;
    ap : forall A B : Type, F (A -> B) -> F A -> F B;
    of_ : forall A : Type, A -> F A }.
Arguments map {F} _ {A B} _ _.
Arguments ap {F} _ {A B} _ _.
Arguments of_ {F} _ {A} _.

(** Modelled from the spec: an applicative is used where an [Apply] is
    expected ([Applicative] extends [Apply] in the source, which passes the
    one for the other). *)
Definition toApply {F} (X : Applicative F) : Apply.Apply F :=
  {| Apply.map := fun A B => @map F X A B; Apply.ap := fun A B => @ap F X A B |}.
End Applicative.

Module Alt.
(** Modelled from the spec: [Alt.ts] is not among the sources; [alt] takes a
    computation and a zero-argument supplier of an alternative. *)
Record Alt (F : Type -> Type) : Type :=
  { map : forall A B : Type, F A -> (A -> B) -> F B;
    alt : forall A : Type, F A -> (unit -> F A) -> F A }.
Arguments map {F} _ {A B} _ _.
Arguments alt {F} _ {A} _ _.
End Alt.

Module Monad.
(** Modelled from the spec: [Monad.ts] is not among the sources; a monad
    supports [chain] (sequencing dependent computations) plus [of]. *)
Record Monad (F : Type -> Type) : Type :=
  { map : forall A B : Type, F A -> (A -> B) -> F B;
    ap : forall A B : Type, F (A -> B) -> F A -> F B;
    of_ : forall A : Type, A -> F A;
    chain : forall A B : Type, F A -> (A -> F B) -> F B }.
Arguments map {F} _ {A B} _ _.
Arguments ap {F} _ {A B} _ _.
Arguments of_ {F} _ {A} _.
Arguments chain {F} _ {A B} _ _.
End Monad.

(* ------------------------------------------------------------------------- *)
(** ** Either.ts *)
(* ------------------------------------------------------------------------- *)

Module E.
Section Either.

(** Modelled from the spec: [Either.ts] is not among the sources.
    [Result<E, A>]: a tagged union with the variants [Failure(E)] ([Left])
    and [Success(A)] ([Right]). *)
Inductive Either (E A : Type) : Type :=
| Left (left : E)
| Right (right : A).

Arguments Left {E A} left.
Arguments Right {E A} right.

Context {E : Type}.

(** Modelled from the spec: the tag test [isLeft]. *)
Definition isLeft {A} (ma : Either E A) : bool :=
  match ma with
  | Left _ => true
  | Right _ => false
  end.

(** Modelled from the spec: [map(f)] transforms the success value, leaving
    failure untouched. *)
Definition map {A B} (f : A -> B) (fa : Either E A) : Either E B :=
  match fa with
  | Left e => Left e
  | Right a => Right (f a)
  end.

(** Modelled from the spec: [mapLeft(f)] transforms the failure value,
    leaving success untouched. *)
Definition mapLeft {G A} (f : E -> G) (fa : Either E A) : Either G A :=
  match fa with
  | Left e => Left (f e)
  | Right a => Right a
  end.

(** Modelled from the spec: the short-circuiting application of [Either];
    the failure of the function side is looked at first, then the failure
    of the value side (first branch's failure wins). *)
Definition ap {A B} (fa : Either E A) (fab : Either E (A -> B)) : Either E B :=
  match fab with
  | Left e => Left e
  | Right f =>
      match fa with
      | Left e => Left e
      | Right a => Right (f a)
      end
  end.

(** Modelled from the spec: the [Apply] instance of [Either]. *)
Definition Apply : Apply.Apply (Either E) :=
  {| Apply.map := fun A B fa f => map f fa;
     Apply.ap := fun A B fab fa => ap fa fab |}.

(** Modelled from the spec: the validation applicative. Instead of
    short-circuiting on the first failure, two failures are combined with
    the supplied associative merge. *)
Definition getApplicativeValidation (SE : Semigroup.Semigroup E)
  : Applicative.Applicative (Either E) :=
  {| Applicative.map := fun A B fa f => map f fa;
     Applicative.ap := fun A B fab fa =>
       match fab with
       | Left e1 =>
           match fa with
           | Left e2 => Left (Semigroup.concat SE e1 e2)
           | Right _ => Left e1
           end
       | Right f =>
           match fa with
           | Left e2 => Left e2
           | Right a => Right (f a)
           end
       end;
     Applicative.of_ := fun A a => Right a |}.

(** Modelled from the spec: the array traversal of [Either]. The results
    are scanned in order; the first failure met is returned at once,
    otherwise the successes are collected in the original order. The
    accumulator [result] is the array the loop pushes onto. *)
Fixpoint traverseArrayWithIndex_loop {A B} (f : nat -> A -> Either E B)
    (i : nat) (arr : list A) (result : list B) : Either E (list B) :=
  match arr with
  | [] => Right result
  | a :: rest =>
      match f i a with
      | Left e => Left e
      | Right b => traverseArrayWithIndex_loop f (S i) rest (result ++ [b])
      end
  end.

(** Modelled from the spec: the traversal starts the scan at index [0] with
    nothing collected. *)
Definition traverseArrayWithIndex {A B} (f : nat -> A -> Either E B)
    (arr : list A) : Either E (list B) :=
  traverseArrayWithIndex_loop f 0 arr [].

(** Modelled from the spec: the traversal that ignores the index. *)
Definition traverseArray {A B} (f : A -> Either E B)
  : list A -> Either E (list B) :=
  traverseArrayWithIndex (fun _ a => f a).

(** Modelled from the spec: [sequenceArray] of [Either] is the traversal
    with the identity. *)
Definition sequenceArray {A} : list (Either E A) -> Either E (list A) :=
  traverseArray function.identity.

End Either.

Arguments Left {E A} left.
Arguments Right {E A} right.

End E.

(* ------------------------------------------------------------------------- *)
(** ** Task.ts *)
(* ------------------------------------------------------------------------- *)

Module T.
Section Task.

Context {World Reason : Type}.

(** Modelled from the spec: [Task.ts] is not among the sources. A [Task] is
    a zero-argument deferred computation that, when invoked, yields a
    promise; each invocation starts a fresh computation. *)
Definition Task (A : Type) : Type :=
  JS.Call World Reason (JS.Promise Reason A).

(** Modelled from the spec: [of(a)] is the already-resolved task
    [() => Promise.resolve(a)]. *)
Definition of_ {A} (a : A) : Task A :=
  fun w => (JS.Returns (JS.Fulfilled a), w).

(** Modelled from the spec: [map(f)(fa)] is [() => fa().then(f)]. *)
Definition map {A B} (f : A -> B) (fa : Task A) : Task B :=
  JS.andThen fa (fun p => JS.then1 p (JS.value f)).

(** Modelled from the spec: [chain(f)(ma)] runs [ma], then feeds its value
    to [f] and runs the task obtained: [() => ma().then((a) => f(a)())]. *)
Definition chain {A B} (f : A -> Task B) (ma : Task A) : Task B :=
  JS.andThen ma (fun p => JS.then1 p (fun a => f a)).

(** Modelled from the spec: the parallel [ap(fa)(fab)] starts both
    computations before awaiting either, the function side first:
    [() => Promise.all([fab(), fa()]).then(([f, a]) => f(a))]. *)
Definition ap {A B} (fa : Task A) (fab : Task (A -> B)) : Task B :=
  fun w =>
    match fab w with
    | (JS.Throws x, w1) => (JS.Throws x, w1)
    | (JS.Returns pf, w1) =>
        JS.andThen fa
          (fun pa => JS.then1 (JS.all2 pf pa)
                       (JS.value (fun fx => fst fx (snd fx)))) w1
    end.

(** Modelled from the spec: the data-first members of the instances of
    [Task], [_map], [_apPar] and [_chain], call the pipeable functions. *)
Definition _map {A B} (fa : Task A) (f : A -> B) : Task B :=
  function.pipe fa (map f).

(** Modelled from the spec: see [_map]. *)
Definition _apPar {A B} (fab : Task (A -> B)) (fa : Task A) : Task B :=
  function.pipe fab (ap fa).

(** Modelled from the spec: the sequential application runs the function
    computation, then the value computation. *)
Definition _apSeq {A B} (fab : Task (A -> B)) (fa : Task A) : Task B :=
  function.pipe fab (chain (fun f => function.pipe fa (map f))).

(** Modelled from the spec: see [_map]. *)
Definition _chain {A B} (ma : Task A) (f : A -> Task B) : Task B :=
  function.pipe ma (chain f).

(** Modelled from the spec: the [Functor] instance of [Task]. *)
Definition Functor : Functor.Functor Task :=
  {| Functor.map := @_map |}.

(** Modelled from the spec: the [Pointed] instance of [Task]. *)
Definition Pointed : Pointed.Pointed Task :=
  {| Pointed.map := @_map; Pointed.of_ := @of_ |}.

(** Modelled from the spec: the [Apply] instance of [Task] whose [ap] is the
    parallel one. *)
Definition ApplyPar : Apply.Apply Task :=
  {| Apply.map := @_map; Apply.ap := @_apPar |}.

(** Modelled from the spec: the [Apply] instance of [Task] whose [ap] is the
    sequential one. *)
Definition ApplySeq : Apply.Apply Task :=
  {| Apply.map := @_map; Apply.ap := @_apSeq |}.

(** Modelled from the spec: the [Monad] instance of [Task]; its [ap] is the
    parallel one. *)
Definition Monad : Monad.Monad Task :=
  {| Monad.map := @_map; Monad.ap := @_apPar; Monad.of_ := @of_;
     Monad.chain := @_chain |}.

(** Modelled from the spec: [traverseArrayWithIndex(f)(arr)] launches the
    computations of all the elements together and awaits them all:
    [() => Promise.all(arr.map((x, i) => f(i, x)()))]. *)
Definition traverseArrayWithIndex {A B} (f : nat -> A -> Task B)
    (arr : list A) : Task (list B) :=
  fun w =>
    match JS.invokeEach f 0 arr w with
    | (JS.Throws x, w') => (JS.Throws x, w')
    | (JS.Returns ps, w') => (JS.Returns (JS.all ps), w')
    end.

End Task.

Arguments Task : clear implicits.

End T.

(* ------------------------------------------------------------------------- *)
(** ** EitherT.ts *)
(* ------------------------------------------------------------------------- *)

Module ET.
Section EitherT.

Context {F : Type -> Type}.

(** Modelled from the spec: [EitherT.ts] is not among the sources.
    [right_(F)(a)] is the already-resolved [Success(a)]. *)
Definition right_ (P : Pointed.Pointed F) {E A} (a : A) : F (E.Either E A) :=
  function.flow (@E.Right E A) (Pointed.of_ P) a.

(** Modelled from the spec: [left_(F)(e)] is the already-resolved
    [Failure(e)]. *)
Definition left_ (P : Pointed.Pointed F) {E A} (e : E) : F (E.Either E A) :=
  function.flow (@E.Left E A) (Pointed.of_ P) e.

(** Modelled from the spec: [rightF_], [leftF_] lift a computation that
    cannot fail into the success or the failure side. *)
Definition rightF_ (FF : Functor.Functor F) {E A} (fa : F A)
  : F (E.Either E A) :=
  Functor.map FF fa (@E.Right E A).

(** Modelled from the spec: see [rightF_]. *)
Definition leftF_ (FF : Functor.Functor F) {E A} (fe : F E)
  : F (E.Either E A) :=
  Functor.map FF fe (@E.Left E A).

(** Modelled from the spec: [map_(F)(f)] transforms the success value,
    leaving failure untouched. *)
Definition map_ (FF : Functor.Functor F) {E A B} (f : A -> B)
    (fa : F (E.Either E A)) : F (E.Either E B) :=
  Functor.map FF fa (E.map f).

(** Modelled from the spec: [mapLeft_], [bimap_] transform failure and/or
    success independently. *)
Definition bimap_ (FF : Functor.Functor F) {E G A B} (f : E -> G) (g : A -> B)
    (fea : F (E.Either E A)) : F (E.Either G B) :=
  Functor.map FF fea
    (fun e => match e with
              | E.Left l => E.Left (f l)
              | E.Right a => E.Right (g a)
              end).

(** Modelled from the spec: see [bimap_]. *)
Definition mapLeft_ (FF : Functor.Functor F) {E G A} (f : E -> G)
    (fea : F (E.Either E A)) : F (E.Either G A) :=
  Functor.map FF fea
    (fun e => match e with
              | E.Left l => E.Left (f l)
              | E.Right a => E.Right a
              end).

(** Modelled from the spec: [ap_(F)] composes the application of [F] with
    the short-circuiting application of [Either]. *)
Definition ap_ (FA : Apply.Apply F) {E A B} (fa : F (E.Either E A))
    (fab : F (E.Either E (A -> B))) : F (E.Either E B) :=
  Apply.ap_ FA E.Apply fa fab.

(** Modelled from the spec: [chain_(M)(f)(ma)] runs the computation, and if
    successful, feeds the value into [f] to obtain the next computation;
    on failure, short-circuits without invoking [f]:
    [M.chain(ma, (e) => isLeft(e) ? M.of(e) : f(e.right))]. *)
Definition chain_ (M : Monad.Monad F) {E A B} (f : A -> F (E.Either E B))
    (ma : F (E.Either E A)) : F (E.Either E B) :=
  Monad.chain M ma
    (fun e => match e with
              | E.Left l => Monad.of_ M (E.Left l)
              | E.Right a => f a
              end).

(** Modelled from the spec: [orElse_(M)(onLeft)(ma)]: on failure, invokes
    [onLeft(e)] to obtain a replacement; on success, passes through
    unchanged. *)
Definition orElse_ (M : Monad.Monad F) {E G A}
    (onLeft : E -> F (E.Either G A)) (ma : F (E.Either E A))
  : F (E.Either G A) :=
  Monad.chain M ma
    (fun e => match e with
              | E.Left l => onLeft l
              | E.Right a => Monad.of_ M (E.Right a)
              end).

(** Modelled from the spec: [alt_(M)(that)(fa)]: same contract, [that] is a
    zero-argument supplier. *)
Definition alt_ (M : Monad.Monad F) {E A}
    (that : unit -> F (E.Either E A)) (fa : F (E.Either E A))
  : F (E.Either E A) :=
  Monad.chain M fa
    (fun e => match e with
              | E.Left _ => that tt
              | E.Right a => Monad.of_ M (E.Right a)
              end).

(** Modelled from the spec: [altValidation_(M, S)(second)(first)]: the
    alternative is tried on failure, and if it fails too the two failures
    are combined with the supplied associative merge. *)
Definition altValidation_ (M : Monad.Monad F) {E} (S : Semigroup.Semigroup E)
    {A} (second : unit -> F (E.Either E A)) (first : F (E.Either E A))
  : F (E.Either E A) :=
  Monad.chain M first
    (fun e => match e with
              | E.Left e1 =>
                  Monad.map M (second tt)
                    (E.mapLeft (fun e2 => Semigroup.concat S e1 e2))
              | E.Right a => Monad.of_ M (E.Right a)
              end).

End EitherT.
End ET.

(* ------------------------------------------------------------------------- *)
(** ** TaskEither.ts *)
(* ------------------------------------------------------------------------- *)

Module TE.
Section TaskEither.

Context {World Reason : Type}.

Local Abbreviation Task := (T.Task World Reason).
Local Abbreviation Either := E.Either.

(** [interface TaskEither<E, A> extends Task<Either<E, A>>]. *)
Definition TaskEither (E A : Type) : Type := Task (Either E A).

(** *** constructors *)

Definition left {E A} : E -> TaskEither E A := ET.left_ T.Pointed.

Definition right {E A} : A -> TaskEither E A := ET.right_ T.Pointed.

Definition rightTask {E A} : Task A -> TaskEither E A := ET.rightF_ T.Functor.

Definition leftTask {E A} : Task E -> TaskEither E A := ET.leftF_ T.Functor.

Definition fromEither {E A} (ma : Either E A) : TaskEither E A :=
  match ma with
  | E.Left e => left e
  | E.Right a => right a
  end.

Definition fromOption {E A} (onNone : unit -> E) (ma : option A)
  : TaskEither E A :=
  match ma with
  | None => left (onNone tt)
  | Some value => right value
  end.

Definition fromPredicate {E A} (predicate : A -> bool) (onFalse : A -> E)
    (a : A) : TaskEither E A :=
  if predicate a then right a else left (onFalse a).

(** [tryCatch(f, onRejected)] is
    [() => f().then(E.right, (reason) => E.left(onRejected(reason)))].
    [f] is any promise-returning call: it may throw, and the promise it
    returns may reject. *)
Definition tryCatch {E A} (f : JS.Call World Reason (JS.Promise Reason A))
    (onRejected : Reason -> E) : TaskEither E A :=
  JS.andThen f
    (fun p => JS.then2 p (JS.value (@E.Right E A))
                (JS.value (fun reason => E.Left (onRejected reason)))).

(** *** combinators *)

Definition orElse {E A M} : (E -> TaskEither M A) -> TaskEither E A ->
                            TaskEither M A :=
  ET.orElse_ T.Monad.

Definition tryCatchK {E A B} (f : A -> JS.Call World Reason (JS.Promise Reason B))
    (onRejected : Reason -> E) : A -> TaskEither E B :=
  fun a => tryCatch (f a) onRejected.

Definition fromEitherK {E A B} (f : A -> Either E B) : A -> TaskEither E B :=
  fun a => fromEither (f a).

(** *** pipeables *)

Definition map {E A B} : (A -> B) -> TaskEither E A -> TaskEither E B :=
  ET.map_ T.Functor.

Definition bimap {E G A B} : (E -> G) -> (A -> B) -> TaskEither E A ->
                             TaskEither G B :=
  ET.bimap_ T.Functor.

Definition mapLeft {E G A} : (E -> G) -> TaskEither E A -> TaskEither G A :=
  ET.mapLeft_ T.Functor.

Definition ap {E A B} : TaskEither E A -> TaskEither E (A -> B) ->
                        TaskEither E B :=
  ET.ap_ T.ApplyPar.

Definition chain {E A B} : (A -> TaskEither E B) -> TaskEither E A ->
                           TaskEither E B :=
  ET.chain_ T.Monad.

Definition chainW {E A B} : (A -> TaskEither E B) -> TaskEither E A ->
                            TaskEither E B :=
  chain.

Definition filterOrElse {E A} (predicate : A -> bool) (onFalse : A -> E)
  : TaskEither E A -> TaskEither E A :=
  chainW (fun a => if predicate a then right a else left (onFalse a)).

Definition chainEitherK {E A B} (f : A -> Either E B)
  : TaskEither E A -> TaskEither E B :=
  chainW (fromEitherK f).

Definition flatten {E A} : TaskEither E (TaskEither E A) -> TaskEither E A :=
  chain function.identity.

Definition alt {E A} : (unit -> TaskEither E A) -> TaskEither E A ->
                       TaskEither E A :=
  ET.alt_ T.Monad.

Definition of_ {E A} : A -> TaskEither E A := right.

Definition throwError {E A} : E -> TaskEither E A := left.

(** *** non-pipeables *)

Definition _map {E A B} (fa : TaskEither E A) (f : A -> B) : TaskEither E B :=
  function.pipe fa (map f).

Definition _apPar {E A B} (fab : TaskEither E (A -> B)) (fa : TaskEither E A)
  : TaskEither E B :=
  function.pipe fab (ap fa).

Definition _apSeq {E A B} (fab : TaskEither E (A -> B)) (fa : TaskEither E A)
  : TaskEither E B :=
  function.pipe fab (chain (fun f => function.pipe fa (map f))).

Definition _chain {E A B} (ma : TaskEither E A) (f : A -> TaskEither E B)
  : TaskEither E B :=
  function.pipe ma (chain f).

(** *** instances *)

Definition getApplicativeTaskValidation {E} (A : Apply.Apply Task)
    (S : Semigroup.Semigroup E) : Applicative.Applicative (TaskEither E) :=
  let ap := fun X Y =>
    @Apply.ap_ _ _ A (Applicative.toApply (E.getApplicativeValidation S)) X Y in
  {| Applicative.map := fun X Y => @_map E X Y;
     Applicative.ap := fun X Y fab fa => function.pipe fab (ap X Y fa);
     Applicative.of_ := fun X => @of_ E X |}.

Definition getAltTaskValidation {E} (S : Semigroup.Semigroup E)
  : Alt.Alt (TaskEither E) :=
  let alt := fun X => @ET.altValidation_ _ T.Monad E S X in
  {| Alt.map := fun X Y => @_map E X Y;
     Alt.alt := fun X fa that => function.pipe fa (alt X that) |}.

Definition ApplyPar {E} : Apply.Apply (TaskEither E) :=
  {| Apply.map := fun X Y => @_map E X Y; Apply.ap := fun X Y => @_apPar E X Y |}.

Definition ApplySeq {E} : Apply.Apply (TaskEither E) :=
  {| Apply.map := fun X Y => @_map E X Y; Apply.ap := fun X Y => @_apSeq E X Y |}.

Definition Monad {E} : Monad.Monad (TaskEither E) :=
  {| Monad.map := fun X Y => @_map E X Y;
     Monad.ap := fun X Y => @_apPar E X Y;
     Monad.of_ := fun X => @of_ E X;
     Monad.chain := fun X Y => @_chain E X Y |}.

(** *** utils *)

(** A run of a node style function, given its arguments and a callback
    [(e, r) => void]: the calls it makes to the callback before it returns
    or throws ([sync], in order), how it completes, and the calls made
    afterwards by the work it has deferred ([later], in order). The callback
    [taskify] gives it acts on the promise under construction only. *)
Record NodeRun (L R : Type) : Type :=
  { sync : list (option L * R);
    completion : JS.Completion Reason unit;
    later : list (option L * R) }.

(** A node style function: on its arguments, it works on the world and runs
    as a [NodeRun] describes. *)
Definition NodeFunction (Args L R : Type) : Type :=
  Args -> World -> NodeRun L R * World.

(** [taskify(f)] is
    [(...args) => () => new Promise((resolve) => {
       const cbResolver = (e, r) =>
         e != null ? resolve(E.left(e)) : resolve(E.right(r))
       f.apply(null, args.concat(cbResolver)) })].
    The executor is the call of [f] with its synchronous calls to
    [cbResolver]; the deferred calls reach the promise after the executor
    has returned or thrown. *)
Definition taskify {Args L R} (f : NodeFunction Args L R)
  : Args -> TaskEither L R :=
  fun args w =>
    let cbResolver := fun (e : option L) (r : R) =>
      match e with
      | Some l => JS.resolve (@E.Left L R l)
      | None => JS.resolve (@E.Right L R r)
      end in
    let replay := fun (calls : list (option L * R))
                      (p : JS.Promise Reason (Either L R)) =>
      fold_left (fun p er => cbResolver (fst er) (snd er) p) calls p in
    let executor := fun pw : JS.Promise Reason (Either L R) * World =>
      let (run, w') := f args (snd pw) in
      (completion run, (replay (sync run) (fst pw), w')) in
    let (p, w') := JS.newPromise executor w in
    (JS.Returns (replay (later (fst (f args w))) p), w').

Definition bracket {E A B} (acquire : TaskEither E A)
    (use : A -> TaskEither E B)
    (release : A -> Either E B -> TaskEither E unit) : TaskEither E B :=
  function.pipe acquire
    (chain (fun a =>
       function.pipe
         (function.pipe (use a) (T.map (@E.Right E (Either E B))))
         (chain (fun e =>
            function.pipe (release a e)
              (chain (fun _ =>
                 match e with
                 | E.Left l => left l
                 | E.Right r => of_ r
                 end)))))).

(** *** array utils *)

Definition traverseArrayWithIndex {A B E} (f : nat -> A -> TaskEither E B)
    (arr : list A) : TaskEither E (list B) :=
  function.pipe3 arr (T.traverseArrayWithIndex f) (T.map E.sequenceArray).

Definition traverseArray {A B E} (f : A -> TaskEither E B)
  : list A -> TaskEither E (list B) :=
  traverseArrayWithIndex (fun _ a => f a).

Definition sequenceArray {A E} : list (TaskEither E A) -> TaskEither E (list A) :=
  traverseArray function.identity.

(** The body of the [async] function of [traverseSeqArrayWithIndex], from
    index [i] on, [result] being the array pushed onto so far. An [async]
    function never throws: an exception of [f(i, arr[i])()] and the
    rejection of an awaited promise reject the promise it returns. *)
Fixpoint traverseSeqArrayWithIndex_loop {A B E}
    (f : nat -> A -> TaskEither E B) (i : nat) (arr : list A)
    (result : list B) (w : World)
  : JS.Promise Reason (Either E (list B)) * World :=
  match arr with
  | [] => (JS.Fulfilled (E.Right result), w)
  | a :: rest =>
      match f i a w with
      | (JS.Throws x, w') => (JS.Rejected x, w')
      | (JS.Returns JS.Pending, w') => (JS.Pending, w')
      | (JS.Returns (JS.Rejected r), w') => (JS.Rejected r, w')
      | (JS.Returns (JS.Fulfilled (E.Left e)), w') =>
          (JS.Fulfilled (E.Left e), w')
      | (JS.Returns (JS.Fulfilled (E.Right b)), w') =>
          traverseSeqArrayWithIndex_loop f (S i) rest (result ++ [b]) w'
      end
  end.

Definition traverseSeqArrayWithIndex {A B E} (f : nat -> A -> TaskEither E B)
    (arr : list A) : TaskEither E (list B) :=
  fun w =>
    let (p, w') := traverseSeqArrayWithIndex_loop f 0 arr [] w in
    (JS.Returns p, w').

Definition traverseSeqArray {A B E} (f : A -> TaskEither E B)
  : list A -> TaskEither E (list B) :=
  traverseSeqArrayWithIndex (fun _ a => f a).

Definition sequenceSeqArray {A E}
  : list (TaskEither E A) -> TaskEither E (list A) :=
  traverseSeqArray function.identity.

End TaskEither.

Arguments TaskEither : clear implicits.
Arguments NodeRun : clear implicits.
Arguments NodeFunction : clear implicits.

End TE.

(* ------------------------------------------------------------------------- *)
(** ** Observing a computation *)
(* ------------------------------------------------------------------------- *)

Module Obs.
Section Observations.

Context {World Reason : Type}.

Local Abbreviation Task := (T.Task World Reason).
Local Abbreviation TaskEither := (TE.TaskEither World Reason).

(** The outcome of an invocation that returned a promise fulfilled with
    [a], the world being [w] afterwards. *)
Definition settled {A} (a : A) (w : World)
  : JS.Completion Reason (JS.Promise Reason A) * World :=
  (JS.Returns (JS.Fulfilled a), w).

(** [t], invoked in the world [w], settles to [a] and leaves [w']. *)
Definition settlesTo {A} (t : Task A) (w : World) (a : A) (w' : World) : Prop :=
  t w = settled a w'.

(** Two computations are equivalent when, from every world, they settle to
    the same [Either] (and leave the same world). *)
Definition equivalent {E A} (t u : TaskEither E A) : Prop :=
  forall w r w', settlesTo t w r w' <-> settlesTo u w r w'.

(** A spy: the function [f] wrapped so that each invocation is recorded in
    the world before [f] runs. *)
Definition spy {A B} (record : A -> World -> World) (f : A -> Task B)
  : A -> Task B :=
  fun a w => f a (record a w).

(** The same for a function of two arguments. *)
Definition spy2 {A B C} (record : A -> B -> World -> World)
    (f : A -> B -> Task C) : A -> B -> Task C :=
  fun a b w => f a b (record a b w).

(** The computations [f a], for [a] in [arr] and run one after the other
    from [w], settle to the values [xs] and leave [w']. *)
Inductive settleEach {A X} (f : A -> Task X)
  : list A -> World -> list X -> World -> Prop :=
| settleEach_nil : forall w, settleEach f [] w [] w
| settleEach_cons : forall a rest w x w1 xs w2,
    settlesTo (f a) w x w1 ->
    settleEach f rest w1 xs w2 ->
    settleEach f (a :: rest) w (x :: xs) w2.

(** The elements of [arr] paired with their positions, counted from [i]. *)
Definition withIndexFrom {A} (i : nat) (arr : list A) : list (nat * A) :=
  combine (seq i (List.length arr)) arr.

(** The calls a node style function made to the callback of [taskify],
    replayed in order on a promise. *)
Definition replayed {L R} (calls : list (option L * R))
    (p : JS.Promise Reason (E.Either L R)) : JS.Promise Reason (E.Either L R) :=
  fold_left
    (fun p er =>
       match fst er with
       | Some l => JS.resolve (@E.Left L R l)
       | None => JS.resolve (@E.Right L R (snd er))
       end p) calls p.

(** The invocation threw, or returned a promise that rejects: a failure
    that was not captured into [Left]. *)
Definition escapes {A}
    (o : JS.Completion Reason (JS.Promise Reason A) * World) : Prop :=
  match fst o with
  | JS.Throws _ => True
  | JS.Returns (JS.Rejected _) => True
  | JS.Returns _ => False
  end.

(** A promise that is not rejected. *)
Definition unrejected {A} (p : JS.Promise Reason A) : Prop :=
  match p with
  | JS.Rejected _ => False
  | _ => True
  end.

(** No invocation of [t] throws or rejects. *)
Definition neverEscapes {A} (t : Task A) : Prop :=
  forall w, ~ escapes (t w).

(** The call [f] never throws (the promise it returns may reject). *)
Definition neverThrows {A} (f : JS.Call World Reason A) : Prop :=
  forall w, exists a w', f w = (JS.Returns a, w').

End Observations.
End Obs.

(* ------------------------------------------------------------------------- *)
(** ** Fixtures: the concrete computations the examples run *)
(* ------------------------------------------------------------------------- *)

Module Fix.

Local Open Scope string_scope.

(** A world that is a log of the arguments a spy was called with, the
    latest first. *)
Definition Log : Type := list nat.

Definition record : nat -> Log -> Log := fun n log => n :: log.

(** [(n) => n === 2 ? left('two') : right(n * 10)], spied on. *)
Definition failsOnTwo : nat -> TE.TaskEither Log string string nat :=
  Obs.spy record
    (fun n => if Nat.eqb n 2 then TE.left "two" else TE.right (n * 10)).

(** A world that is a journal of what ran, the latest first. *)
Definition Journal : Type := list string.

Definition logged {E A} (event : string) (r : E.Either E A)
  : TE.TaskEither Journal string E A :=
  fun w => Obs.settled r (event :: w).

Definition acquireOk : TE.TaskEither Journal string string nat :=
  logged "acquire" (E.Right 7).

Definition acquireKo : TE.TaskEither Journal string string nat :=
  logged "acquire" (E.Left "no resource").

Definition useOk (n : nat) : TE.TaskEither Journal string string nat :=
  logged "use" (E.Right (n + 1)).

Definition useKo (n : nat) : TE.TaskEither Journal string string nat :=
  logged "use" (E.Left "use failed").

Definition releaseOk (n : nat) (e : E.Either string nat)
  : TE.TaskEither Journal string string unit :=
  logged "release" (E.Right tt).

Definition releaseKo (n : nat) (e : E.Either string nat)
  : TE.TaskEither Journal string string unit :=
  logged "release" (E.Left "release failed").

(** [String], used as [onRejected] on reasons that are strings. *)
Definition String (reason : string) : string := reason.

(** [() => Promise.resolve(1)], [() => Promise.reject('error')] and
    [() => { throw 'boom' }], in a world where nothing happens. *)
Definition resolvesOne : JS.Call unit string (JS.Promise string nat) :=
  fun w => (JS.Returns (JS.Fulfilled 1), w).

Definition rejectsError : JS.Call unit string (JS.Promise string nat) :=
  fun w => (JS.Returns (JS.Rejected "error"), w).

Definition throwsBoom : JS.Call unit string (JS.Promise string nat) :=
  fun w => (JS.Throws "boom", w).

(** A node style function that throws before calling back. *)
Definition nodeThrows : TE.NodeFunction unit string nat string nat :=
  fun _ w =>
    ({| TE.sync := []; TE.completion := JS.Throws "boom"; TE.later := [] |}, w).

(** [semigroupString]: string concatenation. *)
Definition semigroupString : Semigroup.Semigroup string :=
  {| Semigroup.concat := String.append |}.

End Fix.

(* ------------------------------------------------------------------------- *)
(** ** Monoid.ts *)
(* ------------------------------------------------------------------------- *)

Module Monoid.

(** [interface Monoid<A> extends Semigroup<A> { readonly empty: A }]. *)
Record Monoid (A : Type) : Type :=
  { concat : A -> A -> A;
    empty : A }.

(** A monoid is used where a semigroup is expected. *)
Definition toSemigroup {A} (M : Monoid A) : Semigroup.Semigroup A :=
  {| Semigroup.concat := concat M |}.

(** The laws a [Monoid] is meant to satisfy: [concat] is associative and
    [empty] is its identity on both sides. *)
Definition Lawful {A} (M : Monoid A) : Prop :=
  (forall x y z, concat M (concat M x y) z = concat M x (concat M y z))
  /\ (forall x, concat M (empty M) x = x)
  /\ (forall x, concat M x (empty M) = x).

(** [fold(M)] is [foldSemigroup(M)(M.empty)]; [foldSemigroup], of
    [Semigroup.ts], is not among the sources and is a parameter. *)
Definition fold {A}
    (foldSemigroup : Semigroup.Semigroup A -> A -> list A -> A)
    (M : Monoid A) : list A -> A :=
  foldSemigroup (toSemigroup M) (empty M).

(** [getTupleMonoid(MA, MB)] is
    [{ ...getTupleSemigroup(MA, MB), empty: [MA.empty, MB.empty] }];
    [getTupleSemigroup], of [Semigroup.ts], is a parameter. *)
Definition getTupleMonoid {A B}
    (getTupleSemigroup : Semigroup.Semigroup A -> Semigroup.Semigroup B ->
                         Semigroup.Semigroup (A * B))
    (MA : Monoid A) (MB : Monoid B) : Monoid (A * B) :=
  {| concat := Semigroup.concat
                 (getTupleSemigroup (toSemigroup MA) (toSemigroup MB));
     empty := (empty MA, empty MB) |}.

(** [getProductMonoid], the deprecated name of [getTupleMonoid]. *)
Definition getProductMonoid {A B}
    (getTupleSemigroup : Semigroup.Semigroup A -> Semigroup.Semigroup B ->
                         Semigroup.Semigroup (A * B))
    (MA : Monoid A) (MB : Monoid B) : Monoid (A * B) :=
  getTupleMonoid getTupleSemigroup MA MB.

(** [getDualMonoid(M)] is [{ ...getDualSemigroup(M), empty: M.empty }];
    [getDualSemigroup], of [Semigroup.ts], is a parameter. *)
Definition getDualMonoid {A}
    (getDualSemigroup : Semigroup.Semigroup A -> Semigroup.Semigroup A)
    (M : Monoid A) : Monoid A :=
  {| concat := Semigroup.concat (getDualSemigroup (toSemigroup M));
     empty := empty M |}.

(** [getFunctionMonoid(M)()] is
    [{ ...getFunctionSemigroup(M)(), empty: () => M.empty }];
    [getFunctionSemigroup], of [Semigroup.ts], is a parameter. *)
Definition getFunctionMonoid {M A}
    (getFunctionSemigroup : Semigroup.Semigroup M -> Semigroup.Semigroup (A -> M))
    (MM : Monoid M) : Monoid (A -> M) :=
  {| concat := Semigroup.concat (getFunctionSemigroup (toSemigroup MM));
     empty := fun _ => empty MM |}.

End Monoid.

(* ------------------------------------------------------------------------- *)
(** ** ReadonlyTuple.ts *)
(* ------------------------------------------------------------------------- *)

(** The data-last interfaces ReadonlyTuple.ts is written against
    ([map: (f) => (fa) => ...]). *)
Module V3.

(** Modelled from the spec: the interface [Pointed] of the data-last
    version, [{ map, of }]; its file is not among the sources. *)
Record Pointed (F : Type -> Type) : Type :=
  { Pointed_map : forall A B : Type, (A -> B) -> F A -> F B;
    Pointed_of : forall A : Type, A -> F A }.

(** Modelled from the spec: the interface [Apply], [{ map, ap }]. *)
Record Apply (F : Type -> Type) : Type :=
  { Apply_map : forall A B : Type, (A -> B) -> F A -> F B;
    Apply_ap : forall A B : Type, F A -> F (A -> B) -> F B }.

(** Modelled from the spec: the interface [Applicative], [{ map, ap, of }]. *)
Record Applicative (F : Type -> Type) : Type :=
  { Applicative_map : forall A B : Type, (A -> B) -> F A -> F B;
    Applicative_ap : forall A B : Type, F A -> F (A -> B) -> F B;
    Applicative_of : forall A : Type, A -> F A }.

(** Modelled from the spec: the interface [Monad], [{ map, chain, of }]. *)
Record Monad (F : Type -> Type) : Type :=
  { Monad_map : forall A B : Type, (A -> B) -> F A -> F B;
    Monad_chain : forall A B : Type, (A -> F B) -> F A -> F B;
    Monad_of : forall A : Type, A -> F A }.

End V3.

Module RT.

(** [type ReadonlyTuple2<E, A> = readonly [A, E]]. *)
Definition ReadonlyTuple2 (E A : Type) : Type := (A * E)%type.

Definition fst {A E} (t : ReadonlyTuple2 E A) : A := Datatypes.fst t.

Definition snd {A E} (t : ReadonlyTuple2 E A) : E := Datatypes.snd t.

Definition swap {A E} (t : ReadonlyTuple2 E A) : ReadonlyTuple2 A E :=
  (snd t, fst t).

Definition bimap {E G A B} (f : E -> G) (g : A -> B)
    (fa : ReadonlyTuple2 E A) : ReadonlyTuple2 G B :=
  (g (fst fa), f (snd fa)).

Definition mapLeft {E G A} (f : E -> G) (fa : ReadonlyTuple2 E A)
  : ReadonlyTuple2 G A :=
  (fst fa, f (snd fa)).

Definition compose {A B C} (ab : ReadonlyTuple2 A B) (bc : ReadonlyTuple2 B C)
  : ReadonlyTuple2 A C :=
  (fst bc, snd ab).

Definition extend {E A B} (f : ReadonlyTuple2 E A -> B)
    (wa : ReadonlyTuple2 E A) : ReadonlyTuple2 E B :=
  (f wa, snd wa).

Definition extract {E A} : ReadonlyTuple2 E A -> A := fst.

Definition duplicate {E A}
  : ReadonlyTuple2 E A -> ReadonlyTuple2 E (ReadonlyTuple2 E A) :=
  extend function.identity.

Definition map {E A B} (f : A -> B) (fa : ReadonlyTuple2 E A)
  : ReadonlyTuple2 E B :=
  (f (fst fa), snd fa).

Definition reduce {E A B} (b : B) (f : B -> A -> B) (fa : ReadonlyTuple2 E A)
  : B :=
  f b (fst fa).

Definition foldMap {E A M} (_ : Monoid.Monoid M) (f : A -> M)
    (fa : ReadonlyTuple2 E A) : M :=
  f (fst fa).

Definition reduceRight {E A B} (b : B) (f : A -> B -> B)
    (fa : ReadonlyTuple2 E A) : B :=
  f (fst fa) b.

Definition traverse {F : Type -> Type} (FA : V3.Applicative F) {A B E}
    (f : A -> F B) (t : ReadonlyTuple2 E A) : F (ReadonlyTuple2 E B) :=
  function.pipe (f (fst t))
    (@V3.Applicative_map F FA _ _ (fun b => (b, snd t))).

Definition sequence {F : Type -> Type} (FA : V3.Applicative F) {A E}
    (t : ReadonlyTuple2 E (F A)) : F (ReadonlyTuple2 E A) :=
  function.pipe (fst t)
    (@V3.Applicative_map F FA _ _ (fun a => (a, snd t))).

Definition getPointed {M} (MM : Monoid.Monoid M)
  : V3.Pointed (ReadonlyTuple2 M) :=
  {| V3.Pointed_map := fun A B => @map M A B;
     V3.Pointed_of := fun A a => (a, Monoid.empty MM) |}.

Definition getApply {S} (SS : Semigroup.Semigroup S)
  : V3.Apply (ReadonlyTuple2 S) :=
  {| V3.Apply_map := fun A B => @map S A B;
     V3.Apply_ap := fun A B fa fab =>
       (fst fab (fst fa), Semigroup.concat SS (snd fa) (snd fab)) |}.

Definition getApplicative {M} (MM : Monoid.Monoid M)
  : V3.Applicative (ReadonlyTuple2 M) :=
  let A := getApply (Monoid.toSemigroup MM) in
  let P := getPointed MM in
  {| V3.Applicative_map := fun A B => @map M A B;
     V3.Applicative_ap := @V3.Apply_ap _ A;
     V3.Applicative_of := @V3.Pointed_of _ P |}.

Definition getMonad {M} (MM : Monoid.Monoid M) : V3.Monad (ReadonlyTuple2 M) :=
  let P := getPointed MM in
  {| V3.Monad_map := fun A B => @map M A B;
     V3.Monad_chain := fun A B f ma =>
       let (b, s) := f (fst ma) in
       (b, Monoid.concat MM s (snd ma));
     V3.Monad_of := @V3.Pointed_of _ P |}.

End RT.

(* ------------------------------------------------------------------------- *)
(** ** Samples: concrete monoids and functions for the examples *)
(* ------------------------------------------------------------------------- *)

Module Samples.

(** Lists of numbers under concatenation: a monoid that is not
    commutative. *)
Definition monoidList : Monoid.Monoid (list nat) :=
  {| Monoid.concat := @app nat; Monoid.empty := [] |}.

(** A function into pairs logging its argument, and one logging its double. *)
Definition logArg (n : nat) : RT.ReadonlyTuple2 (list nat) nat := (n + 1, [n]).

Definition logDouble (n : nat) : RT.ReadonlyTuple2 (list nat) nat :=
  (n * 2, [n; n]).

(** Stand-ins for the functions of [Semigroup.ts] that [Monoid.ts] takes as
    given, used to run the examples: the left fold, the componentwise
    semigroup of pairs, the semigroup with the arguments exchanged, and the
    pointwise semigroup of functions. *)
Definition foldSemigroup {A} (S : Semigroup.Semigroup A) (a : A)
    (xs : list A) : A :=
  fold_left (Semigroup.concat S) xs a.

Definition getTupleSemigroup {A B} (SA : Semigroup.Semigroup A)
    (SB : Semigroup.Semigroup B) : Semigroup.Semigroup (A * B) :=
  {| Semigroup.concat := fun x y =>
       (Semigroup.concat SA (fst x) (fst y),
        Semigroup.concat SB (snd x) (snd y)) |}.

Definition getDualSemigroup {A} (S : Semigroup.Semigroup A)
  : Semigroup.Semigroup A :=
  {| Semigroup.concat := fun x y => Semigroup.concat S y x |}.

Definition getFunctionSemigroup {M A} (S : Semigroup.Semigroup M)
  : Semigroup.Semigroup (A -> M) :=
  {| Semigroup.concat := fun f g a => Semigroup.concat S (f a) (g a) |}.

(** Numbers under addition. *)
Definition monoidPlus : Monoid.Monoid nat :=
  {| Monoid.concat := Nat.add; Monoid.empty := 0 |}.

(** A node style function that calls back with a result, then with an
    error, then throws. *)
Definition nodeCallsTwice : TE.NodeFunction unit string nat string nat :=
  fun n w =>
    ({| TE.sync := [(None, n + 1); (Some "late"%string, 0)];
        TE.completion := JS.Throws "after"%string;
        TE.later := [] |}, w).

(** A node style function that throws at once; the work it had deferred
    calls back afterwards. *)
Definition nodeThrowsThenCalls : TE.NodeFunction unit string nat string nat :=
  fun n w =>
    ({| TE.sync := [];
        TE.completion := JS.Throws "first"%string;
        TE.later := [(None, n)] |}, w).

(** A node style function that returns at once and calls back later. *)
Definition nodeCallsLater : TE.NodeFunction unit string nat string nat :=
  fun n w =>
    ({| TE.sync := [];
        TE.completion := JS.Returns tt;
        TE.later := [(Some "ENOENT"%string, 0); (None, n)] |}, w).

(** A computation that throws when invoked on [2], fails on [4], and
    succeeds elsewhere; every invocation is logged. *)
Definition throwsOnTwo : nat -> TE.TaskEither (list nat) string string nat :=
  Obs.spy Fix.record
    (fun n w =>
       if Nat.eqb n 2 then (JS.Throws "thrown"%string, w)
       else if Nat.eqb n 4 then Obs.settled (E.Left "four"%string) w
       else Obs.settled (E.Right (n * 10)) w).

End Samples.

(* ------------------------------------------------------------------------- *)
(** ** JavaScript functions: callbacks that may throw *)
(* ------------------------------------------------------------------------- *)

(** The functions a caller hands to the module ([f] of [map], [onRejected]
    of [tryCatch], a predicate, the [concat] of a semigroup ...) are
    JavaScript functions: called, they return a value or throw. The modules
    below give the operations of the module with such callbacks; the
    operations of [TE] are the case of callbacks that always return. *)
Module JSF.
Section Functions.

Context {World Reason : Type}.

(** A function of one argument: it returns or throws. *)
Definition Fn (A B : Type) : Type := A -> JS.Completion Reason B.

(** A function of two arguments. *)
Definition Fn2 (A B C : Type) : Type := A -> B -> JS.Completion Reason C.

(** A function that always returns. *)
Definition total {A B} (f : A -> B) : Fn A B := fun a => JS.Returns (f a).

(** The evaluation goes on with [k] when [c] returned, and throws what [c]
    threw otherwise. *)
Definition next {A B} (c : JS.Completion Reason A)
    (k : A -> JS.Completion Reason B) : JS.Completion Reason B :=
  match c with
  | JS.Returns a => k a
  | JS.Throws x => JS.Throws x
  end.

(** The reaction [(a) => f(a)] given to [then]: the value [f] returns
    resolves the derived promise, the exception it throws is thrown by the
    reaction. *)
Definition react {A B} (f : Fn A B)
  : A -> JS.Call World Reason (JS.Promise Reason B) :=
  fun a w =>
    match f a with
    | JS.Returns b => (JS.Returns (JS.Fulfilled b), w)
    | JS.Throws x => (JS.Throws x, w)
    end.

(** A computation obtained by an expression that may throw: the exception
    of the expression is the exception of the invocation. *)
Definition whenReturned {A B} (c : JS.Completion Reason A)
    (k : A -> JS.Call World Reason B) : JS.Call World Reason B :=
  fun w =>
    match c with
    | JS.Returns a => k a w
    | JS.Throws x => (JS.Throws x, w)
    end.

(** Modelled from the spec: the interface [Semigroup], with [concat] a
    JavaScript function. *)
Record Semigroup (A : Type) : Type := { concat : Fn2 A A A }.

(** [interface Monoid<A> extends Semigroup<A> { readonly empty: A }], with
    [concat] a JavaScript function. *)
Record Monoid (A : Type) : Type :=
  { mconcat : Fn2 A A A;
    empty : A }.

Definition toSemigroup {A} (M : Monoid A) : Semigroup A :=
  {| concat := mconcat M |}.

End Functions.

Arguments Fn : clear implicits.
Arguments Fn2 : clear implicits.
Arguments Semigroup : clear implicits.
Arguments Monoid : clear implicits.

End JSF.

(** Either.ts, with callbacks that may throw. *)
Module EJ.
Section EitherJS.

Context {Reason : Type}.

Local Abbreviation Either := E.Either.
Local Abbreviation Completion := (JS.Completion Reason).
Local Abbreviation Fn := (JSF.Fn Reason).

(** Modelled from the spec: [map(f)] transforms the success value, leaving
    failure untouched; it throws when [f] does. *)
Definition map {E A B} (f : Fn A B) : Fn (Either E A) (Either E B) :=
  fun fa =>
    match fa with
    | E.Left e => JS.Returns (E.Left e)
    | E.Right a => JSF.next (f a) (fun b => JS.Returns (E.Right b))
    end.

(** Modelled from the spec: [mapLeft(f)] transforms the failure value. *)
Definition mapLeft {E G A} (f : Fn E G) : Fn (Either E A) (Either G A) :=
  fun fa =>
    match fa with
    | E.Left e => JSF.next (f e) (fun g => JS.Returns (E.Left g))
    | E.Right a => JS.Returns (E.Right a)
    end.

(** Modelled from the spec: [bimap(f, g)] transforms failure and success
    independently. *)
Definition bimap {E G A B} (f : Fn E G) (g : Fn A B)
  : Fn (Either E A) (Either G B) :=
  fun fa =>
    match fa with
    | E.Left e => JSF.next (f e) (fun x => JS.Returns (E.Left x))
    | E.Right a => JSF.next (g a) (fun b => JS.Returns (E.Right b))
    end.

(** Modelled from the spec: [swap] exchanges failure and success. *)
Definition swap {E A} (ma : Either E A) : Either A E :=
  match ma with
  | E.Left e => E.Right e
  | E.Right a => E.Left a
  end.

(** Modelled from the spec: the short-circuiting application; the function
    carried by a success is called on the value carried by the other. *)
Definition ap {E A B} (fab : Either E (Fn A B)) (fa : Either E A)
  : Completion (Either E B) :=
  match fab with
  | E.Left e => JS.Returns (E.Left e)
  | E.Right f =>
      match fa with
      | E.Left e => JS.Returns (E.Left e)
      | E.Right a => JSF.next (f a) (fun b => JS.Returns (E.Right b))
      end
  end.

(** Modelled from the spec: the application of the validation applicative;
    two failures are combined with [S.concat]. *)
Definition apValidation {E A B} (S : JSF.Semigroup Reason E)
    (fab : Either E (Fn A B)) (fa : Either E A) : Completion (Either E B) :=
  match fab with
  | E.Left e1 =>
      match fa with
      | E.Left e2 =>
          JSF.next (JSF.concat S e1 e2) (fun e => JS.Returns (E.Left e))
      | E.Right _ => JS.Returns (E.Left e1)
      end
  | E.Right f =>
      match fa with
      | E.Left e2 => JS.Returns (E.Left e2)
      | E.Right a => JSF.next (f a) (fun b => JS.Returns (E.Right b))
      end
  end.

(** Modelled from the spec: the [concat] of [getSemigroup(S)] returns the
    left-most non-[Left] value; two [Right]s are concatenated with [S]. *)
Definition getSemigroup {E A} (S : JSF.Semigroup Reason A)
  : JSF.Semigroup Reason (Either E A) :=
  {| JSF.concat := fun x y =>
       match y with
       | E.Left _ => JS.Returns x
       | E.Right b =>
           match x with
           | E.Left _ => JS.Returns y
           | E.Right a =>
               JSF.next (JSF.concat S a b) (fun c => JS.Returns (E.Right c))
           end
       end |}.

(** Modelled from the spec: the [concat] of [getApplySemigroup(S)] returns
    the left-most [Left] value; two [Right]s are concatenated with [S]. *)
Definition getApplySemigroup {E A} (S : JSF.Semigroup Reason A)
  : JSF.Semigroup Reason (Either E A) :=
  {| JSF.concat := fun x y =>
       match x with
       | E.Left _ => JS.Returns x
       | E.Right a =>
           match y with
           | E.Left _ => JS.Returns y
           | E.Right b =>
               JSF.next (JSF.concat S a b) (fun c => JS.Returns (E.Right c))
           end
       end |}.

(** Modelled from the spec: [getLeft] and [getRight] keep one side of an
    [Either] as an [Option]. *)
Definition getLeft {A B} (ma : Either A B) : option A :=
  match ma with
  | E.Left a => Some a
  | E.Right _ => None
  end.

Definition getRight {A B} (ma : Either A B) : option B :=
  match ma with
  | E.Left _ => None
  | E.Right b => Some b
  end.

(** Modelled from the spec: the [compact] of [getCompactable(M)]: a success
    carrying [None] becomes the failure [M.empty]. *)
Definition compact {E A} (M : JSF.Monoid Reason E) (ma : Either E (option A))
  : Either E A :=
  match ma with
  | E.Left e => E.Left e
  | E.Right None => E.Left (JSF.empty M)
  | E.Right (Some a) => E.Right a
  end.

(** Modelled from the spec: the [filter] of [getFilterable(M)]: a success
    that fails the predicate becomes the failure [M.empty]. *)
Definition filter {E A} (M : JSF.Monoid Reason E) (predicate : Fn A bool)
  : Fn (Either E A) (Either E A) :=
  fun ma =>
    match ma with
    | E.Left e => JS.Returns (E.Left e)
    | E.Right a =>
        JSF.next (predicate a)
          (fun keep => JS.Returns (if keep then E.Right a
                                   else E.Left (JSF.empty M)))
    end.

(** Modelled from the spec: the [filterMap] of [getFilterable(M)]. *)
Definition filterMap {E A B} (M : JSF.Monoid Reason E) (f : Fn A (option B))
  : Fn (Either E A) (Either E B) :=
  fun ma =>
    match ma with
    | E.Left e => JS.Returns (E.Left e)
    | E.Right a =>
        JSF.next (f a)
          (fun ob => JS.Returns match ob with
                                | None => E.Left (JSF.empty M)
                                | Some b => E.Right b
                                end)
    end.

End EitherJS.
End EJ.

(** Task.ts, with callbacks that may throw. *)
Module TJ.
Section TaskJS.

Context {World Reason : Type}.

Local Abbreviation Task := (T.Task World Reason).
Local Abbreviation Fn := (JSF.Fn Reason).

(** Modelled from the spec: [IO.ts] is not among the sources; an [IO] is a
    synchronous computation [() => A]. *)
Definition IO (A : Type) : Type := JS.Call World Reason A.

(** Modelled from the spec: [fromIO(ma)] is [() => Promise.resolve(ma())]. *)
Definition fromIO {A} (ma : IO A) : Task A :=
  fun w =>
    match ma w with
    | (JS.Returns a, w') => (JS.Returns (JS.Fulfilled a), w')
    | (JS.Throws x, w') => (JS.Throws x, w')
    end.

(** Modelled from the spec: [map(f)(fa)] is [() => fa().then(f)]. *)
Definition map {A B} (f : Fn A B) (fa : Task A) : Task B :=
  JS.andThen fa (fun p => JS.then1 p (JSF.react f)).

(** Modelled from the spec: the parallel [ap(fa)(fab)] is
    [() => Promise.all([fab(), fa()]).then(([f, a]) => f(a))]. *)
Definition ap {A B} (fa : Task A) (fab : Task (Fn A B)) : Task B :=
  fun w =>
    match fab w with
    | (JS.Throws x, w1) => (JS.Throws x, w1)
    | (JS.Returns pf, w1) =>
        JS.andThen fa
          (fun pa => JS.then1 (JS.all2 pf pa)
                       (JSF.react (fun fx => fst fx (snd fx)))) w1
    end.

(** Modelled from the spec: the sequential application runs the function
    computation, then the value computation. *)
Definition apSeq {A B} (fa : Task A) (fab : Task (Fn A B)) : Task B :=
  T.chain (fun f => map f fa) fab.

(** Modelled from the spec: the [concat] of [getSemigroup(S)] runs [x], then
    [y], and concatenates their values:
    [() => x().then((rx) => y().then((ry) => S.concat(rx, ry)))]. *)
Definition getSemigroup {A} (S : JSF.Semigroup Reason A) (x y : Task A)
  : Task A :=
  JS.andThen x
    (fun px => JS.then1 px
       (fun rx => JS.andThen y
          (fun py => JS.then1 py (JSF.react (JSF.concat S rx))))).

(** Modelled from the spec: the two [Apply] instances of [Task]: the [map]
    and the [ap] an instance gives, data first. *)
Inductive Apply : Type := ApplyPar | ApplySeq.

Definition Apply_map (F : Apply) {A B} (fa : Task A) (f : Fn A B) : Task B :=
  map f fa.

Definition Apply_ap (F : Apply) {A B} (fab : Task (Fn A B)) (fa : Task A)
  : Task B :=
  match F with
  | ApplyPar => ap fa fab
  | ApplySeq => apSeq fa fab
  end.

End TaskJS.

Arguments IO : clear implicits.

End TJ.

(* ------------------------------------------------------------------------- *)
(** ** TaskEither.ts in full, with callbacks that may throw *)
(* ------------------------------------------------------------------------- *)

(** Every operation of TaskEither.ts that yields a computation. The ones
    that take no callback are those of [TE]; the others are written again
    with their callbacks as JavaScript functions. The less strict variants
    ([chainW], [apW], [altW], [getOrElseW], [filterOrElseW],
    [chainEitherKW], [chainIOEitherKW], [chainFirstW], [bindW], [apSW]) are
    the same functions under a wider type. An exception thrown by the
    expression that builds a computation ([fromEitherK(f)(a)] when [f]
    throws) is counted as thrown by its invocation. *)
Module TaskEither.
Section Operations.

Context {World Reason : Type}.

Local Abbreviation Task := (T.Task World Reason).
Local Abbreviation Either := E.Either.
Local Abbreviation Fn := (JSF.Fn Reason).
Local Abbreviation IO := (TJ.IO World Reason).

Definition TaskEither (E A : Type) : Type := Task (Either E A).

(** Modelled from the spec: [IOEither.ts] is not among the sources;
    [IOEither<E, A>] is [IO<Either<E, A>>]. *)
Definition IOEither (E A : Type) : Type := IO (Either E A).

(** *** constructors *)

Definition left {E A} : E -> TaskEither E A := TE.left.

Definition right {E A} : A -> TaskEither E A := TE.right.

Definition rightTask {E A} : Task A -> TaskEither E A := TE.rightTask.

Definition leftTask {E A} : Task E -> TaskEither E A := TE.leftTask.

Definition rightIO {E A} : IO A -> TaskEither E A :=
  function.flow TJ.fromIO rightTask.

Definition leftIO {E A} : IO E -> TaskEither E A :=
  function.flow TJ.fromIO leftTask.

Definition fromIOEither {E A} : IOEither E A -> TaskEither E A := TJ.fromIO.

Definition fromEither {E A} : Either E A -> TaskEither E A := TE.fromEither.

Definition fromOption {E A} (onNone : Fn unit E) (ma : option A)
  : TaskEither E A :=
  match ma with
  | None => JSF.whenReturned (onNone tt) left
  | Some value => right value
  end.

Definition fromPredicate {E A} (predicate : Fn A bool) (onFalse : Fn A E)
    (a : A) : TaskEither E A :=
  JSF.whenReturned (predicate a)
    (fun holds =>
       if holds then right a else JSF.whenReturned (onFalse a) left).

Definition tryCatch {E A} (f : JS.Call World Reason (JS.Promise Reason A))
    (onRejected : Fn Reason E) : TaskEither E A :=
  JS.andThen f
    (fun p => JS.then2 p (JS.value (@E.Right E A))
                (JSF.react
                   (fun reason =>
                      JSF.next (onRejected reason)
                        (fun e => JS.Returns (E.Left e))))).

(** *** destructors *)

(** [fold] is [ET.fold_(T.Monad)]: the computation is run and one of the
    two handlers is run on its result. *)
Definition fold {E A B} (onLeft : E -> Task B) (onRight : A -> Task B)
    (ma : TaskEither E A) : Task B :=
  T.chain (fun e => match e with
                    | E.Left l => onLeft l
                    | E.Right a => onRight a
                    end) ma.

(** [getOrElse] is [ET.getOrElse_(T.Monad)]. *)
Definition getOrElse {E A} (onLeft : E -> Task A) (ma : TaskEither E A)
  : Task A :=
  T.chain (fun e => match e with
                    | E.Left l => onLeft l
                    | E.Right a => T.of_ a
                    end) ma.

(** *** combinators *)

Definition orElse {E A M} : (E -> TaskEither M A) -> TaskEither E A ->
                            TaskEither M A :=
  TE.orElse.

(** [swap] is [ET.swap_(T.Functor)]. *)
Definition swap {E A} (ma : TaskEither E A) : TaskEither A E :=
  T.map EJ.swap ma.

Definition chain {E A B} : (A -> TaskEither E B) -> TaskEither E A ->
                           TaskEither E B :=
  TE.chain.

Definition filterOrElse {E A} (predicate : Fn A bool) (onFalse : Fn A E)
  : TaskEither E A -> TaskEither E A :=
  chain (fun a =>
           JSF.whenReturned (predicate a)
             (fun holds =>
                if holds then right a else JSF.whenReturned (onFalse a) left)).

Definition tryCatchK {E A B}
    (f : A -> JS.Call World Reason (JS.Promise Reason B))
    (onRejected : Fn Reason E) : A -> TaskEither E B :=
  fun a => tryCatch (f a) onRejected.

Definition fromEitherK {E A B} (f : Fn A (Either E B)) : A -> TaskEither E B :=
  fun a => JSF.whenReturned (f a) fromEither.

Definition fromIOEitherK {E A B} (f : A -> IOEither E B)
  : A -> TaskEither E B :=
  fun a => fromIOEither (f a).

Definition chainEitherK {E A B} (f : Fn A (Either E B))
  : TaskEither E A -> TaskEither E B :=
  chain (fromEitherK f).

Definition chainIOEitherK {E A B} (f : A -> IOEither E B)
  : TaskEither E A -> TaskEither E B :=
  chain (fromIOEitherK f).

(** *** pipeables *)

(** [map] is [ET.map_(T.Functor)], [bimap] and [mapLeft] likewise. *)
Definition map {E A B} (f : Fn A B) (fa : TaskEither E A) : TaskEither E B :=
  TJ.map (EJ.map f) fa.

Definition bimap {E G A B} (f : Fn E G) (g : Fn A B) (fa : TaskEither E A)
  : TaskEither G B :=
  TJ.map (EJ.bimap f g) fa.

Definition mapLeft {E G A} (f : Fn E G) (fa : TaskEither E A)
  : TaskEither G A :=
  TJ.map (EJ.mapLeft f) fa.

(** [ap] is [ET.ap_(T.ApplyPar)]: the application of [Either] is mapped
    over the function computation and applied, in parallel, to the value
    computation. *)
Definition ap {E A B} (fa : TaskEither E A) (fab : TaskEither E (Fn A B))
  : TaskEither E B :=
  TJ.ap fa (TJ.map (JSF.total (fun gab => fun ga => EJ.ap gab ga)) fab).

Definition flatten {E A} : TaskEither E (TaskEither E A) -> TaskEither E A :=
  chain function.identity.

Definition alt {E A} : (unit -> TaskEither E A) -> TaskEither E A ->
                       TaskEither E A :=
  TE.alt.

Definition of_ {E A} : A -> TaskEither E A := right.

Definition fromIO {E A} : IO A -> TaskEither E A := rightIO.

Definition fromTask {E A} : Task A -> TaskEither E A := rightTask.

Definition throwError {E A} : E -> TaskEither E A := left.

(** *** non-pipeables *)

Definition _map {E A B} (fa : TaskEither E A) (f : Fn A B) : TaskEither E B :=
  function.pipe fa (map f).

Definition _bimap {E G A B} (fa : TaskEither E A) (f : Fn E G) (g : Fn A B)
  : TaskEither G B :=
  function.pipe fa (bimap f g).

Definition _mapLeft {E G A} (fa : TaskEither E A) (f : Fn E G)
  : TaskEither G A :=
  function.pipe fa (mapLeft f).

Definition _apPar {E A B} (fab : TaskEither E (Fn A B)) (fa : TaskEither E A)
  : TaskEither E B :=
  function.pipe fab (ap fa).

Definition _apSeq {E A B} (fab : TaskEither E (Fn A B)) (fa : TaskEither E A)
  : TaskEither E B :=
  function.pipe fab (chain (fun f => function.pipe fa (map f))).

Definition _chain {E A B} (ma : TaskEither E A) (f : A -> TaskEither E B)
  : TaskEither E B :=
  function.pipe ma (chain f).

Definition _alt {E A} (fa : TaskEither E A) (that : unit -> TaskEither E A)
  : TaskEither E A :=
  function.pipe fa (alt that).

(** *** instances *)

(** [getSemigroup(S)] is [T.getSemigroup(E.getSemigroup(S))]. *)
Definition getSemigroup {E A} (S : JSF.Semigroup Reason A)
  : Semigroup.Semigroup (TaskEither E A) :=
  {| Semigroup.concat := TJ.getSemigroup (EJ.getSemigroup S) |}.

(** [getApplySemigroup(S)] is [T.getSemigroup(E.getApplySemigroup(S))]. *)
Definition getApplySemigroup {E A} (S : JSF.Semigroup Reason A)
  : Semigroup.Semigroup (TaskEither E A) :=
  {| Semigroup.concat := TJ.getSemigroup (EJ.getApplySemigroup S) |}.

Definition getApplyMonoid {E A} (M : JSF.Monoid Reason A)
  : Monoid.Monoid (TaskEither E A) :=
  {| Monoid.concat :=
       Semigroup.concat (getApplySemigroup (JSF.toSemigroup M));
     Monoid.empty := right (JSF.empty M) |}.

(** The [ap] of [getApplicativeTaskValidation(A, S)], which is
    [ap_(A, E.getApplicativeValidation(S))] with the arguments exchanged;
    its [map] is [_map] and its [of] is [of]. *)
Definition getApplicativeTaskValidation_ap {E X Y} (A : TJ.Apply)
    (S : JSF.Semigroup Reason E) (fab : TaskEither E (Fn X Y))
    (fa : TaskEither E X) : TaskEither E Y :=
  let ap := fun fa fab =>
    TJ.Apply_ap A
      (TJ.Apply_map A fab
         (JSF.total (fun gab => fun ga => EJ.apValidation S gab ga))) fa in
  function.pipe fab (ap fa).

(** The [alt] of [getAltTaskValidation(S)], which is
    [ET.altValidation_(T.Monad, S)] with the arguments exchanged; its [map]
    is [_map]. *)
Definition getAltTaskValidation_alt {E A} (S : JSF.Semigroup Reason E)
    (fa : TaskEither E A) (that : unit -> TaskEither E A) : TaskEither E A :=
  let alt := fun second first =>
    T.chain
      (fun e => match e with
                | E.Left e1 =>
                    TJ.map (EJ.mapLeft (fun e2 => JSF.concat S e1 e2))
                      (second tt)
                | E.Right a => T.of_ (E.Right a)
                end) first in
  function.pipe fa (alt that).

(** The members of [getTaskValidation(SE)] are [_map], the [ap] of
    [getApplicativeTaskValidation(T.ApplicativePar, SE)], [of], [_chain],
    [_bimap], [_mapLeft], the [alt] of [getAltTaskValidation(SE)],
    [fromIO], [fromTask] and [throwError]. *)
Definition getTaskValidation_ap {E X Y} (SE : JSF.Semigroup Reason E)
  : TaskEither E (Fn X Y) -> TaskEither E X -> TaskEither E Y :=
  getApplicativeTaskValidation_ap TJ.ApplyPar SE.

Definition getTaskValidation_alt {E A} (SE : JSF.Semigroup Reason E)
  : TaskEither E A -> (unit -> TaskEither E A) -> TaskEither E A :=
  getAltTaskValidation_alt SE.

(** The members of [getCompactable(M)]: [compact] is
    [compact_(T.Functor, C)] and [separate] is [separate_(T.Functor, C)],
    the two sides of an [Either] compacted apart. *)
Definition getCompactable_compact {E A} (M : JSF.Monoid Reason E)
    (fa : TaskEither E (option A)) : TaskEither E A :=
  T.map (EJ.compact M) fa.

Definition getCompactable_separate {E A B} (M : JSF.Monoid Reason E)
    (fe : TaskEither E (Either A B)) : TaskEither E A * TaskEither E B :=
  (getCompactable_compact M (T.map (E.map EJ.getLeft) fe),
   getCompactable_compact M (T.map (E.map EJ.getRight) fe)).

(** The members of [getFilterable(M)] beside [_map], [compact] and
    [separate]. *)
Definition getFilterable_filter {E A} (M : JSF.Monoid Reason E)
    (fa : TaskEither E A) (predicate : Fn A bool) : TaskEither E A :=
  function.pipe fa (TJ.map (EJ.filter M predicate)).

Definition getFilterable_filterMap {E A B} (M : JSF.Monoid Reason E)
    (fa : TaskEither E A) (f : Fn A (option B)) : TaskEither E B :=
  function.pipe fa (TJ.map (EJ.filterMap M f)).

Definition getFilterable_partition {E A} (M : JSF.Monoid Reason E)
    (fa : TaskEither E A) (predicate : Fn A bool)
  : TaskEither E A * TaskEither E A :=
  (getFilterable_filter M fa
     (fun a => JSF.next (predicate a) (fun b => JS.Returns (negb b))),
   getFilterable_filter M fa predicate).

Definition getFilterable_partitionMap {E A B C} (M : JSF.Monoid Reason E)
    (fa : TaskEither E A) (f : Fn A (Either B C))
  : TaskEither E B * TaskEither E C :=
  (getFilterable_filterMap M fa
     (fun a => JSF.next (f a) (fun e => JS.Returns (EJ.getLeft e))),
   getFilterable_filterMap M fa
     (fun a => JSF.next (f a) (fun e => JS.Returns (EJ.getRight e)))).

(** [apFirst] is [apFirst_(ApplyPar)], [apSecond] is [apSecond_(ApplyPar)]
    and [chainFirst] is [chainFirst_(Monad)]. *)
Definition apFirst {E A B} (second : TaskEither E B) (first : TaskEither E A)
  : TaskEither E A :=
  _apPar (_map first (JSF.total (fun a => JSF.total (fun _ : B => a)))) second.

Definition apSecond {E A B} (second : TaskEither E B) (first : TaskEither E A)
  : TaskEither E B :=
  _apPar (_map first (JSF.total (fun _ => JSF.total (fun b : B => b)))) second.

Definition chainFirst {E A B} (f : A -> TaskEither E B)
    (first : TaskEither E A) : TaskEither E A :=
  _chain first (fun a => _map (f a) (JSF.total (fun _ => a))).

(** *** utils *)

Definition taskify {Args L R} : TE.NodeFunction World Reason Args L R ->
                                Args -> TaskEither L R :=
  TE.taskify.

Definition bracket {E A B} : TaskEither E A -> (A -> TaskEither E B) ->
                             (A -> Either E B -> TaskEither E unit) ->
                             TaskEither E B :=
  TE.bracket.

(** *** do notation *)

(** [Do] is [of({})]; [bindTo], [bind] and [apS] are [bindTo_(Functor)],
    [bind_(Monad)] and [apS_(ApplyPar)]. The object they build from the
    name and the values, [{ [name]: a }] or [{ ...a, [name]: b }], is given
    by [assign]. *)
Definition Do {E} : TaskEither E unit := of_ tt.

Definition bindTo {E A O} (assign : A -> O) (fa : TaskEither E A)
  : TaskEither E O :=
  _map fa (JSF.total assign).

Definition bind {E A B O} (assign : A -> B -> O) (f : A -> TaskEither E B)
    (ma : TaskEither E A) : TaskEither E O :=
  _chain ma (fun a => _map (f a) (JSF.total (fun b => assign a b))).

Definition apS {E A B O} (assign : A -> B -> O) (fb : TaskEither E B)
    (fa : TaskEither E A) : TaskEither E O :=
  _apPar (_map fa (JSF.total (fun a => JSF.total (fun b => assign a b)))) fb.

(** *** array utils *)

Definition traverseArrayWithIndex {A B E}
  : (nat -> A -> TaskEither E B) -> list A -> TaskEither E (list B) :=
  TE.traverseArrayWithIndex.

Definition traverseArray {A B E}
  : (A -> TaskEither E B) -> list A -> TaskEither E (list B) :=
  TE.traverseArray.

Definition sequenceArray {A E}
  : list (TaskEither E A) -> TaskEither E (list A) :=
  TE.sequenceArray.

Definition traverseSeqArrayWithIndex {A B E}
  : (nat -> A -> TaskEither E B) -> list A -> TaskEither E (list B) :=
  TE.traverseSeqArrayWithIndex.

Definition traverseSeqArray {A B E}
  : (A -> TaskEither E B) -> list A -> TaskEither E (list B) :=
  TE.traverseSeqArray.

Definition sequenceSeqArray {A E}
  : list (TaskEither E A) -> TaskEither E (list A) :=
  TE.sequenceSeqArray.

End Operations.

Arguments TaskEither : clear implicits.
Arguments IOEither : clear implicits.

End TaskEither.

(* ------------------------------------------------------------------------- *)
(** ** What the module is built from, and what is asked of it *)
(* ------------------------------------------------------------------------- *)

Module Capture.
Section Built.

Context {World Reason : Type}.

Local Abbreviation Task := (T.Task World Reason).
Local Abbreviation TaskEither := (TaskEither.TaskEither World Reason).
Local Abbreviation Either := E.Either.
Local Abbreviation Fn := (JSF.Fn Reason).
Local Abbreviation Fn2 := (JSF.Fn2 Reason).
Local Abbreviation IO := (TJ.IO World Reason).

(** The evaluation returned (it did not throw). *)
Definition returns {A} (c : JS.Completion Reason A) : Prop :=
  exists a, c = JS.Returns a.

(** The computation [t] can settle to [x]. *)
Definition yields {X} (t : Task X) (x : X) : Prop :=
  exists w w', t w = Obs.settled x w'.

(** The promise an invocation of [t] returns is pending or fulfilled; for
    an AsyncResult it is fulfilled with an [Either], so that a failure
    shows as a [Left] and as nothing else. *)
Definition captured {X} (t : Task X) : Prop :=
  forall w, exists w',
    t w = (JS.Returns JS.Pending, w') \/ exists x, t w = Obs.settled x w'.

(** What is asked of what a caller hands to the module: the callbacks of
    one and of two arguments, the promise-returning operations given to
    [tryCatch], the synchronous computations ([IO]), the node style
    functions given to [taskify] (with their arguments), and the tasks. *)
Record Contract : Type :=
  { fnOk : forall A B : Type, Fn A B -> Prop;
    fn2Ok : forall A B C : Type, Fn2 A B C -> Prop;
    lazyOk : forall X : Type, JS.Call World Reason (JS.Promise Reason X) -> Prop;
    ioOk : forall X : Type, IO X -> Prop;
    nodeOk : forall Args L R : Type,
        TE.NodeFunction World Reason Args L R -> Args -> Prop;
    taskOk : forall X : Type, Task X -> Prop }.

(** Nothing is asked. *)
Definition anyOperation : Contract :=
  {| fnOk := fun _ _ _ => True;
     fn2Ok := fun _ _ _ _ => True;
     lazyOk := fun _ _ => True;
     ioOk := fun _ _ => True;
     nodeOk := fun _ _ _ _ _ => True;
     taskOk := fun _ _ => True |}.

(** Nothing handed to the module throws: a callback returns on every
    argument, the operation given to [tryCatch] returns its promise, an
    [IO] returns, a node style function does not throw before its first
    call to the callback; and a [Task] never fails. *)
Definition noThrow : Contract :=
  {| fnOk := fun _ _ f => forall a, returns (f a);
     fn2Ok := fun _ _ _ f => forall a b, returns (f a b);
     lazyOk := fun _ f => Obs.neverThrows f;
     ioOk := fun _ io => Obs.neverThrows io;
     nodeOk := fun _ _ _ f args =>
       forall w, returns (TE.completion (fst (f args w)))
                 \/ TE.sync (fst (f args w)) <> [];
     taskOk := fun _ t => Obs.neverEscapes t |}.

(** The computations built from the operations of TaskEither.ts, out of
    things that meet the contract [C]. There is a rule for each operation
    that yields a computation; the non-pipeable members ([_map] ...), the
    aliases ([of], [fromIO], [fromTask], [throwError]) and the less strict
    variants are these operations under another name, and the instance
    records hold them. *)
Inductive Built (C : Contract) : forall X : Type, Task X -> Prop :=
| Built_left : forall E A (e : E), Built C (@TaskEither.left _ _ E A e)
| Built_right : forall E A (a : A), Built C (@TaskEither.right _ _ E A a)
| Built_rightTask : forall E A (ma : Task A),
    taskOk C ma -> Built C (@TaskEither.rightTask _ _ E A ma)
| Built_leftTask : forall E A (me : Task E),
    taskOk C me -> Built C (@TaskEither.leftTask _ _ E A me)
| Built_rightIO : forall E A (ma : IO A),
    ioOk C ma -> Built C (@TaskEither.rightIO _ _ E A ma)
| Built_leftIO : forall E A (me : IO E),
    ioOk C me -> Built C (@TaskEither.leftIO _ _ E A me)
| Built_fromIOEither : forall E A (fa : TaskEither.IOEither World Reason E A),
    ioOk C fa -> Built C (TaskEither.fromIOEither fa)
| Built_fromEither : forall E A (ma : Either E A),
    Built C (@TaskEither.fromEither World Reason E A ma)
| Built_fromOption : forall E A (onNone : Fn unit E) (ma : option A),
    fnOk C onNone -> Built C (@TaskEither.fromOption World Reason E A onNone ma)
| Built_fromPredicate : forall E A (predicate : Fn A bool) (onFalse : Fn A E) a,
    fnOk C predicate -> fnOk C onFalse ->
    Built C (@TaskEither.fromPredicate World Reason E A predicate onFalse a)
| Built_tryCatch : forall E A (f : JS.Call World Reason (JS.Promise Reason A))
                          (onRejected : Fn Reason E),
    lazyOk C f -> fnOk C onRejected ->
    Built C (TaskEither.tryCatch f onRejected)
| Built_fold : forall E A B (onLeft : E -> Task B) (onRight : A -> Task B)
                      (ma : TaskEither E A),
    Built C ma -> (forall e, Built C (onLeft e)) ->
    (forall a, Built C (onRight a)) ->
    Built C (TaskEither.fold onLeft onRight ma)
| Built_getOrElse : forall E A (onLeft : E -> Task A) (ma : TaskEither E A),
    Built C ma -> (forall e, Built C (onLeft e)) ->
    Built C (TaskEither.getOrElse onLeft ma)
| Built_orElse : forall E A M (onLeft : E -> TaskEither M A)
                        (ma : TaskEither E A),
    Built C ma -> (forall e, Built C (onLeft e)) ->
    Built C (TaskEither.orElse onLeft ma)
| Built_swap : forall E A (ma : TaskEither E A),
    Built C ma -> Built C (TaskEither.swap ma)
| Built_filterOrElse : forall E A (predicate : Fn A bool) (onFalse : Fn A E)
                              (ma : TaskEither E A),
    fnOk C predicate -> fnOk C onFalse -> Built C ma ->
    Built C (TaskEither.filterOrElse predicate onFalse ma)
| Built_tryCatchK : forall E A B
                           (f : A -> JS.Call World Reason (JS.Promise Reason B))
                           (onRejected : Fn Reason E) (a : A),
    lazyOk C (f a) -> fnOk C onRejected ->
    Built C (TaskEither.tryCatchK f onRejected a)
| Built_fromEitherK : forall E A B (f : Fn A (Either E B)) (a : A),
    fnOk C f -> Built C (@TaskEither.fromEitherK World Reason E A B f a)
| Built_fromIOEitherK : forall E A B
                               (f : A -> TaskEither.IOEither World Reason E B)
                               (a : A),
    ioOk C (f a) -> Built C (TaskEither.fromIOEitherK f a)
| Built_chainEitherK : forall E A B (f : Fn A (Either E B))
                              (ma : TaskEither E A),
    fnOk C f -> Built C ma -> Built C (TaskEither.chainEitherK f ma)
| Built_chainIOEitherK : forall E A B
                                (f : A -> TaskEither.IOEither World Reason E B)
                                (ma : TaskEither E A),
    (forall a, ioOk C (f a)) -> Built C ma ->
    Built C (TaskEither.chainIOEitherK f ma)
| Built_map : forall E A B (f : Fn A B) (fa : TaskEither E A),
    fnOk C f -> Built C fa -> Built C (TaskEither.map f fa)
| Built_bimap : forall E G A B (f : Fn E G) (g : Fn A B) (fa : TaskEither E A),
    fnOk C f -> fnOk C g -> Built C fa -> Built C (TaskEither.bimap f g fa)
| Built_mapLeft : forall E G A (f : Fn E G) (fa : TaskEither E A),
    fnOk C f -> Built C fa -> Built C (TaskEither.mapLeft f fa)
| Built_ap : forall E A B (fa : TaskEither E A) (fab : TaskEither E (Fn A B)),
    Built C fa -> Built C fab ->
    (forall f, yields fab (E.Right f) -> fnOk C f) ->
    Built C (TaskEither.ap fa fab)
| Built_apSeq : forall E A B (fab : TaskEither E (Fn A B)) (fa : TaskEither E A),
    Built C fab -> Built C fa ->
    (forall f, yields fab (E.Right f) -> fnOk C f) ->
    Built C (TaskEither._apSeq fab fa)
| Built_chain : forall E A B (f : A -> TaskEither E B) (ma : TaskEither E A),
    Built C ma -> (forall a, Built C (f a)) -> Built C (TaskEither.chain f ma)
| Built_flatten : forall E A (mma : TaskEither E (TaskEither E A)),
    Built C mma -> (forall m, yields mma (E.Right m) -> Built C m) ->
    Built C (TaskEither.flatten mma)
| Built_alt : forall E A (that : unit -> TaskEither E A) (fa : TaskEither E A),
    Built C fa -> Built C (that tt) -> Built C (TaskEither.alt that fa)
| Built_getSemigroup : forall E A (S : JSF.Semigroup Reason A)
                              (x y : TaskEither E A),
    fn2Ok C (JSF.concat S) -> Built C x -> Built C y ->
    Built C (Semigroup.concat (TaskEither.getSemigroup S) x y)
| Built_getApplySemigroup : forall E A (S : JSF.Semigroup Reason A)
                                   (x y : TaskEither E A),
    fn2Ok C (JSF.concat S) -> Built C x -> Built C y ->
    Built C (Semigroup.concat (TaskEither.getApplySemigroup S) x y)
| Built_getApplyMonoid_concat : forall E A (M : JSF.Monoid Reason A)
                                       (x y : TaskEither E A),
    fn2Ok C (JSF.mconcat M) -> Built C x -> Built C y ->
    Built C (Monoid.concat (TaskEither.getApplyMonoid M) x y)
| Built_getApplyMonoid_empty : forall E A (M : JSF.Monoid Reason A),
    Built C (Monoid.empty (@TaskEither.getApplyMonoid World Reason E A M))
| Built_validation_ap : forall E X Y (A : TJ.Apply) (S : JSF.Semigroup Reason E)
                               (fab : TaskEither E (Fn X Y))
                               (fa : TaskEither E X),
    fn2Ok C (JSF.concat S) -> Built C fab -> Built C fa ->
    (forall f, yields fab (E.Right f) -> fnOk C f) ->
    Built C (TaskEither.getApplicativeTaskValidation_ap A S fab fa)
| Built_validation_alt : forall E A (S : JSF.Semigroup Reason E)
                                (fa : TaskEither E A)
                                (that : unit -> TaskEither E A),
    fn2Ok C (JSF.concat S) -> Built C fa -> Built C (that tt) ->
    Built C (TaskEither.getAltTaskValidation_alt S fa that)
| Built_compact : forall E A (M : JSF.Monoid Reason E)
                         (fa : TaskEither E (option A)),
    Built C fa -> Built C (TaskEither.getCompactable_compact M fa)
| Built_separate_left : forall E A B (M : JSF.Monoid Reason E)
                               (fe : TaskEither E (Either A B)),
    Built C fe -> Built C (fst (TaskEither.getCompactable_separate M fe))
| Built_separate_right : forall E A B (M : JSF.Monoid Reason E)
                                (fe : TaskEither E (Either A B)),
    Built C fe -> Built C (snd (TaskEither.getCompactable_separate M fe))
| Built_filter : forall E A (M : JSF.Monoid Reason E) (fa : TaskEither E A)
                        (predicate : Fn A bool),
    fnOk C predicate -> Built C fa ->
    Built C (TaskEither.getFilterable_filter M fa predicate)
| Built_filterMap : forall E A B (M : JSF.Monoid Reason E)
                           (fa : TaskEither E A) (f : Fn A (option B)),
    fnOk C f -> Built C fa ->
    Built C (TaskEither.getFilterable_filterMap M fa f)
| Built_partition_left : forall E A (M : JSF.Monoid Reason E)
                                (fa : TaskEither E A) (predicate : Fn A bool),
    fnOk C predicate -> Built C fa ->
    Built C (fst (TaskEither.getFilterable_partition M fa predicate))
| Built_partition_right : forall E A (M : JSF.Monoid Reason E)
                                 (fa : TaskEither E A) (predicate : Fn A bool),
    fnOk C predicate -> Built C fa ->
    Built C (snd (TaskEither.getFilterable_partition M fa predicate))
| Built_partitionMap_left : forall E A B D (M : JSF.Monoid Reason E)
                                   (fa : TaskEither E A)
                                   (f : Fn A (Either B D)),
    fnOk C f -> Built C fa ->
    Built C (fst (TaskEither.getFilterable_partitionMap M fa f))
| Built_partitionMap_right : forall E A B D (M : JSF.Monoid Reason E)
                                    (fa : TaskEither E A)
                                    (f : Fn A (Either B D)),
    fnOk C f -> Built C fa ->
    Built C (snd (TaskEither.getFilterable_partitionMap M fa f))
| Built_apFirst : forall E A B (second : TaskEither E B) (first : TaskEither E A),
    Built C second -> Built C first ->
    Built C (TaskEither.apFirst second first)
| Built_apSecond : forall E A B (second : TaskEither E B)
                          (first : TaskEither E A),
    Built C second -> Built C first ->
    Built C (TaskEither.apSecond second first)
| Built_chainFirst : forall E A B (f : A -> TaskEither E B)
                            (first : TaskEither E A),
    Built C first -> (forall a, Built C (f a)) ->
    Built C (TaskEither.chainFirst f first)
| Built_taskify : forall Args L R (f : TE.NodeFunction World Reason Args L R)
                         (args : Args),
    nodeOk C f args -> Built C (TaskEither.taskify f args)
| Built_bracket : forall E A B (acquire : TaskEither E A)
                         (use : A -> TaskEither E B)
                         (release : A -> Either E B -> TaskEither E unit),
    Built C acquire -> (forall a, Built C (use a)) ->
    (forall a e, Built C (release a e)) ->
    Built C (TaskEither.bracket acquire use release)
| Built_Do : forall E, Built C (@TaskEither.Do World Reason E)
| Built_bindTo : forall E A O (assign : A -> O) (fa : TaskEither E A),
    Built C fa -> Built C (TaskEither.bindTo assign fa)
| Built_bind : forall E A B O (assign : A -> B -> O) (f : A -> TaskEither E B)
                      (ma : TaskEither E A),
    Built C ma -> (forall a, Built C (f a)) ->
    Built C (TaskEither.bind assign f ma)
| Built_apS : forall E A B O (assign : A -> B -> O) (fb : TaskEither E B)
                     (fa : TaskEither E A),
    Built C fb -> Built C fa -> Built C (TaskEither.apS assign fb fa)
| Built_traverseArrayWithIndex : forall A B E (f : nat -> A -> TaskEither E B)
                                        (arr : list A),
    (forall i a, In a arr -> Built C (f i a)) ->
    Built C (TaskEither.traverseArrayWithIndex f arr)
| Built_traverseArray : forall A B E (f : A -> TaskEither E B) (arr : list A),
    (forall a, In a arr -> Built C (f a)) ->
    Built C (TaskEither.traverseArray f arr)
| Built_sequenceArray : forall A E (arr : list (TaskEither E A)),
    (forall t, In t arr -> Built C t) ->
    Built C (TaskEither.sequenceArray arr)
| Built_traverseSeqArrayWithIndex : forall A B E
                                           (f : nat -> A -> TaskEither E B)
                                           (arr : list A),
    (forall i a, In a arr -> Built C (f i a)) ->
    Built C (TaskEither.traverseSeqArrayWithIndex f arr)
| Built_traverseSeqArray : forall A B E (f : A -> TaskEither E B)
                                  (arr : list A),
    (forall a, In a arr -> Built C (f a)) ->
    Built C (TaskEither.traverseSeqArray f arr)
| Built_sequenceSeqArray : forall A E (arr : list (TaskEither E A)),
    (forall t, In t arr -> Built C t) ->
    Built C (TaskEither.sequenceSeqArray arr).

End Built.
End Capture.

(** Callbacks and computations for the examples of what escapes. *)
Module Escapes.

Local Open Scope string_scope.

(** [() => { throw 'boom' }] as a callback on numbers. *)
Definition thrower : JSF.Fn string nat nat := fun _ => JS.Throws "boom".

(** [(r) => { throw r }]. *)
Definition rethrower : JSF.Fn string string string := fun r => JS.Throws r.

(** [String], a callback that always returns. *)
Definition String : JSF.Fn string string string := JSF.total Fix.String.

(** [pipe(right(1), map(() => { throw 'boom' }))]. *)
Definition mapThrows : TaskEither.TaskEither unit string string nat :=
  TaskEither.map thrower (TaskEither.right 1).

(** [tryCatch(() => Promise.reject('error'), (r) => { throw r })]. *)
Definition onRejectedThrows : TaskEither.TaskEither unit string string nat :=
  TaskEither.tryCatch Fix.rejectsError rethrower.

(** [pipe(right(0), chain(() => tryCatch(() => { throw 'boom' }, String)))]. *)
Definition throwsInChain : TaskEither.TaskEither unit string string nat :=
  TaskEither.chain (fun _ : nat => TaskEither.tryCatch Fix.throwsBoom String)
    (TaskEither.right 0).

(** The same with a wrapped operation that rejects, then mapped. *)
Definition rejectsInChain : TaskEither.TaskEither unit string string nat :=
  TaskEither.map (JSF.total S)
    (TaskEither.chain (fun _ : nat => TaskEither.tryCatch Fix.rejectsError String)
       (TaskEither.right 0)).

(** [taskify] of a function that throws before it calls back. *)
Definition taskifyThrows : TaskEither.TaskEither unit string string nat :=
  TaskEither.taskify Fix.nodeThrows 0.

(** [rightIO(() => { throw 'io' })]. *)
Definition ioThrows : TJ.IO unit string nat := fun w => (JS.Throws "io", w).

Definition rightIOThrows : TaskEither.TaskEither unit string string nat :=
  TaskEither.rightIO ioThrows.

(** [rightTask(() => Promise.reject('late'))]: a [Task] that breaks the
    contract of [Task]. *)
Definition taskFails : T.Task unit string nat :=
  fun w => (JS.Returns (JS.Rejected "late"), w).

Definition rightTaskFails : TaskEither.TaskEither unit string string nat :=
  TaskEither.rightTask taskFails.

(** A semigroup whose [concat] throws, and two successes concatenated
    with it. *)
Definition semigroupThrows : JSF.Semigroup string nat :=
  {| JSF.concat := fun _ _ => JS.Throws "concat" |}.

Definition concatThrows : TaskEither.TaskEither unit string string nat :=
  Semigroup.concat (TaskEither.getSemigroup semigroupThrows)
    (TaskEither.right 1) (TaskEither.right 2).

(** [pipe(right(thrower), ap(right(1)))]: a function carried as a value
    throws when it is applied. *)
Definition apThrows : TaskEither.TaskEither unit string string nat :=
  TaskEither.ap (TaskEither.right 1) (TaskEither.right thrower).

End Escapes.

(* ------------------------------------------------------------------------- *)
(** ** How each combinator runs *)
(* ------------------------------------------------------------------------- *)

Section Running.

Context {World Reason : Type}.

Local Abbreviation Task := (T.Task World Reason).
Local Abbreviation TaskEither := (TE.TaskEither World Reason).

Lemma right_run E A (a : A) (w : World) :
  @TE.right World Reason E A a w = Obs.settled (E.Right a) w.
Proof. reflexivity. Qed.

Lemma left_run E A (e : E) (w : World) :
  @TE.left World Reason E A e w = Obs.settled (E.Left e) w.
Proof. reflexivity. Qed.

(** [chain f ma]: [ma] is invoked; [f] is invoked only on its success. *)
Lemma chain_run E A B (f : A -> TaskEither E B) (ma : TaskEither E A) w :
  TE.chain f ma w =
  match ma w with
  | (JS.Returns (JS.Fulfilled (E.Right a)), w') =>
      let (q, w'') := JS.absorb (f a w') in (JS.Returns q, w'')
  | (JS.Returns (JS.Fulfilled (E.Left e)), w') => Obs.settled (E.Left e) w'
  | (JS.Returns JS.Pending, w') => (JS.Returns JS.Pending, w')
  | (JS.Returns (JS.Rejected r), w') => (JS.Returns (JS.Rejected r), w')
  | (JS.Throws x, w') => (JS.Throws x, w')
  end.
Proof.
  unfold TE.chain, ET.chain_; cbn.
  unfold T._chain, function.pipe, T.chain, JS.andThen.
  destruct (ma w) as [[[ | [e | a] | r] | x] w']; cbn; try reflexivity.
Qed.

(** [T.map f fa]: [fa] is invoked and [f] applied to its value. *)
Lemma T_map_run A B (f : A -> B) (fa : Task A) w :
  T.map f fa w =
  match fa w with
  | (JS.Returns (JS.Fulfilled a), w') => Obs.settled (f a) w'
  | (JS.Returns JS.Pending, w') => (JS.Returns JS.Pending, w')
  | (JS.Returns (JS.Rejected r), w') => (JS.Returns (JS.Rejected r), w')
  | (JS.Throws x, w') => (JS.Throws x, w')
  end.
Proof.
  unfold T.map, JS.andThen.
  destruct (fa w) as [[[ | a | r] | x] w']; reflexivity.
Qed.

(** [T.chain f ma]: [ma] is invoked, then [f] on its value. *)
Lemma T_chain_run A B (f : A -> Task B) (ma : Task A) w :
  T.chain f ma w =
  match ma w with
  | (JS.Returns (JS.Fulfilled a), w') =>
      let (q, w'') := JS.absorb (f a w') in (JS.Returns q, w'')
  | (JS.Returns JS.Pending, w') => (JS.Returns JS.Pending, w')
  | (JS.Returns (JS.Rejected r), w') => (JS.Returns (JS.Rejected r), w')
  | (JS.Throws x, w') => (JS.Throws x, w')
  end.
Proof.
  unfold T.chain, JS.andThen.
  destruct (ma w) as [[[ | a | r] | x] w']; reflexivity.
Qed.

(** [T.ap fa fab]: [fab] is invoked, then [fa], and the two promises are
    awaited together. *)
Lemma T_ap_run A B (fa : Task A) (fab : Task (A -> B)) w :
  T.ap fa fab w =
  match fab w with
  | (JS.Throws x, w1) => (JS.Throws x, w1)
  | (JS.Returns pf, w1) =>
      match fa w1 with
      | (JS.Throws x, w2) => (JS.Throws x, w2)
      | (JS.Returns pa, w2) =>
          match JS.all2 pf pa with
          | JS.Fulfilled (f, a) => Obs.settled (f a) w2
          | JS.Pending => (JS.Returns JS.Pending, w2)
          | JS.Rejected r => (JS.Returns (JS.Rejected r), w2)
          end
      end
  end.
Proof.
  unfold T.ap, JS.andThen.
  destruct (fab w) as [[pf | x] w1]; [ | reflexivity].
  destruct (fa w1) as [[pa | x] w2]; [ | reflexivity].
  destruct (JS.all2 pf pa) as [ | [f a] | r]; reflexivity.
Qed.

(** [tryCatch f onRejected]: [f] is called; the promise it returns, fulfilled
    or rejected, is turned into a fulfilled one. *)
Lemma tryCatch_run E A (f : JS.Call World Reason (JS.Promise Reason A))
    (onRejected : Reason -> E) w :
  TE.tryCatch f onRejected w =
  match f w with
  | (JS.Returns (JS.Fulfilled a), w') => Obs.settled (E.Right a) w'
  | (JS.Returns (JS.Rejected r), w') => Obs.settled (E.Left (onRejected r)) w'
  | (JS.Returns JS.Pending, w') => (JS.Returns JS.Pending, w')
  | (JS.Throws x, w') => (JS.Throws x, w')
  end.
Proof.
  unfold TE.tryCatch, JS.andThen.
  destruct (f w) as [[[ | a | r] | x] w']; reflexivity.
Qed.

End Running.

(* ------------------------------------------------------------------------- *)
(** ** chain: the monad laws and the short circuit *)
(* ------------------------------------------------------------------------- *)

Section ChainLaws.

Context {World Reason : Type}.

Local Abbreviation TaskEither := (TE.TaskEither World Reason).

(** Left identity, as an equation between outcomes: [chain f (right a)]
    is [f a] run as a reaction, so an exception [f a] throws when invoked
    shows as a rejection. *)
Lemma chain_right_run E A B (f : A -> TaskEither E B) (a : A) w :
  TE.chain f (TE.right a) w =
  let (q, w') := JS.absorb (f a w) in (JS.Returns q, w').
Proof. rewrite chain_run, right_run. reflexivity. Qed.

(** Right identity holds outcome for outcome. *)
Lemma chain_right_identity_run E A (m : TaskEither E A) w :
  TE.chain TE.right m w = m w.
Proof.
  rewrite chain_run.
  destruct (m w) as [[[ | [e | a] | r] | x] w']; reflexivity.
Qed.

(** Associativity holds outcome for outcome. *)
Lemma chain_assoc_run E A B C (m : TaskEither E A)
    (f : A -> TaskEither E B) (g : B -> TaskEither E C) w :
  TE.chain g (TE.chain f m) w = TE.chain (fun x => TE.chain g (f x)) m w.
Proof.
  rewrite (chain_run g), (chain_run f), (chain_run (fun x => TE.chain g (f x))).
  destruct (m w) as [[[ | [e | a] | r] | x] w']; try reflexivity.
  rewrite (chain_run g).
  destruct (f a w') as [[[ | [e | b] | r] | x] w1]; cbn; try reflexivity.
  destruct (JS.absorb (g b w1)) as [q w2]; reflexivity.
Qed.

(** C1. [chain] satisfies the monad laws up to [Obs.equivalent] (the two
    computations settle to the same [Either] and leave the same world):
    left identity [chain(f)(right(a)) = f(a)], right identity
    [chain(right)(m) = m], and associativity
    [chain(g)(chain(f)(m)) = chain(x => chain(g)(f(x)))(m)]. *)
Theorem chain_monad_laws (E A B C : Type) :
  (forall (a : A) (f : A -> TaskEither E B),
      Obs.equivalent (TE.chain f (TE.right a)) (f a))
  /\ (forall m : TaskEither E A, Obs.equivalent (TE.chain TE.right m) m)
  /\ (forall (m : TaskEither E A) (f : A -> TaskEither E B)
             (g : B -> TaskEither E C),
         Obs.equivalent (TE.chain g (TE.chain f m))
                        (TE.chain (fun x => TE.chain g (f x)) m)).
Proof.
  repeat split; unfold Obs.settlesTo, Obs.settled.
  - rewrite chain_right_run.
    destruct (f a w) as [[p | x] w1]; cbn; [ | discriminate].
    intros H; inversion H; reflexivity.
  - rewrite chain_right_run. intros H; rewrite H; reflexivity.
  - rewrite chain_right_identity_run; trivial.
  - rewrite chain_right_identity_run; trivial.
  - rewrite chain_assoc_run; trivial.
  - rewrite chain_assoc_run; trivial.
Qed.

(** C2. [chain] short-circuits on failure: [chain(f)(left(e))] runs exactly
    as [left(e)] does, whatever [f] is; it is equivalent to [left(e)]; and a
    spy put on [f] records nothing, the world being left as it was. *)
Theorem chain_left_short_circuit (E A B : Type) (f : A -> TaskEither E B)
    (e : E) :
  (forall w, TE.chain f (TE.left e) w = TE.left e w)
  /\ Obs.equivalent (TE.chain f (TE.left e)) (TE.left e)
  /\ (forall (record : A -> World -> World) w,
         TE.chain (Obs.spy record f) (TE.left e) w
         = Obs.settled (E.Left e) w).
Proof.
  assert (H : forall (g : A -> TaskEither E B) w,
             TE.chain g (TE.left e) w = TE.left e w).
  { intros g w. rewrite chain_run, left_run. reflexivity. }
  split; [exact (H f) | split].
  - intros w r w'. unfold Obs.settlesTo. rewrite H. tauto.
  - intros record w. rewrite H. apply left_run.
Qed.

End ChainLaws.

(* ------------------------------------------------------------------------- *)
(** ** bracket *)
(* ------------------------------------------------------------------------- *)

Section Bracket.

Context {World Reason : Type}.

Local Abbreviation TaskEither := (TE.TaskEither World Reason).

Variables E A B : Type.
Variable acquire : TaskEither E A.
Variable use : A -> TaskEither E B.
Variable release : A -> E.Either E B -> TaskEither E unit.

(** When [acquire] fails, nothing else runs. *)
Lemma bracket_acquire_fails w e w1 :
  acquire w = Obs.settled (E.Left e) w1 ->
  TE.bracket acquire use release w = Obs.settled (E.Left e) w1.
Proof.
  intros Ha. unfold TE.bracket, function.pipe.
  rewrite chain_run, Ha. reflexivity.
Qed.

(** When [acquire] succeeds and [use] settles to [u], the rest of
    [bracket] is [release a u] followed by the return of [u]. *)
Lemma bracket_acquired w a w1 u w2 :
  acquire w = Obs.settled (E.Right a) w1 ->
  use a w1 = Obs.settled u w2 ->
  TE.bracket acquire use release w =
  match release a u w2 with
  | (JS.Returns (JS.Fulfilled (E.Right _)), w3) => Obs.settled u w3
  | (JS.Returns (JS.Fulfilled (E.Left e)), w3) => Obs.settled (E.Left e) w3
  | (JS.Returns JS.Pending, w3) => (JS.Returns JS.Pending, w3)
  | (JS.Returns (JS.Rejected r), w3) => (JS.Returns (JS.Rejected r), w3)
  | (JS.Throws x, w3) => (JS.Returns (JS.Rejected x), w3)
  end.
Proof.
  intros Ha Hu. unfold TE.bracket, function.pipe.
  rewrite chain_run, Ha. unfold Obs.settled.
  rewrite chain_run, T_map_run, Hu. unfold Obs.settled.
  rewrite chain_run.
  destruct (release a u w2) as [[[ | [e | []] | r] | x] w3]; try reflexivity.
  destruct u; reflexivity.
Qed.

End Bracket.

(** C3. [bracket(acquire, use, release)]:
    - if [acquire] fails, that failure is the result and neither [use] nor
      [release] is invoked (spies on them record nothing);
    - if [acquire] succeeds and [use] settles to [u], success or failure,
      [release] is invoked exactly once, on the resource and [u], in the
      world [use] left: the final world is the one that single invocation
      leaves, whatever its outcome;
    - if that invocation of [release] fails, its failure is the result;
    - if it succeeds, the result is [u], the outcome of [use]. *)
Theorem bracket_spec {World Reason : Type} (E A B : Type)
    (acquire : TE.TaskEither World Reason E A)
    (use : A -> TE.TaskEither World Reason E B)
    (release : A -> E.Either E B -> TE.TaskEither World Reason E unit)
    (w : World) :
  (forall e w1 recordUse recordRelease,
      acquire w = Obs.settled (E.Left e) w1 ->
      TE.bracket acquire (Obs.spy recordUse use)
                 (Obs.spy2 recordRelease release) w
      = Obs.settled (E.Left e) w1)
  /\ (forall a w1 u w2,
         acquire w = Obs.settled (E.Right a) w1 ->
         use a w1 = Obs.settled u w2 ->
         (forall recordRelease,
             snd (TE.bracket acquire use (Obs.spy2 recordRelease release) w)
             = snd (release a u (recordRelease a u w2)))
         /\ (forall e w3,
                release a u w2 = Obs.settled (E.Left e) w3 ->
                TE.bracket acquire use release w = Obs.settled (E.Left e) w3)
         /\ (forall w3,
                release a u w2 = Obs.settled (E.Right tt) w3 ->
                TE.bracket acquire use release w = Obs.settled u w3)).
Proof.
  split.
  - intros e w1 recordUse recordRelease Ha.
    apply bracket_acquire_fails; exact Ha.
  - intros a w1 u w2 Ha Hu. repeat split.
    + intros recordRelease.
      rewrite (bracket_acquired acquire use (Obs.spy2 recordRelease release) w Ha Hu).
      unfold Obs.spy2.
      destruct (release a u (recordRelease a u w2))
        as [[[ | [e | x] | r] | x] w3]; reflexivity.
    + intros e w3 Hr.
      rewrite (bracket_acquired acquire use release w Ha Hu), Hr. reflexivity.
    + intros w3 Hr.
      rewrite (bracket_acquired acquire use release w Ha Hu), Hr. reflexivity.
Qed.

(** The four runs of [bracket] on a journal: a failed [acquire] leaves
    ["acquire"] alone in the journal; after a successful one the journal
    holds one ["use"] and one ["release"], whether [use] or [release] fail. *)
Lemma bracket_spec_witness :
  TE.bracket Fix.acquireKo Fix.useOk Fix.releaseOk []
  = Obs.settled (E.Left "no resource"%string) ["acquire"%string]
  /\ TE.bracket Fix.acquireOk Fix.useKo Fix.releaseOk []
     = Obs.settled (E.Left "use failed"%string)
         ["release"; "use"; "acquire"]%string
  /\ TE.bracket Fix.acquireOk Fix.useOk Fix.releaseKo []
     = Obs.settled (E.Left "release failed"%string)
         ["release"; "use"; "acquire"]%string
  /\ TE.bracket Fix.acquireOk Fix.useOk Fix.releaseOk []
     = Obs.settled (E.Right 8) ["release"; "use"; "acquire"]%string
  /\ snd (TE.bracket Fix.acquireOk Fix.useOk Fix.releaseOk [])
     = ["release"; "use"; "acquire"]%string.
Proof.
  refine (conj _ (conj _ (conj _ (conj _ _)))).
  - apply (proj1 (bracket_spec Fix.acquireKo Fix.useOk Fix.releaseOk [])
             "no resource"%string ["acquire"%string]
             (fun _ w => w) (fun _ _ w => w)).
    reflexivity.
  - apply (proj2 (proj2 (proj2 (bracket_spec Fix.acquireOk Fix.useKo
                                   Fix.releaseOk [])
             7 ["acquire"%string] (E.Left "use failed"%string)
             ["use"; "acquire"]%string eq_refl eq_refl))).
    reflexivity.
  - apply (proj1 (proj2 (proj2 (bracket_spec Fix.acquireOk Fix.useOk
                                   Fix.releaseKo [])
             7 ["acquire"%string] (E.Right 8)
             ["use"; "acquire"]%string eq_refl eq_refl))).
    reflexivity.
  - apply (proj2 (proj2 (proj2 (bracket_spec Fix.acquireOk Fix.useOk
                                   Fix.releaseOk [])
             7 ["acquire"%string] (E.Right 8)
             ["use"; "acquire"]%string eq_refl eq_refl))).
    reflexivity.
  - apply (proj1 (proj2 (bracket_spec Fix.acquireOk Fix.useOk
                           Fix.releaseOk [])
             7 ["acquire"%string] (E.Right 8)
             ["use"; "acquire"]%string eq_refl eq_refl)
             (fun _ _ w => w)).
Defined.

(* ------------------------------------------------------------------------- *)
(** ** tryCatch *)
(* ------------------------------------------------------------------------- *)

(** C4. [tryCatch(f, onRejected)] (the spec's [fromDeferredFailable]): when
    the promise returned by [f] rejects with [r], the computation settles to
    [Left (onRejected r)] instead of rejecting; when it resolves with [a],
    the computation settles to [Right a]; an exception [f] throws
    synchronously is not caught: the invocation throws it. *)
Theorem tryCatch_spec {World Reason : Type} (E A : Type)
    (f : JS.Call World Reason (JS.Promise Reason A))
    (onRejected : Reason -> E) (w w' : World) :
  (forall r, f w = (JS.Returns (JS.Rejected r), w') ->
             TE.tryCatch f onRejected w = Obs.settled (E.Left (onRejected r)) w')
  /\ (forall a, f w = (JS.Returns (JS.Fulfilled a), w') ->
                TE.tryCatch f onRejected w = Obs.settled (E.Right a) w')
  /\ (forall x, f w = (JS.Throws x, w') ->
                TE.tryCatch f onRejected w = (JS.Throws x, w')).
Proof.
  refine (conj _ (conj _ _)); intros v Hf; rewrite tryCatch_run, Hf; reflexivity.
Qed.

(** The examples of the documentation of [tryCatch], and a throwing [f]. *)
Lemma tryCatch_spec_witness :
  TE.tryCatch Fix.rejectsError Fix.String tt
  = Obs.settled (E.Left "error"%string) tt
  /\ TE.tryCatch Fix.resolvesOne Fix.String tt = Obs.settled (E.Right 1) tt
  /\ TE.tryCatch Fix.throwsBoom Fix.String tt = (JS.Throws "boom"%string, tt).
Proof.
  refine (conj _ (conj _ _)).
  - apply (proj1 (tryCatch_spec Fix.rejectsError Fix.String tt tt)).
    reflexivity.
  - apply (proj1 (proj2 (tryCatch_spec Fix.resolvesOne Fix.String tt tt))).
    reflexivity.
  - apply (proj2 (proj2 (tryCatch_spec Fix.throwsBoom Fix.String tt tt))).
    reflexivity.
Defined.

(* ------------------------------------------------------------------------- *)
(** ** Sequential traversal *)
(* ------------------------------------------------------------------------- *)

Section SeqTraversal.

Context {World Reason : Type}.

Local Abbreviation TaskEither := (TE.TaskEither World Reason).

Variables E A B : Type.
Variable f : A -> TaskEither E B.

(** The loop runs through a prefix of successes one element after the other,
    each from the world the one before left, pushing the values in order. *)
Lemma traverseSeq_loop_prefix pre w xs w1 :
  Obs.settleEach f pre w xs w1 ->
  forall bs rest i result,
    xs = List.map E.Right bs ->
    TE.traverseSeqArrayWithIndex_loop (fun _ a => f a) i (pre ++ rest) result w
    = TE.traverseSeqArrayWithIndex_loop (fun _ a => f a) (i + List.length pre) rest
        (result ++ bs) w1.
Proof.
  induction 1 as [w | a pre w x w1 xs w2 Ha Hrest IH];
    intros bs rest i result Hxs.
  - destruct bs; [ | discriminate].
    cbn [app List.length]. rewrite Nat.add_0_r, app_nil_r. reflexivity.
  - destruct bs as [ | b bs]; [discriminate | ].
    cbn [List.map] in Hxs. injection Hxs as Hx Hxs. subst x.
    cbn [app List.length TE.traverseSeqArrayWithIndex_loop].
    unfold Obs.settlesTo, Obs.settled in Ha. rewrite Ha.
    rewrite (IH bs rest (S i) (result ++ [b]) Hxs).
    rewrite <- app_assoc, Nat.add_succ_r. reflexivity.
Qed.

End SeqTraversal.

(** C5. [traverseSeqArray(f)] runs the computations of the elements strictly
    one at a time in input order and stops at the first failure. When the
    elements of [pre] succeed one after the other with [bs], the traversal of
    [pre] settles to [Right bs]; and when the next element [x] fails with
    [e], the traversal of [pre ++ x :: post] settles to [Left e] in the world
    [f x] left: no computation of [post] is started, whatever [post] is. *)
Theorem traverseSeqArray_short_circuit {World Reason : Type} (E A B : Type)
    (f : A -> TE.TaskEither World Reason E B) (pre : list A) (bs : list B)
    (w w1 : World)
    (Hpre : Obs.settleEach f pre w (List.map E.Right bs) w1) :
  TE.traverseSeqArray f pre w = Obs.settled (E.Right bs) w1
  /\ (forall x e w2 post,
         f x w1 = Obs.settled (E.Left e) w2 ->
         TE.traverseSeqArray f (pre ++ x :: post) w = Obs.settled (E.Left e) w2).
Proof.
  split.
  - unfold TE.traverseSeqArray, TE.traverseSeqArrayWithIndex.
    rewrite <- (app_nil_r pre) at 1.
    rewrite (traverseSeq_loop_prefix Hpre bs [] 0 [] eq_refl). reflexivity.
  - intros x e w2 post Hx.
    unfold TE.traverseSeqArray, TE.traverseSeqArrayWithIndex.
    rewrite (traverseSeq_loop_prefix Hpre bs (x :: post) 0 [] eq_refl).
    cbn [TE.traverseSeqArrayWithIndex_loop]. rewrite Hx. reflexivity.
Qed.

(** On [[1, 2, 3]] with an [f] that fails on [2]: the result is that failure,
    and the spy on [f] has recorded the calls on [1] and on [2] only. *)
Lemma traverseSeqArray_short_circuit_witness :
  TE.traverseSeqArray Fix.failsOnTwo [1; 2; 3] []
  = Obs.settled (E.Left "two"%string) [2; 1].
Proof.
  assert (Hpre : Obs.settleEach Fix.failsOnTwo [1] []
                   (List.map E.Right [10]) [1]).
  { apply Obs.settleEach_cons with (w1 := [1]).
    - reflexivity.
    - apply Obs.settleEach_nil. }
  apply (proj2 (traverseSeqArray_short_circuit [10] Hpre)
           2 "two"%string [2; 1] [3]).
  reflexivity.
Defined.

(** C10. On the empty array the sequential traversals succeed vacuously:
    [traverseSeqArray(f)([])] and [sequenceSeqArray([])] settle to [Right []],
    and [f] is not invoked (a spy on it records nothing). *)
Theorem traverseSeqArray_empty {World Reason : Type} (E A B : Type)
    (f : A -> TE.TaskEither World Reason E B) (w : World) :
  TE.traverseSeqArray f [] w = Obs.settled (E.Right []) w
  /\ @TE.sequenceSeqArray World Reason B E [] w = Obs.settled (E.Right []) w
  /\ (forall record : A -> World -> World,
         TE.traverseSeqArray (Obs.spy record f) [] w
         = Obs.settled (E.Right []) w).
Proof.
  refine (conj _ (conj _ _)); reflexivity.
Qed.

(* ------------------------------------------------------------------------- *)
(** ** Parallel traversal *)
(* ------------------------------------------------------------------------- *)

Section EitherArray.

Variables E A : Type.

(** The scan of [Either]'s traversal goes through a prefix of successes and
    collects them in order. *)
Lemma E_sequence_loop_prefix (pre : list A) :
  forall (rest : list (E.Either E A)) i result,
    E.traverseArrayWithIndex_loop (fun _ a => function.identity a) i
      (List.map E.Right pre ++ rest) result
    = E.traverseArrayWithIndex_loop (fun _ a => function.identity a)
        (i + List.length pre) rest (result ++ pre).
Proof.
  induction pre as [ | a pre IH]; intros rest i result.
  - cbn [List.map app List.length]. rewrite Nat.add_0_r, app_nil_r. reflexivity.
  - cbn [List.map app List.length E.traverseArrayWithIndex_loop].
    unfold function.identity at 1. rewrite IH.
    rewrite <- app_assoc, Nat.add_succ_r. reflexivity.
Qed.

Lemma E_sequenceArray_rights (values : list A) :
  @E.sequenceArray E A (List.map E.Right values) = E.Right values.
Proof.
  unfold E.sequenceArray, E.traverseArray, E.traverseArrayWithIndex.
  rewrite <- (app_nil_r (List.map E.Right values)).
  rewrite E_sequence_loop_prefix. reflexivity.
Qed.

Lemma E_sequenceArray_first_left (pre : list A) (e : E)
    (post : list (E.Either E A)) :
  E.sequenceArray (List.map E.Right pre ++ E.Left e :: post) = E.Left e.
Proof.
  unfold E.sequenceArray, E.traverseArray, E.traverseArrayWithIndex.
  rewrite E_sequence_loop_prefix. reflexivity.
Qed.

End EitherArray.

Section ParTraversal.

Context {World Reason : Type}.

Local Abbreviation Task := (T.Task World Reason).
Local Abbreviation TaskEither := (TE.TaskEither World Reason).

Lemma all_fulfilled X (xs : list X) :
  JS.all (List.map (@JS.Fulfilled Reason X) xs) = JS.Fulfilled xs.
Proof.
  induction xs as [ | x xs IH]; cbn; [ | rewrite IH]; reflexivity.
Qed.

(** All the computations are invoked, in order, whatever they settle to. *)
Lemma invokeEach_settle A X (g : A -> Task X) arr w xs w' :
  Obs.settleEach g arr w xs w' ->
  forall i,
    JS.invokeEach (fun _ a => g a) i arr w
    = (JS.Returns (List.map (@JS.Fulfilled Reason X) xs), w').
Proof.
  induction 1 as [w | a rest w x w1 xs w2 Ha Hrest IH]; intros i.
  - reflexivity.
  - cbn [JS.invokeEach List.map].
    unfold Obs.settlesTo, Obs.settled in Ha. rewrite Ha, IH. reflexivity.
Qed.

(** [traverseArray f arr], when every [f a] settles: all of them have run,
    and the result is the scan of what they settled to. *)
Lemma traverseArray_settle E A B (f : A -> TaskEither E B) arr w rs w' :
  Obs.settleEach f arr w rs w' ->
  TE.traverseArray f arr w = Obs.settled (E.sequenceArray rs) w'.
Proof.
  intros H.
  unfold TE.traverseArray, TE.traverseArrayWithIndex, function.pipe3.
  rewrite T_map_run. unfold T.traverseArrayWithIndex.
  rewrite (invokeEach_settle H 0), all_fulfilled. reflexivity.
Qed.

End ParTraversal.

(** C6. [sequenceArray], on computations that settle to [rs] when invoked in
    order: the result is the ordered successes when every element succeeds,
    and the failure of the first element in array order that fails when one
    does. In particular [sequenceArray([right(1), right(2)])] settles to
    [right([1, 2])] and [sequenceArray([right(1), left('e')])] to
    [left('e')]. *)
Theorem sequenceArray_spec {World Reason : Type} (E A : Type)
    (arr : list (TE.TaskEither World Reason E A))
    (rs : list (E.Either E A)) (w w' : World)
    (Hrun : Obs.settleEach function.identity arr w rs w') :
  (forall values,
      rs = List.map E.Right values ->
      TE.sequenceArray arr w = Obs.settled (E.Right values) w')
  /\ (forall pre e post,
         rs = List.map E.Right pre ++ E.Left e :: post ->
         TE.sequenceArray arr w = Obs.settled (E.Left e) w').
Proof.
  assert (H : TE.sequenceArray arr w = Obs.settled (E.sequenceArray rs) w').
  { apply (traverseArray_settle Hrun). }
  split.
  - intros values ->. rewrite H, E_sequenceArray_rights. reflexivity.
  - intros pre e post ->. rewrite H, E_sequenceArray_first_left. reflexivity.
Qed.

(** The two examples. *)
Lemma sequenceArray_spec_witness :
  @TE.sequenceArray unit string nat string [TE.right 1; TE.right 2] tt
  = Obs.settled (E.Right [1; 2]) tt
  /\ @TE.sequenceArray unit string nat string [TE.right 1; TE.left "e"%string] tt
     = Obs.settled (E.Left "e"%string) tt.
Proof.
  assert (H1 : Obs.settleEach function.identity
                 [@TE.right unit string string nat 1; TE.right 2] tt
                 [E.Right 1; E.Right 2] tt).
  { repeat (eapply Obs.settleEach_cons; [reflexivity | ]).
    apply Obs.settleEach_nil. }
  assert (H2 : Obs.settleEach function.identity
                 [@TE.right unit string string nat 1; TE.left "e"%string] tt
                 [E.Right 1; E.Left "e"%string] tt).
  { repeat (eapply Obs.settleEach_cons; [reflexivity | ]).
    apply Obs.settleEach_nil. }
  split.
  - apply (proj1 (sequenceArray_spec H1) [1; 2]). reflexivity.
  - apply (proj2 (sequenceArray_spec H2) [1] "e"%string []). reflexivity.
Defined.

(** The parallel traversal of [[1, 2, 3]] with an [f] that fails on [2]: the
    result is the failure of [f 2], and all three computations have run. *)
Example traverseArray_runs_all :
  TE.traverseArray Fix.failsOnTwo [1; 2; 3] []
  = Obs.settled (E.Left "two"%string) [3; 2; 1].
Proof. reflexivity. Qed.

(* ------------------------------------------------------------------------- *)
(** ** Application: first failure, or accumulation *)
(* ------------------------------------------------------------------------- *)

Section Application.

Context {World Reason : Type}.

Local Abbreviation Task := (T.Task World Reason).
Local Abbreviation TaskEither := (TE.TaskEither World Reason).

(** Both applications of [Task] run the function side, then the value side,
    and apply the one value to the other. *)
Lemma T_apPar_settle A B (fab : Task (A -> B)) (fa : Task A) w h w1 a w2 :
  fab w = Obs.settled h w1 -> fa w1 = Obs.settled a w2 ->
  Apply.ap T.ApplyPar fab fa w = Obs.settled (h a) w2.
Proof.
  intros Hf Ha. cbn. unfold T._apPar, function.pipe.
  rewrite T_ap_run, Hf. unfold Obs.settled. rewrite Ha. reflexivity.
Qed.

Lemma T_apSeq_settle A B (fab : Task (A -> B)) (fa : Task A) w h w1 a w2 :
  fab w = Obs.settled h w1 -> fa w1 = Obs.settled a w2 ->
  Apply.ap T.ApplySeq fab fa w = Obs.settled (h a) w2.
Proof.
  intros Hf Ha. cbn. unfold T._apSeq, function.pipe.
  rewrite T_chain_run, Hf. unfold Obs.settled.
  rewrite T_map_run, Ha. reflexivity.
Qed.

Lemma T_map_settle (F : Apply.Apply Task) A B (fa : Task A) (f : A -> B)
    w a w1 :
  F = T.ApplyPar \/ F = T.ApplySeq ->
  fa w = Obs.settled a w1 ->
  Apply.map F fa f w = Obs.settled (f a) w1.
Proof.
  intros [-> | ->] Ha; cbn; unfold T._map, function.pipe;
    rewrite T_map_run, Ha; reflexivity.
Qed.

(** The composition [ap_(F, G)] over [Task]: the two [G]-values the sides
    settle to are applied in [G]. *)
Lemma Apply_ap_settle (F : Apply.Apply Task) (G : Type -> Type)
    (GA : Apply.Apply G) A B (fa : Task (G A)) (fab : Task (G (A -> B)))
    w gab w1 ga w2 :
  F = T.ApplyPar \/ F = T.ApplySeq ->
  fab w = Obs.settled gab w1 -> fa w1 = Obs.settled ga w2 ->
  Apply.ap_ F GA fa fab w = Obs.settled (Apply.ap GA gab ga) w2.
Proof.
  intros HF Hf Ha. unfold Apply.ap_.
  pose proof (@T_map_settle F _ _ fab (fun gab ga => Apply.ap GA gab ga)
                _ _ _ HF Hf) as Hm.
  destruct HF as [-> | ->].
  - apply (@T_apPar_settle _ _ _ fa _ _ _ _ _ Hm Ha).
  - apply (@T_apSeq_settle _ _ _ fa _ _ _ _ _ Hm Ha).
Qed.

(** [ap fa fab] when both sides settle: the outcome is [Either]'s
    application of the two results. *)
Lemma ap_settle E A B (fa : TaskEither E A) (fab : TaskEither E (A -> B))
    w rf w1 ra w2 :
  fab w = Obs.settled rf w1 -> fa w1 = Obs.settled ra w2 ->
  TE.ap fa fab w = Obs.settled (E.ap ra rf) w2.
Proof.
  intros Hf Ha. unfold TE.ap, ET.ap_.
  apply (@Apply_ap_settle T.ApplyPar _ E.Apply _ _ fa fab _ _ _ _ _
           (or_introl eq_refl) Hf Ha).
Qed.

End Application.

(** C7. The applicative of [getApplicativeTaskValidation(A, S)], for [A] one
    of the two [Apply] instances of [Task], accumulates failures: applying a
    function computation that fails with [e1] to a value computation that
    fails with [e2] yields the single failure [S.concat e1 e2]. *)
Theorem validation_accumulates {World Reason : Type} (E X Y : Type)
    (A : Apply.Apply (T.Task World Reason)) (S : Semigroup.Semigroup E)
    (fab : TE.TaskEither World Reason E (X -> Y))
    (fa : TE.TaskEither World Reason E X)
    (w w1 w2 : World) (e1 e2 : E)
    (HA : A = T.ApplyPar \/ A = T.ApplySeq)
    (Hfab : fab w = Obs.settled (E.Left e1) w1)
    (Hfa : fa w1 = Obs.settled (E.Left e2) w2) :
  Applicative.ap (TE.getApplicativeTaskValidation A S) fab fa w
  = Obs.settled (E.Left (Semigroup.concat S e1 e2)) w2.
Proof.
  cbn. unfold function.pipe.
  rewrite (@Apply_ap_settle _ _ A _
             (Applicative.toApply (E.getApplicativeValidation S))
             _ _ fa fab _ _ _ _ _ HA Hfab Hfa).
  reflexivity.
Qed.

(** With string concatenation, two [left]s give the [left] of the
    concatenation of both errors. *)
Lemma validation_accumulates_witness :
  Applicative.ap
    (TE.getApplicativeTaskValidation T.ApplyPar Fix.semigroupString)
    (@TE.left unit string string (nat -> nat) "a"%string)
    (TE.left "b"%string) tt
  = Obs.settled (E.Left "ab"%string) tt.
Proof.
  apply (@validation_accumulates unit string string nat nat T.ApplyPar
           Fix.semigroupString (TE.left "a"%string) (TE.left "b"%string)
           tt tt tt "a"%string "b"%string
           (or_introl eq_refl) eq_refl eq_refl).
Defined.

(** C8. [ap] does not accumulate and picks the failure by a fixed rule. When
    the function computation settles to [rf] and the value computation to
    [ra], the result is a function of [rf] and [ra] alone ([E.ap ra rf]):
    the failure of the function side whenever it fails, otherwise the
    failure of the value side; never a merge of two errors (no merge is
    given). *)
Theorem ap_failure_policy {World Reason : Type} (E A B : Type)
    (fa : TE.TaskEither World Reason E A)
    (fab : TE.TaskEither World Reason E (A -> B))
    (w w1 w2 : World) (rf : E.Either E (A -> B)) (ra : E.Either E A)
    (Hfab : fab w = Obs.settled rf w1)
    (Hfa : fa w1 = Obs.settled ra w2) :
  TE.ap fa fab w = Obs.settled (E.ap ra rf) w2
  /\ (forall e1, rf = E.Left e1 ->
                 TE.ap fa fab w = Obs.settled (E.Left e1) w2)
  /\ (forall f e2, rf = E.Right f -> ra = E.Left e2 ->
                   TE.ap fa fab w = Obs.settled (E.Left e2) w2)
  /\ (forall f a, rf = E.Right f -> ra = E.Right a ->
                  TE.ap fa fab w = Obs.settled (E.Right (f a)) w2).
Proof.
  pose proof (@ap_settle _ _ _ _ _ fa fab _ _ _ _ _ Hfab Hfa) as H.
  refine (conj H (conj _ (conj _ _))).
  - intros e1 ->. exact H.
  - intros f e2 -> ->. exact H.
  - intros f a -> ->. exact H.
Qed.

(** Two failing sides: the failure of the function side is the result. *)
Lemma ap_failure_policy_witness :
  TE.ap (@TE.left unit string string nat "value"%string)
        (@TE.left unit string string (nat -> nat) "function"%string) tt
  = Obs.settled (E.Left "function"%string) tt.
Proof.
  apply (proj1 (proj2 (@ap_failure_policy unit string string nat nat
                         (TE.left "value"%string) (TE.left "function"%string)
                         tt tt tt (E.Left "function"%string)
                         (E.Left "value"%string) eq_refl eq_refl))
           "function"%string eq_refl).
Defined.

(* ------------------------------------------------------------------------- *)
(** ** No failure escapes *)
(* ------------------------------------------------------------------------- *)

Section NeverEscapes.

Context {World Reason : Type}.

Local Abbreviation Task := (T.Task World Reason).
Local Abbreviation TaskEither := (TE.TaskEither World Reason).

Lemma neverEscapes_inv A (t : Task A) :
  Obs.neverEscapes t ->
  forall w, exists p w', t w = (JS.Returns p, w') /\ Obs.unrejected p.
Proof.
  intros H w. specialize (H w). unfold Obs.escapes in H.
  destruct (t w) as [[[ | a | r] | x] w']; cbn in H;
    try (exfalso; apply H; exact I);
    eexists; eexists; (split; [reflexivity | exact I]).
Qed.

Lemma neverEscapes_intro A (t : Task A) :
  (forall w, exists p w', t w = (JS.Returns p, w') /\ Obs.unrejected p) ->
  Obs.neverEscapes t.
Proof.
  intros H w. destruct (H w) as (p & w' & Heq & Hp). rewrite Heq.
  unfold Obs.escapes. destruct p; cbn in *; tauto.
Qed.

Ltac run H w :=
  let p := fresh "p" in
  let w' := fresh "w" in
  let Heq := fresh "Heq" in
  let Hp := fresh "Hp" in
  destruct (neverEscapes_inv H w) as (p & w' & Heq & Hp);
  rewrite Heq; destruct p; cbn in Hp; try contradiction.

Ltac done := eexists; eexists; (split; [reflexivity | exact I]).

Lemma ne_of A (a : A) : Obs.neverEscapes (@T.of_ World Reason A a).
Proof. apply neverEscapes_intro. intros w. done. Qed.

Lemma ne_map A B (f : A -> B) (fa : Task A) :
  Obs.neverEscapes fa -> Obs.neverEscapes (T.map f fa).
Proof.
  intros H. apply neverEscapes_intro. intros w.
  rewrite T_map_run. run H w; done.
Qed.

Lemma ne_chain A B (f : A -> Task B) (ma : Task A) :
  Obs.neverEscapes ma -> (forall a, Obs.neverEscapes (f a)) ->
  Obs.neverEscapes (T.chain f ma).
Proof.
  intros H Hf. apply neverEscapes_intro. intros w.
  rewrite T_chain_run. run H w; [done | ].
  run (Hf a) w0; done.
Qed.

Lemma all_unrejected A (ps : list (JS.Promise Reason A)) :
  Forall Obs.unrejected ps -> Obs.unrejected (JS.all ps).
Proof.
  induction 1 as [ | p ps Hp Hps IH]; cbn; [exact I | ].
  destruct p; cbn in Hp; try contradiction;
    destruct (JS.all ps); cbn in IH; try contradiction; exact I.
Qed.

Lemma ne_invokeEach A B (f : nat -> A -> Task B) (arr : list A) :
  (forall i a, In a arr -> Obs.neverEscapes (f i a)) ->
  forall i w, exists ps w',
    JS.invokeEach f i arr w = (JS.Returns ps, w') /\ Forall Obs.unrejected ps.
Proof.
  induction arr as [ | a arr IH]; intros Hf i w.
  - exists [], w. split; [reflexivity | constructor].
  - cbn [JS.invokeEach].
    destruct (neverEscapes_inv (Hf i a (or_introl eq_refl)) w)
      as (p & w1 & Heq & Hp).
    rewrite Heq.
    destruct (IH (fun j b Hb => Hf j b (or_intror Hb)) (S i) w1)
      as (ps & w2 & Heq2 & Hps).
    rewrite Heq2. exists (p :: ps), w2. split; [reflexivity | ].
    constructor; assumption.
Qed.

Lemma ne_T_traverseArrayWithIndex A B (f : nat -> A -> Task B) arr :
  (forall i a, In a arr -> Obs.neverEscapes (f i a)) ->
  Obs.neverEscapes (T.traverseArrayWithIndex f arr).
Proof.
  intros Hf. apply neverEscapes_intro. intros w.
  unfold T.traverseArrayWithIndex.
  destruct (ne_invokeEach f arr Hf 0 w) as (ps & w' & Heq & Hps).
  rewrite Heq. eexists; eexists; split; [reflexivity | ].
  apply all_unrejected; exact Hps.
Qed.

Lemma ne_traverseSeq_loop A B E (f : nat -> A -> TaskEither E B) arr :
  (forall i a, In a arr -> Obs.neverEscapes (f i a)) ->
  forall i result w,
    Obs.unrejected (fst (TE.traverseSeqArrayWithIndex_loop f i arr result w)).
Proof.
  induction arr as [ | a arr IH]; intros Hf i result w.
  - exact I.
  - cbn [TE.traverseSeqArrayWithIndex_loop].
    destruct (neverEscapes_inv (Hf i a (or_introl eq_refl)) w)
      as (p & w1 & Heq & Hp).
    rewrite Heq. destruct p as [ | [e | b] | r]; cbn in Hp;
      try contradiction; try exact I.
    apply IH. intros j c Hc. apply Hf. right; exact Hc.
Qed.

End NeverEscapes.

Section BuiltComputations.

Context {World Reason : Type}.

Local Abbreviation Task := (T.Task World Reason).
Local Abbreviation TaskEither := (TE.TaskEither World Reason).

Lemma ne_TE_chain E A B (f : A -> TaskEither E B) (ma : TaskEither E A) :
  Obs.neverEscapes ma -> (forall a, Obs.neverEscapes (f a)) ->
  Obs.neverEscapes (TE.chain f ma).
Proof.
  intros Hma Hf. unfold TE.chain, ET.chain_. cbn.
  unfold T._chain, function.pipe.
  apply ne_chain; [exact Hma | ].
  intros [l | a]; [apply ne_of | apply Hf].
Qed.

Lemma ne_bracket E A B (acquire : TaskEither E A) (use : A -> TaskEither E B)
    (release : A -> E.Either E B -> TaskEither E unit) :
  Obs.neverEscapes acquire ->
  (forall a, Obs.neverEscapes (use a)) ->
  (forall a e, Obs.neverEscapes (release a e)) ->
  Obs.neverEscapes (TE.bracket acquire use release).
Proof.
  intros Ha Hu Hr. unfold TE.bracket, function.pipe.
  apply ne_TE_chain; [exact Ha | ]. intros a.
  apply ne_TE_chain; [apply ne_map; apply Hu | ]. intros e.
  apply ne_TE_chain; [apply Hr | ]. intros _.
  destruct e; apply ne_of.
Qed.

End BuiltComputations.

(* ------------------------------------------------------------------------- *)
(** ** ReadonlyTuple: the laws of its instances *)
(* ------------------------------------------------------------------------- *)

Lemma monoidList_lawful : Monoid.Lawful Samples.monoidList.
Proof.
  refine (conj _ (conj _ _)); cbn; intros.
  - symmetry; apply app_assoc.
  - reflexivity.
  - apply app_nil_r.
Qed.

(** X1. [swap] exchanges the two components and is its own inverse. *)
Theorem RT_swap_involutive (E A : Type) (t : RT.ReadonlyTuple2 E A) :
  RT.swap (RT.swap t) = t
  /\ RT.fst (RT.swap t) = RT.snd t
  /\ RT.snd (RT.swap t) = RT.fst t.
Proof. destruct t as [a e]. refine (conj _ (conj _ _)); reflexivity. Qed.

(** X2. [map] satisfies the functor laws: it preserves the identity and
    composition, and never touches the second component. *)
Theorem RT_map_functor_laws (E A B C : Type) (f : A -> B) (g : B -> C)
    (t : RT.ReadonlyTuple2 E A) :
  RT.map function.identity t = t
  /\ RT.map (fun a => g (f a)) t = RT.map g (RT.map f t)
  /\ RT.snd (RT.map f t) = RT.snd t.
Proof. destruct t as [a e]. refine (conj _ (conj _ _)); reflexivity. Qed.

(** X3. [bimap] satisfies the bifunctor laws, and is [mapLeft] and [map]
    composed in either order. *)
Theorem RT_bimap_bifunctor_laws (E G H A B C : Type)
    (f1 : E -> G) (f2 : G -> H) (g1 : A -> B) (g2 : B -> C)
    (t : RT.ReadonlyTuple2 E A) :
  RT.bimap function.identity function.identity t = t
  /\ RT.bimap (fun e => f2 (f1 e)) (fun a => g2 (g1 a)) t
     = RT.bimap f2 g2 (RT.bimap f1 g1 t)
  /\ RT.bimap f1 g1 t = RT.mapLeft f1 (RT.map g1 t)
  /\ RT.bimap f1 g1 t = RT.map g1 (RT.mapLeft f1 t)
  /\ RT.mapLeft f1 t = RT.bimap f1 function.identity t.
Proof.
  destruct t as [a e]. refine (conj _ (conj _ (conj _ (conj _ _)))); reflexivity.
Qed.

(** X4. [extend], [extract] and [duplicate] satisfy the comonad laws. *)
Theorem RT_comonad_laws (E A B C : Type)
    (f : RT.ReadonlyTuple2 E B -> C) (g : RT.ReadonlyTuple2 E A -> B)
    (w : RT.ReadonlyTuple2 E A) :
  RT.extract (RT.extend g w) = g w
  /\ RT.extend RT.extract w = w
  /\ RT.extend f (RT.extend g w) = RT.extend (fun w' => f (RT.extend g w')) w
  /\ RT.extract (RT.duplicate w) = w
  /\ RT.map RT.extract (RT.duplicate w) = w
  /\ RT.extend g w = RT.map g (RT.duplicate w).
Proof.
  destruct w as [a e].
  refine (conj _ (conj _ (conj _ (conj _ (conj _ _))))); reflexivity.
Qed.

(** X5. [compose] is associative (the semigroupoid law), commutes with
    mapping the two components it keeps, and [swap] reverses it. *)
Theorem RT_compose_laws (A B C D A' C' : Type) (ab : RT.ReadonlyTuple2 A B)
    (bc : RT.ReadonlyTuple2 B C) (cd : RT.ReadonlyTuple2 C D)
    (f : A -> A') (g : C -> C') :
  RT.compose (RT.compose ab bc) cd = RT.compose ab (RT.compose bc cd)
  /\ RT.compose (RT.mapLeft f ab) (RT.map g bc)
     = RT.bimap f g (RT.compose ab bc)
  /\ RT.swap (RT.compose ab bc) = RT.compose (RT.swap bc) (RT.swap ab).
Proof.
  destruct ab as [b a], bc as [c b'], cd as [d c'].
  refine (conj _ (conj _ _)); reflexivity.
Qed.

(** X6. For a lawful monoid [M], [getMonad(M)] satisfies the monad laws, and
    its [map] is the one derived from [chain] and [of]. *)
Theorem RT_getMonad_laws (M A B C : Type) (MM : Monoid.Monoid M)
    (HM : Monoid.Lawful MM)
    (a : A) (ma : RT.ReadonlyTuple2 M A)
    (f : A -> RT.ReadonlyTuple2 M B) (g : B -> RT.ReadonlyTuple2 M C)
    (h : A -> B) :
  let chain := @V3.Monad_chain _ (RT.getMonad MM) in
  let of_ := @V3.Monad_of _ (RT.getMonad MM) in
  chain A B f (of_ A a) = f a
  /\ chain A A (of_ A) ma = ma
  /\ chain B C g (chain A B f ma) = chain A C (fun x => chain B C g (f x)) ma
  /\ @V3.Monad_map _ (RT.getMonad MM) A B h ma
     = chain A B (fun x => of_ B (h x)) ma.
Proof.
  destruct HM as (Hassoc & Hleft & Hright).
  destruct ma as [x s]. cbn.
  refine (conj _ (conj _ (conj _ _))).
  - destruct (f a) as [b s']. rewrite Hright. reflexivity.
  - unfold RT.fst, RT.snd; cbn. rewrite Hleft. reflexivity.
  - unfold RT.fst, RT.snd; cbn.
    destruct (f x) as [b s1]; cbn. destruct (g b) as [c s2].
    rewrite Hassoc. reflexivity.
  - unfold RT.map, RT.fst, RT.snd; cbn. rewrite Hleft. reflexivity.
Qed.

(** The laws on lists under concatenation. *)
Lemma RT_getMonad_laws_witness :
  @V3.Monad_chain _ (RT.getMonad Samples.monoidList) _ _ Samples.logArg
    (@V3.Monad_of _ (RT.getMonad Samples.monoidList) _ 3)
  = Samples.logArg 3
  /\ @V3.Monad_chain _ (RT.getMonad Samples.monoidList) _ _ Samples.logDouble
       (@V3.Monad_chain _ (RT.getMonad Samples.monoidList) _ _ Samples.logArg (3, [9]))
     = (8, [4; 4; 3; 9]).
Proof.
  pose proof (@RT_getMonad_laws (list nat) nat nat nat Samples.monoidList
                monoidList_lawful 3 (3, [9]) Samples.logArg Samples.logDouble
                (fun n => n)) as H.
  cbv zeta in H. destruct H as (H1 & _ & H3 & _).
  split.
  - exact H1.
  - rewrite H3. reflexivity.
Defined.

(** X7. For a lawful monoid [M], [getApplicative(M)] satisfies the
    applicative laws: identity, homomorphism, interchange and composition. *)
Theorem RT_getApplicative_laws (M A B C : Type) (MM : Monoid.Monoid M)
    (HM : Monoid.Lawful MM)
    (a : A) (h : A -> B)
    (fa : RT.ReadonlyTuple2 M A)
    (fab : RT.ReadonlyTuple2 M (A -> B))
    (fbc : RT.ReadonlyTuple2 M (B -> C)) :
  let ap := @V3.Applicative_ap _ (RT.getApplicative MM) in
  let of_ := @V3.Applicative_of _ (RT.getApplicative MM) in
  let map := @V3.Applicative_map _ (RT.getApplicative MM) in
  ap A A fa (of_ (A -> A) function.identity) = fa
  /\ ap A B (of_ A a) (of_ (A -> B) h) = of_ B (h a)
  /\ ap A B (of_ A a) fab = ap (A -> B) B fab (of_ ((A -> B) -> B) (fun k => k a))
  /\ ap B C (ap A B fa fab) fbc
     = ap A C fa
         (ap (A -> B) (A -> C) fab
            (map (B -> C) ((A -> B) -> A -> C) (fun bc ab x => bc (ab x)) fbc))
  /\ map A B h fa = ap A B fa (of_ (A -> B) h).
Proof.
  destruct HM as (Hassoc & Hleft & Hright).
  destruct fa as [x s], fab as [k s1], fbc as [l s2]. cbn.
  unfold RT.map, RT.fst, RT.snd, function.identity; cbn.
  refine (conj _ (conj _ (conj _ (conj _ _)))).
  - rewrite Hright. reflexivity.
  - rewrite Hleft. reflexivity.
  - rewrite Hleft, Hright. reflexivity.
  - rewrite Hassoc. reflexivity.
  - rewrite Hright. reflexivity.
Qed.

(** On lists under concatenation: the effects of the value come first. *)
Lemma RT_getApplicative_laws_witness :
  @V3.Applicative_ap _ (RT.getApplicative Samples.monoidList) nat nat (3, [1])
    (@V3.Applicative_ap _ (RT.getApplicative Samples.monoidList) _ _
       (S, [2])
       (@V3.Applicative_map _ (RT.getApplicative Samples.monoidList) _ _
          (fun (bc : nat -> nat) (ab : nat -> nat) x => bc (ab x))
          (Nat.double, [3])))
  = (8, [1; 2; 3]).
Proof.
  pose proof (@RT_getApplicative_laws (list nat) nat nat nat Samples.monoidList
                monoidList_lawful 0 S (3, [1]) (S, [2]) (Nat.double, [3])) as H.
  cbv zeta in H. destruct H as (_ & _ & _ & H4 & _).
  rewrite <- H4. reflexivity.
Defined.

(** X8. The [ap] of [getApply] is the one derived from the [chain] and [map]
    of [getMonad], for any monoid, lawful or not. *)
Theorem RT_ap_derived_from_chain (M A B : Type) (MM : Monoid.Monoid M)
    (fa : RT.ReadonlyTuple2 M A) (fab : RT.ReadonlyTuple2 M (A -> B)) :
  @V3.Apply_ap _ (RT.getApply (Monoid.toSemigroup MM)) A B fa fab
  = @V3.Monad_chain _ (RT.getMonad MM) (A -> B) B
      (fun f => @V3.Monad_map _ (RT.getMonad MM) A B f fa) fab
  /\ @V3.Applicative_ap _ (RT.getApplicative MM) A B fa fab
     = @V3.Apply_ap _ (RT.getApply (Monoid.toSemigroup MM)) A B fa fab.
Proof. destruct fa as [x s], fab as [k s1]. split; reflexivity. Qed.

(** X9. [sequence] is [traverse] with the identity, and [traverse(F)(f)] is
    [map(f)] followed by [sequence(F)], for any [F]. *)
Theorem RT_traverse_sequence (F : Type -> Type) (FA : V3.Applicative F)
    (E A B : Type) (f : A -> F B) (t : RT.ReadonlyTuple2 E A)
    (u : RT.ReadonlyTuple2 E (F A)) :
  RT.sequence FA u = RT.traverse FA function.identity u
  /\ RT.traverse FA f t = RT.sequence FA (RT.map f t).
Proof. destruct t as [a e], u as [fa e']. split; reflexivity. Qed.

(** X10. The three folds agree: for a lawful monoid, [foldMap] is [reduce]
    from [empty] accumulating on the right, and [reduceRight] to [empty]
    accumulating on the left. *)
Theorem RT_foldable_coherent (E A M : Type) (MM : Monoid.Monoid M)
    (HM : Monoid.Lawful MM) (f : A -> M) (fa : RT.ReadonlyTuple2 E A) :
  RT.foldMap MM f fa
  = RT.reduce (Monoid.empty MM) (fun acc a => Monoid.concat MM acc (f a)) fa
  /\ RT.foldMap MM f fa
     = RT.reduceRight (Monoid.empty MM)
         (fun a acc => Monoid.concat MM (f a) acc) fa.
Proof.
  destruct HM as (_ & Hleft & Hright). destruct fa as [a e].
  unfold RT.foldMap, RT.reduce, RT.reduceRight, RT.fst; cbn.
  rewrite Hleft, Hright. split; reflexivity.
Qed.

Lemma RT_foldable_coherent_witness :
  RT.foldMap Samples.monoidList (fun n : nat => [n; n]) (3, tt)
  = RT.reduce [] (fun acc n => acc ++ [n; n]) (3, tt).
Proof.
  apply (proj1 (@RT_foldable_coherent unit nat (list nat) Samples.monoidList
                  monoidList_lawful (fun n => [n; n]) (3, tt))).
Defined.

(* ------------------------------------------------------------------------- *)
(** ** taskify *)
(* ------------------------------------------------------------------------- *)

Section Taskify.

Context {World Reason : Type}.

(** Once the promise is settled, calls to the callback change nothing. *)
Lemma replayed_fulfilled L R (calls : list (option L * R))
    (v : E.Either L R) :
  @Obs.replayed Reason L R calls (JS.Fulfilled v) = JS.Fulfilled v.
Proof.
  unfold Obs.replayed.
  induction calls as [ | [e r] calls IH]; [reflexivity | ].
  cbn [fold_left]. destruct e; cbn; exact IH.
Qed.

Lemma replayed_rejected L R (calls : list (option L * R)) (x : Reason) :
  @Obs.replayed Reason L R calls (JS.Rejected x) = JS.Rejected x.
Proof.
  unfold Obs.replayed.
  induction calls as [ | [e r] calls IH]; [reflexivity | ].
  cbn [fold_left]. destruct e; cbn; exact IH.
Qed.

(** On a pending promise, the first call decides. *)
Lemma replayed_pending L R (calls : list (option L * R)) :
  @Obs.replayed Reason L R calls JS.Pending
  = match calls with
    | (Some l, _) :: _ => JS.Fulfilled (E.Left l)
    | (None, r) :: _ => JS.Fulfilled (E.Right r)
    | [] => JS.Pending
    end.
Proof.
  destruct calls as [ | [[l | ] r] calls]; [reflexivity | | ];
    apply (replayed_fulfilled calls).
Qed.

(** [taskify f args], from what the run of [f] is. *)
Lemma taskify_run Args L R (f : TE.NodeFunction World Reason Args L R)
    (args : Args) (w w' : World) (run : TE.NodeRun Reason L R) :
  f args w = (run, w') ->
  TE.taskify f args w
  = (JS.Returns
       (@Obs.replayed Reason L R (TE.later run)
          match @Obs.replayed Reason L R (TE.sync run) JS.Pending,
                TE.completion run with
          | JS.Pending, JS.Throws x => JS.Rejected x
          | p, _ => p
          end), w').
Proof.
  intros Hrun. unfold TE.taskify, JS.newPromise. cbn [fst snd].
  rewrite Hrun. cbn [fst snd]. fold (@Obs.replayed Reason L R (TE.sync run) JS.Pending).
  destruct (TE.completion run) as [[] | x];
    destruct (@Obs.replayed Reason L R (TE.sync run) JS.Pending); reflexivity.
Qed.

End Taskify.

(** X11. [taskify(f)(args)()] never throws, and what happens first decides
    the outcome. A call of the callback made before [f] returns or throws
    fulfils the promise: [cb(e)] with [e] not null gives [Left e],
    [cb(null, r)] gives [Right r]. Failing that, an exception thrown by [f]
    rejects the promise, whatever the deferred work calls back afterwards.
    Failing that, the first deferred call fulfils it in the same way.
    Calls after the first change nothing, and with no call and no exception
    the promise stays pending. *)
Theorem taskify_first_callback_wins {World Reason : Type} (Args L R : Type)
    (f : TE.NodeFunction World Reason Args L R) (args : Args) (w w' : World)
    (run : TE.NodeRun Reason L R)
    (Hrun : f args w = (run, w')) :
  TE.taskify f args w
  = (JS.Returns
       match TE.sync run with
       | (Some l, _) :: _ => JS.Fulfilled (E.Left l)
       | (None, r) :: _ => JS.Fulfilled (E.Right r)
       | [] =>
           match TE.completion run with
           | JS.Throws x => JS.Rejected x
           | JS.Returns _ =>
               match TE.later run with
               | (Some l, _) :: _ => JS.Fulfilled (E.Left l)
               | (None, r) :: _ => JS.Fulfilled (E.Right r)
               | [] => JS.Pending
               end
           end
       end, w').
Proof.
  rewrite (@taskify_run _ _ _ _ _ f args w w' run Hrun),
    (replayed_pending (TE.sync run)).
  destruct (TE.sync run) as [ | [[l | ] r] calls].
  - destruct (TE.completion run) as [[] | x].
    + rewrite replayed_pending. reflexivity.
    + rewrite replayed_rejected. reflexivity.
  - rewrite replayed_fulfilled. reflexivity.
  - rewrite replayed_fulfilled. reflexivity.
Qed.

(** Three runs: a call with [n + 1], then one with an error, then a throw,
    succeeds with [n + 1]; a throw followed by a deferred call is a
    rejection; a return followed by a deferred error is that failure. *)
Lemma taskify_first_callback_wins_witness :
  TE.taskify Samples.nodeCallsTwice 6 tt = Obs.settled (E.Right 7) tt
  /\ TE.taskify Samples.nodeThrowsThenCalls 6 tt
     = (JS.Returns (JS.Rejected "first"%string), tt)
  /\ TE.taskify Samples.nodeCallsLater 6 tt
     = Obs.settled (E.Left "ENOENT"%string) tt.
Proof.
  refine (conj _ (conj _ _)).
  - apply (@taskify_first_callback_wins unit string nat string nat
             Samples.nodeCallsTwice 6 tt tt _ eq_refl).
  - apply (@taskify_first_callback_wins unit string nat string nat
             Samples.nodeThrowsThenCalls 6 tt tt _ eq_refl).
  - apply (@taskify_first_callback_wins unit string nat string nat
             Samples.nodeCallsLater 6 tt tt _ eq_refl).
Defined.

(* ------------------------------------------------------------------------- *)
(** ** More on the sequential traversal *)
(* ------------------------------------------------------------------------- *)

Section SeqTraversalMore.

Context {World Reason : Type}.

Local Abbreviation TaskEither := (TE.TaskEither World Reason).

Lemma traverseSeq_loop_withIndex A B E (f : nat -> A -> TaskEither E B) arr :
  forall i j result w,
    TE.traverseSeqArrayWithIndex_loop f i arr result w
    = TE.traverseSeqArrayWithIndex_loop
        (fun _ ia => f (fst ia) (snd ia)) j (Obs.withIndexFrom i arr) result w.
Proof.
  induction arr as [ | a arr IH]; intros i j result w; [reflexivity | ].
  unfold Obs.withIndexFrom. cbn [List.length seq combine].
  cbn [TE.traverseSeqArrayWithIndex_loop fst snd].
  destruct (f i a w) as [[[ | [e | b] | r] | x] w1]; try reflexivity.
  apply (IH (S i) (S j)).
Qed.

(** The sequential loop, on computations that all settle, yields what the
    scan of their results yields. *)
Lemma traverseSeq_loop_settle E A B (f : A -> TaskEither E B) arr w rs w' :
  Obs.settleEach f arr w rs w' ->
  forall i result,
    fst (TE.traverseSeqArrayWithIndex_loop (fun _ a => f a) i arr result w)
    = JS.Fulfilled
        (E.traverseArrayWithIndex_loop (fun _ r => function.identity r)
           i rs result).
Proof.
  induction 1 as [w | a rest w x w1 xs w2 Ha Hrest IH]; intros i result.
  - reflexivity.
  - cbn [TE.traverseSeqArrayWithIndex_loop E.traverseArrayWithIndex_loop].
    unfold Obs.settlesTo, Obs.settled in Ha. rewrite Ha.
    unfold function.identity at 1.
    destruct x as [e | b]; [reflexivity | apply IH].
Qed.

End SeqTraversalMore.

(** X12. [traverseSeqArrayWithIndex] hands each element its position in the
    array, counted from [0]: it is [traverseSeqArray] on the array of the
    pairs (position, element). *)
Theorem traverseSeqArrayWithIndex_positions {World Reason : Type}
    (A B E : Type) (f : nat -> A -> TE.TaskEither World Reason E B)
    (arr : list A) (w : World) :
  TE.traverseSeqArrayWithIndex f arr w
  = TE.traverseSeqArray (fun ia => f (fst ia) (snd ia))
      (Obs.withIndexFrom 0 arr) w.
Proof.
  unfold TE.traverseSeqArray, TE.traverseSeqArrayWithIndex.
  rewrite (traverseSeq_loop_withIndex f arr 0 0 [] w). reflexivity.
Qed.

(** X13. In the sequential traversal, an element whose computation throws
    when invoked, or whose promise rejects, makes the traversal return a
    rejected promise (never a thrown exception), and an element whose
    promise stays pending leaves the traversal pending; in each case the
    elements after it are not started. *)
Theorem traverseSeqArray_escape {World Reason : Type} (E A B : Type)
    (f : A -> TE.TaskEither World Reason E B) (pre : list A) (bs : list B)
    (w w1 : World)
    (Hpre : Obs.settleEach f pre w (List.map E.Right bs) w1) :
  (forall x e w2 post,
      f x w1 = (JS.Throws e, w2) ->
      TE.traverseSeqArray f (pre ++ x :: post) w
      = (JS.Returns (JS.Rejected e), w2))
  /\ (forall x e w2 post,
         f x w1 = (JS.Returns (JS.Rejected e), w2) ->
         TE.traverseSeqArray f (pre ++ x :: post) w
         = (JS.Returns (JS.Rejected e), w2))
  /\ (forall x w2 post,
         f x w1 = (JS.Returns JS.Pending, w2) ->
         TE.traverseSeqArray f (pre ++ x :: post) w
         = (JS.Returns JS.Pending, w2)).
Proof.
  assert (Hloop : forall x post,
             TE.traverseSeqArray f (pre ++ x :: post) w
             = (let (p, w2) :=
                  TE.traverseSeqArrayWithIndex_loop (fun _ a => f a)
                    (0 + List.length pre) (x :: post) ([] ++ bs) w1 in
                (JS.Returns p, w2))).
  { intros x post. unfold TE.traverseSeqArray, TE.traverseSeqArrayWithIndex.
    rewrite (traverseSeq_loop_prefix Hpre bs (x :: post) 0 [] eq_refl).
    reflexivity. }
  refine (conj _ (conj _ _)).
  - intros x e w2 post Hx. rewrite Hloop.
    cbn [TE.traverseSeqArrayWithIndex_loop]. rewrite Hx. reflexivity.
  - intros x e w2 post Hx. rewrite Hloop.
    cbn [TE.traverseSeqArrayWithIndex_loop]. rewrite Hx. reflexivity.
  - intros x w2 post Hx. rewrite Hloop.
    cbn [TE.traverseSeqArrayWithIndex_loop]. rewrite Hx. reflexivity.
Qed.

(** On [[1, 2, 3]] with a computation that throws on [2]: a rejected
    promise, and [3] is not in the log. *)
Lemma traverseSeqArray_escape_witness :
  TE.traverseSeqArray Samples.throwsOnTwo [1; 2; 3] []
  = (JS.Returns (JS.Rejected "thrown"%string), [2; 1]).
Proof.
  assert (Hpre : Obs.settleEach Samples.throwsOnTwo [1] []
                   (List.map E.Right [10]) [1]).
  { apply Obs.settleEach_cons with (w1 := [1]).
    - reflexivity.
    - apply Obs.settleEach_nil. }
  apply (proj1 (traverseSeqArray_escape [10] Hpre)
           2 "thrown"%string [2; 1] [3]).
  reflexivity.
Defined.

(** Computations whose results do not depend on the world they are run in
    settle one after the other to those results. *)
Lemma settleEach_of_results {World Reason : Type} (E A B : Type)
    (f : A -> TE.TaskEither World Reason E B) (g : A -> E.Either E B)
    (arr : list A) :
  (forall a w, In a arr -> exists w', f a w = Obs.settled (g a) w') ->
  forall w, exists w', Obs.settleEach f arr w (List.map g arr) w'.
Proof.
  induction arr as [ | a arr IH]; intros Hf w.
  - exists w. apply Obs.settleEach_nil.
  - destruct (Hf a w (or_introl eq_refl)) as (w1 & Ha).
    destruct (IH (fun b v Hb => Hf b v (or_intror Hb)) w1) as (w2 & Hrest).
    exists w2. cbn [List.map].
    apply Obs.settleEach_cons with (w1 := w1); assumption.
Qed.

(** X14. On computations whose result does not depend on the world they
    are run in ([f a] always settles to [g a]), the parallel and the
    sequential traversal return the same [Either], the scan of the results
    in array order: the successes in order, or the failure of the first
    failing element. Nothing is said of the effects, which the two
    traversals do not order alike. *)
Theorem traverseArray_agrees_with_seq {World Reason : Type} (E A B : Type)
    (f : A -> TE.TaskEither World Reason E B) (g : A -> E.Either E B)
    (arr : list A)
    (Hf : forall a w, In a arr -> exists w', f a w = Obs.settled (g a) w')
    (w : World) :
  fst (TE.traverseArray f arr w)
  = JS.Returns (JS.Fulfilled (E.sequenceArray (List.map g arr)))
  /\ fst (TE.traverseSeqArray f arr w)
     = JS.Returns (JS.Fulfilled (E.sequenceArray (List.map g arr))).
Proof.
  destruct (settleEach_of_results f g arr Hf w) as (w' & Hrun).
  split.
  - rewrite (traverseArray_settle Hrun). reflexivity.
  - pose proof (traverseSeq_loop_settle Hrun 0 []) as Hloop.
    unfold TE.traverseSeqArray, TE.traverseSeqArrayWithIndex.
    destruct (TE.traverseSeqArrayWithIndex_loop (fun _ a => f a) 0 arr [] w)
      as [p w2].
    cbn [fst] in *. rewrite Hloop. reflexivity.
Qed.

(** On [[1, 2, 3]] with an [f] failing on [2], both give the failure of
    [f 2]. *)
Lemma traverseArray_agrees_with_seq_witness :
  fst (TE.traverseArray Fix.failsOnTwo [1; 2; 3] [])
  = JS.Returns (JS.Fulfilled (E.Left "two"%string))
  /\ fst (TE.traverseSeqArray Fix.failsOnTwo [1; 2; 3] [])
     = JS.Returns (JS.Fulfilled (E.Left "two"%string)).
Proof.
  apply (@traverseArray_agrees_with_seq Fix.Log string string nat nat
           Fix.failsOnTwo
           (fun n => if Nat.eqb n 2 then E.Left "two"%string
                     else E.Right (n * 10))
           [1; 2; 3]).
  intros a w _. exists (Fix.record a w).
  unfold Fix.failsOnTwo, Obs.spy. destruct (Nat.eqb a 2); reflexivity.
Defined.

(* ------------------------------------------------------------------------- *)
(** ** More on mapping, sequencing and recovery *)
(* ------------------------------------------------------------------------- *)

Section MoreRunning.

Context {World Reason : Type}.

Local Abbreviation TaskEither := (TE.TaskEither World Reason).

(** [map f ma]: [ma] is invoked and [f] applied to its success. *)
Lemma TE_map_run E A B (f : A -> B) (ma : TaskEither E A) w :
  TE.map f ma w =
  match ma w with
  | (JS.Returns (JS.Fulfilled r), w') => Obs.settled (E.map f r) w'
  | (JS.Returns JS.Pending, w') => (JS.Returns JS.Pending, w')
  | (JS.Returns (JS.Rejected r), w') => (JS.Returns (JS.Rejected r), w')
  | (JS.Throws x, w') => (JS.Throws x, w')
  end.
Proof. apply (T_map_run (E.map f) ma w). Qed.

(** [orElse onLeft ma]: [ma] is invoked; [onLeft] only on its failure. *)
Lemma orElse_run E A M (onLeft : E -> TaskEither M A) (ma : TaskEither E A) w :
  TE.orElse onLeft ma w =
  match ma w with
  | (JS.Returns (JS.Fulfilled (E.Left e)), w') =>
      let (q, w'') := JS.absorb (onLeft e w') in (JS.Returns q, w'')
  | (JS.Returns (JS.Fulfilled (E.Right a)), w') => Obs.settled (E.Right a) w'
  | (JS.Returns JS.Pending, w') => (JS.Returns JS.Pending, w')
  | (JS.Returns (JS.Rejected r), w') => (JS.Returns (JS.Rejected r), w')
  | (JS.Throws x, w') => (JS.Throws x, w')
  end.
Proof.
  unfold TE.orElse, ET.orElse_; cbn.
  unfold T._chain, function.pipe, T.chain, JS.andThen.
  destruct (ma w) as [[[ | [e | a] | r] | x] w']; cbn; reflexivity.
Qed.

(** [alt that fa]: [fa] is invoked; [that] only on its failure. *)
Lemma alt_run E A (that : unit -> TaskEither E A) (fa : TaskEither E A) w :
  TE.alt that fa w =
  match fa w with
  | (JS.Returns (JS.Fulfilled (E.Left e)), w') =>
      let (q, w'') := JS.absorb (that tt w') in (JS.Returns q, w'')
  | (JS.Returns (JS.Fulfilled (E.Right a)), w') => Obs.settled (E.Right a) w'
  | (JS.Returns JS.Pending, w') => (JS.Returns JS.Pending, w')
  | (JS.Returns (JS.Rejected r), w') => (JS.Returns (JS.Rejected r), w')
  | (JS.Throws x, w') => (JS.Throws x, w')
  end.
Proof.
  unfold TE.alt, ET.alt_; cbn.
  unfold T._chain, function.pipe, T.chain, JS.andThen.
  destruct (fa w) as [[[ | [e | a] | r] | x] w']; cbn; reflexivity.
Qed.

End MoreRunning.

(** X15. [map] satisfies the functor laws, outcome for outcome: mapping the
    identity changes nothing, and mapping a composition is mapping twice. *)
Theorem map_functor_laws {World Reason : Type} (E A B C : Type)
    (f : A -> B) (g : B -> C) (ma : TE.TaskEither World Reason E A)
    (w : World) :
  TE.map function.identity ma w = ma w
  /\ TE.map (fun a => g (f a)) ma w = TE.map g (TE.map f ma) w.
Proof.
  rewrite !TE_map_run.
  destruct (ma w) as [[[ | [e | a] | r] | x] w']; split; reflexivity.
Qed.

(** X16. [map] is [chain] with a function that always succeeds:
    [map(f)(ma)] runs exactly as [chain((a) => right(f(a)))(ma)]. *)
Theorem map_is_chain_right {World Reason : Type} (E A B : Type)
    (f : A -> B) (ma : TE.TaskEither World Reason E A) (w : World) :
  TE.map f ma w = TE.chain (fun a => TE.right (f a)) ma w.
Proof.
  rewrite TE_map_run, chain_run.
  destruct (ma w) as [[[ | [e | a] | r] | x] w']; reflexivity.
Qed.



(** X18. [filterOrElse(predicate, onFalse)]: a failure passes through
    untouched; a success [a] is kept when [predicate a] holds and is turned
    into the failure [onFalse a] otherwise; no effect is added. *)
Theorem filterOrElse_spec {World Reason : Type} (E A : Type)
    (predicate : A -> bool) (onFalse : A -> E)
    (ma : TE.TaskEither World Reason E A) (w w1 : World) (r : E.Either E A)
    (Hma : ma w = Obs.settled r w1) :
  TE.filterOrElse predicate onFalse ma w
  = Obs.settled
      match r with
      | E.Left e => E.Left e
      | E.Right a => if predicate a then E.Right a else E.Left (onFalse a)
      end w1.
Proof.
  unfold TE.filterOrElse, TE.chainW. rewrite chain_run, Hma.
  destruct r as [e | a]; [reflexivity | ].
  cbn. destruct (predicate a); reflexivity.
Qed.

Lemma filterOrElse_spec_witness :
  TE.filterOrElse (fun n => Nat.ltb 0 n) (fun _ => "not positive"%string)
    (@TE.right unit string string nat 0) tt
  = Obs.settled (E.Left "not positive"%string) tt.
Proof.
  apply (@filterOrElse_spec unit string string nat (fun n => Nat.ltb 0 n)
           (fun _ => "not positive"%string) (TE.right 0) tt tt (E.Right 0)
           eq_refl).
Defined.

(** X19. [chainEitherK(f)]: a failure passes through untouched and a success
    [a] becomes [f a], with no effect added. *)
Theorem chainEitherK_spec {World Reason : Type} (E A B : Type)
    (f : A -> E.Either E B)
    (ma : TE.TaskEither World Reason E A) (w w1 : World) (r : E.Either E A)
    (Hma : ma w = Obs.settled r w1) :
  TE.chainEitherK f ma w
  = Obs.settled
      match r with
      | E.Left e => E.Left e
      | E.Right a => f a
      end w1.
Proof.
  unfold TE.chainEitherK, TE.chainW, TE.fromEitherK.
  rewrite chain_run, Hma.
  destruct r as [e | a]; [reflexivity | ].
  cbn. destruct (f a); reflexivity.
Qed.

Lemma chainEitherK_spec_witness :
  TE.chainEitherK
    (fun n => if Nat.eqb n 0 then E.Left "zero"%string else E.Right (n - 1))
    (@TE.right unit string string nat 3) tt
  = Obs.settled (E.Right 2) tt.
Proof.
  apply (@chainEitherK_spec unit string string nat nat
           (fun n => if Nat.eqb n 0 then E.Left "zero"%string
                     else E.Right (n - 1))
           (TE.right 3) tt tt (E.Right 3) eq_refl).
Defined.

(** X20. [orElse(onLeft)]: a success passes through without [onLeft] being
    invoked; on a failure [e] the result is what [onLeft e] settles to, run
    from the world the first computation left; and recovering with [left]
    changes nothing. *)
Theorem orElse_spec {World Reason : Type} (E M A : Type)
    (onLeft : E -> TE.TaskEither World Reason M A)
    (ma : TE.TaskEither World Reason E A) (w : World) :
  (forall a w1 (record : E -> World -> World),
      ma w = Obs.settled (E.Right a) w1 ->
      TE.orElse (Obs.spy record onLeft) ma w = Obs.settled (E.Right a) w1)
  /\ (forall e w1 r w2,
         ma w = Obs.settled (E.Left e) w1 ->
         onLeft e w1 = Obs.settled r w2 ->
         TE.orElse onLeft ma w = Obs.settled r w2)
  /\ TE.orElse TE.left ma w = ma w.
Proof.
  refine (conj _ (conj _ _)).
  - intros a w1 record Hma.
    rewrite (orElse_run (Obs.spy record onLeft) ma w), Hma. reflexivity.
  - intros e w1 r w2 Hma Hon.
    rewrite (orElse_run onLeft ma w), Hma. unfold Obs.settled.
    rewrite Hon. reflexivity.
  - rewrite (orElse_run (@TE.left World Reason E A) ma w).
    destruct (ma w) as [[[ | [e | a] | r] | x] w']; reflexivity.
Qed.

(** The example of the documentation of [orElse]. *)
Lemma orElse_spec_witness :
  TE.orElse
    (fun error => @TE.right unit string string string
                    (String.append "recovering from " error))
    (@TE.right unit string string string "ok"%string) tt
  = Obs.settled (E.Right "ok"%string) tt
  /\ TE.orElse
       (fun error => @TE.right unit string string string
                       (String.append "recovering from " error))
       (TE.left "ko"%string) tt
     = Obs.settled (E.Right "recovering from ko"%string) tt.
Proof.
  split.
  - apply (proj1 (@orElse_spec unit string string string string
                    (fun error => TE.right
                                    (String.append "recovering from " error))
                    (TE.right "ok"%string) tt)
             "ok"%string tt (fun _ w => w)).
    reflexivity.
  - apply (proj1 (proj2 (@orElse_spec unit string string string string
                    (fun error => TE.right
                                    (String.append "recovering from " error))
                    (TE.left "ko"%string) tt))
             "ko"%string tt (E.Right "recovering from ko"%string) tt
             eq_refl eq_refl).
Defined.

(** X21. [alt(that)]: a success passes through without [that] being called;
    on a failure the result is what [that()] settles to, the first failure
    being dropped; and [alt] is associative, outcome for outcome. *)
Theorem alt_spec {World Reason : Type} (E A : Type)
    (that other : unit -> TE.TaskEither World Reason E A)
    (fa : TE.TaskEither World Reason E A) (w : World) :
  (forall a w1 (record : unit -> World -> World),
      fa w = Obs.settled (E.Right a) w1 ->
      TE.alt (Obs.spy record that) fa w = Obs.settled (E.Right a) w1)
  /\ (forall e w1 r w2,
         fa w = Obs.settled (E.Left e) w1 ->
         that tt w1 = Obs.settled r w2 ->
         TE.alt that fa w = Obs.settled r w2)
  /\ TE.alt other (TE.alt that fa) w
     = TE.alt (fun _ => TE.alt other (that tt)) fa w.
Proof.
  refine (conj _ (conj _ _)).
  - intros a w1 record Hfa. rewrite alt_run, Hfa. reflexivity.
  - intros e w1 r w2 Hfa Hthat. rewrite alt_run, Hfa. unfold Obs.settled.
    rewrite Hthat. reflexivity.
  - rewrite (alt_run other), (alt_run that),
      (alt_run (fun _ => TE.alt other (that tt))).
    destruct (fa w) as [[[ | [e | a] | r] | x] w']; try reflexivity.
    rewrite (alt_run other).
    destruct (that tt w') as [[[ | [e' | b] | r] | x] w1]; cbn;
      try reflexivity.
    destruct (JS.absorb (other tt w1)) as [q w2]; reflexivity.
Qed.

(** The three examples of the documentation of [alt]. *)
Lemma alt_spec_witness :
  TE.alt (fun _ => TE.right 2) (@TE.right unit string string nat 1) tt
  = Obs.settled (E.Right 1) tt
  /\ TE.alt (fun _ => TE.right 2) (@TE.left unit string string nat "a"%string) tt
     = Obs.settled (E.Right 2) tt
  /\ TE.alt (fun _ => TE.left "b"%string)
       (@TE.left unit string string nat "a"%string) tt
     = Obs.settled (E.Left "b"%string) tt.
Proof.
  refine (conj _ (conj _ _)).
  - apply (proj1 (@alt_spec unit string string nat (fun _ => TE.right 2)
                    (fun _ => TE.right 2) (TE.right 1) tt)
             1 tt (fun _ w => w)).
    reflexivity.
  - apply (proj1 (proj2 (@alt_spec unit string string nat
                           (fun _ => TE.right 2) (fun _ => TE.right 2)
                           (TE.left "a"%string) tt))
             "a"%string tt (E.Right 2) tt eq_refl eq_refl).
  - apply (proj1 (proj2 (@alt_spec unit string string nat
                           (fun _ => TE.left "b"%string) (fun _ => TE.right 2)
                           (TE.left "a"%string) tt))
             "a"%string tt (E.Left "b"%string) tt eq_refl eq_refl).
Defined.

(** X22. [bracket] guarantees the release only when [use] settles: if the
    computation of [use] throws when invoked, or its promise rejects, the
    whole [bracket] is a rejected promise and [release] is not invoked. *)
Theorem bracket_use_escapes {World Reason : Type} (E A B : Type)
    (acquire : TE.TaskEither World Reason E A)
    (use : A -> TE.TaskEither World Reason E B)
    (release : A -> E.Either E B -> TE.TaskEither World Reason E unit)
    (w w1 : World) (a : A)
    (Hacquire : acquire w = Obs.settled (E.Right a) w1) :
  (forall x w2 recordRelease,
      use a w1 = (JS.Throws x, w2) ->
      TE.bracket acquire use (Obs.spy2 recordRelease release) w
      = (JS.Returns (JS.Rejected x), w2))
  /\ (forall x w2 recordRelease,
         use a w1 = (JS.Returns (JS.Rejected x), w2) ->
         TE.bracket acquire use (Obs.spy2 recordRelease release) w
         = (JS.Returns (JS.Rejected x), w2)).
Proof.
  split; intros x w2 recordRelease Hu; unfold TE.bracket, function.pipe;
    rewrite chain_run, Hacquire; unfold Obs.settled;
    rewrite chain_run, T_map_run, Hu; reflexivity.
Qed.

Lemma bracket_use_escapes_witness :
  TE.bracket Fix.acquireOk
    (fun _ w => (JS.Throws "use threw"%string, "use"%string :: w))
    Fix.releaseOk []
  = (JS.Returns (JS.Rejected "use threw"%string), ["use"; "acquire"]%string).
Proof.
  apply (proj1 (@bracket_use_escapes Fix.Journal string string nat nat
                  Fix.acquireOk
                  (fun _ w => (JS.Throws "use threw"%string,
                               "use"%string :: w))
                  Fix.releaseOk [] ["acquire"%string] 7 eq_refl)
           "use threw"%string ["use"; "acquire"]%string (fun _ _ w => w)).
  reflexivity.
Defined.

(** X23. The [alt] of [getAltTaskValidation(S)]: a success passes through
    without the alternative being called; when the first computation fails
    with [e1] the alternative is run, its success is the result, and its
    failure [e2] gives the failure [S.concat e1 e2]. *)
Theorem altValidation_spec {World Reason : Type} (E A : Type)
    (S : Semigroup.Semigroup E)
    (fa : TE.TaskEither World Reason E A)
    (that : unit -> TE.TaskEither World Reason E A) (w : World) :
  (forall a w1 (record : unit -> World -> World),
      fa w = Obs.settled (E.Right a) w1 ->
      Alt.alt (TE.getAltTaskValidation S) fa (Obs.spy record that) w
      = Obs.settled (E.Right a) w1)
  /\ (forall e1 w1 b w2,
         fa w = Obs.settled (E.Left e1) w1 ->
         that tt w1 = Obs.settled (E.Right b) w2 ->
         Alt.alt (TE.getAltTaskValidation S) fa that w
         = Obs.settled (E.Right b) w2)
  /\ (forall e1 w1 e2 w2,
         fa w = Obs.settled (E.Left e1) w1 ->
         that tt w1 = Obs.settled (E.Left e2) w2 ->
         Alt.alt (TE.getAltTaskValidation S) fa that w
         = Obs.settled (E.Left (Semigroup.concat S e1 e2)) w2).
Proof.
  refine (conj _ (conj _ _)).
  - intros a w1 record Hfa. cbn. unfold function.pipe, ET.altValidation_. cbn.
    unfold T._chain, function.pipe. rewrite T_chain_run, Hfa. reflexivity.
  - intros e1 w1 b w2 Hfa Hthat. cbn.
    unfold function.pipe, ET.altValidation_. cbn.
    unfold T._chain, T._map, function.pipe. rewrite T_chain_run, Hfa.
    unfold Obs.settled. rewrite T_map_run, Hthat. reflexivity.
  - intros e1 w1 e2 w2 Hfa Hthat. cbn.
    unfold function.pipe, ET.altValidation_. cbn.
    unfold T._chain, T._map, function.pipe. rewrite T_chain_run, Hfa.
    unfold Obs.settled. rewrite T_map_run, Hthat. reflexivity.
Qed.

Lemma altValidation_spec_witness :
  Alt.alt (TE.getAltTaskValidation Fix.semigroupString)
    (@TE.left unit string string nat "a"%string)
    (fun _ => TE.left "b"%string) tt
  = Obs.settled (E.Left "ab"%string) tt.
Proof.
  apply (proj2 (proj2 (@altValidation_spec unit string string nat
                         Fix.semigroupString (TE.left "a"%string)
                         (fun _ => TE.left "b"%string) tt))
           "a"%string tt "b"%string tt eq_refl eq_refl).
Defined.

(** X24. The [ap] of [getApplicativeTaskValidation(A, S)], for [A] one of
    the two [Apply] instances of [Task], runs both sides whatever the
    function side settles to; a single failure is returned as it is, and
    two successes give the application of the one to the other. *)
Theorem validation_single_failure {World Reason : Type} (E X Y : Type)
    (A : Apply.Apply (T.Task World Reason)) (S : Semigroup.Semigroup E)
    (fab : TE.TaskEither World Reason E (X -> Y))
    (fa : TE.TaskEither World Reason E X)
    (w w1 w2 : World) (rf : E.Either E (X -> Y)) (ra : E.Either E X)
    (HA : A = T.ApplyPar \/ A = T.ApplySeq)
    (Hfab : fab w = Obs.settled rf w1)
    (Hfa : fa w1 = Obs.settled ra w2) :
  (forall e1 x, rf = E.Left e1 -> ra = E.Right x ->
     Applicative.ap (TE.getApplicativeTaskValidation A S) fab fa w
     = Obs.settled (E.Left e1) w2)
  /\ (forall f e2, rf = E.Right f -> ra = E.Left e2 ->
        Applicative.ap (TE.getApplicativeTaskValidation A S) fab fa w
        = Obs.settled (E.Left e2) w2)
  /\ (forall f x, rf = E.Right f -> ra = E.Right x ->
        Applicative.ap (TE.getApplicativeTaskValidation A S) fab fa w
        = Obs.settled (E.Right (f x)) w2).
Proof.
  assert (H : Applicative.ap (TE.getApplicativeTaskValidation A S) fab fa w
              = Obs.settled
                  (Applicative.ap (E.getApplicativeValidation S) rf ra) w2).
  { cbn. unfold function.pipe.
    rewrite (@Apply_ap_settle _ _ A _
               (Applicative.toApply (E.getApplicativeValidation S))
               _ _ fa fab _ _ _ _ _ HA Hfab Hfa).
    reflexivity. }
  refine (conj _ (conj _ _)); intros ? ? -> ->; exact H.
Qed.

Lemma validation_single_failure_witness :
  Applicative.ap
    (TE.getApplicativeTaskValidation T.ApplySeq Fix.semigroupString)
    (@TE.left Fix.Journal string string (nat -> nat) "a"%string)
    (Fix.logged "value"%string (E.Right 1)) []
  = Obs.settled (E.Left "a"%string) ["value"%string].
Proof.
  apply (proj1 (@validation_single_failure Fix.Journal string string nat nat
                  T.ApplySeq Fix.semigroupString (TE.left "a"%string)
                  (Fix.logged "value"%string (E.Right 1))
                  [] [] ["value"%string] (E.Left "a"%string) (E.Right 1)
                  (or_intror eq_refl) eq_refl eq_refl)
           "a"%string 1 eq_refl eq_refl).
Defined.

(* ------------------------------------------------------------------------- *)
(** ** Monoid.ts: the monoids built are monoids *)
(* ------------------------------------------------------------------------- *)

Section Monoids.

Variable A : Type.
Variable M : Monoid.Monoid A.
Hypothesis HM : Monoid.Lawful M.

(** Folding from [a] is combining [a] with the fold from [empty]. *)
Lemma fold_left_concat (xs : list A) :
  forall a,
    fold_left (Monoid.concat M) xs a
    = Monoid.concat M a (fold_left (Monoid.concat M) xs (Monoid.empty M)).
Proof.
  destruct HM as (Hassoc & Hleft & Hright).
  induction xs as [ | x xs IH]; intros a; cbn [fold_left].
  - rewrite Hright. reflexivity.
  - rewrite (IH (Monoid.concat M a x)), (IH (Monoid.concat M (Monoid.empty M) x)).
    rewrite Hleft, Hassoc. reflexivity.
Qed.

End Monoids.

(** X25. [fold(M)], with [foldSemigroup] the left fold with [concat], is a
    monoid homomorphism from arrays when [M] is lawful: the empty array
    gives [empty], a one-element array its element, and the fold of a
    concatenation is the [concat] of the folds. *)
Theorem Monoid_fold_homomorphism (A : Type)
    (foldSemigroup : Semigroup.Semigroup A -> A -> list A -> A)
    (M : Monoid.Monoid A)
    (Hfold : forall S a xs,
        foldSemigroup S a xs = fold_left (Semigroup.concat S) xs a)
    (HM : Monoid.Lawful M) :
  Monoid.fold foldSemigroup M [] = Monoid.empty M
  /\ (forall x, Monoid.fold foldSemigroup M [x] = x)
  /\ (forall xs ys,
         Monoid.fold foldSemigroup M (xs ++ ys)
         = Monoid.concat M (Monoid.fold foldSemigroup M xs)
             (Monoid.fold foldSemigroup M ys)).
Proof.
  unfold Monoid.fold. refine (conj _ (conj _ _)).
  - rewrite Hfold. reflexivity.
  - intros x. rewrite Hfold. cbn. apply HM.
  - intros xs ys. rewrite !Hfold. cbn [Monoid.toSemigroup Semigroup.concat].
    rewrite fold_left_app. apply (fold_left_concat HM).
Qed.

Lemma Monoid_fold_homomorphism_witness :
  Monoid.fold Samples.foldSemigroup Samples.monoidList ([[1]; [2; 3]] ++ [[4]])
  = [1; 2; 3] ++ [4].
Proof.
  apply (proj2 (proj2 (@Monoid_fold_homomorphism (list nat)
                         Samples.foldSemigroup Samples.monoidList
                         (fun _ _ _ => eq_refl) monoidList_lawful))
           [[1]; [2; 3]] [[4]]).
Defined.

(** X26. [getTupleMonoid(MA, MB)], with [getTupleSemigroup] the
    componentwise semigroup, is a lawful monoid when [MA] and [MB] are: the
    pair of the two [empty]s is the identity of the componentwise [concat]. *)
Theorem Monoid_getTupleMonoid_lawful (A B : Type)
    (getTupleSemigroup : Semigroup.Semigroup A -> Semigroup.Semigroup B ->
                         Semigroup.Semigroup (A * B))
    (MA : Monoid.Monoid A) (MB : Monoid.Monoid B)
    (Htuple : forall SA SB x y,
        Semigroup.concat (getTupleSemigroup SA SB) x y
        = (Semigroup.concat SA (fst x) (fst y),
           Semigroup.concat SB (snd x) (snd y)))
    (HA : Monoid.Lawful MA) (HB : Monoid.Lawful MB) :
  Monoid.Lawful (Monoid.getTupleMonoid getTupleSemigroup MA MB).
Proof.
  destruct HA as (HAa & HAl & HAr), HB as (HBa & HBl & HBr).
  unfold Monoid.Lawful, Monoid.getTupleMonoid; cbn.
  refine (conj _ (conj _ _)).
  - intros [a1 b1] [a2 b2] [a3 b3]. rewrite !Htuple. cbn.
    rewrite HAa, HBa. reflexivity.
  - intros [a b]. rewrite Htuple. cbn. rewrite HAl, HBl. reflexivity.
  - intros [a b]. rewrite Htuple. cbn. rewrite HAr, HBr. reflexivity.
Qed.

Lemma monoidPlus_lawful : Monoid.Lawful Samples.monoidPlus.
Proof.
  refine (conj _ (conj _ _)); cbn; intros; lia.
Qed.

Lemma Monoid_getTupleMonoid_lawful_witness :
  Monoid.Lawful
    (Monoid.getTupleMonoid Samples.getTupleSemigroup Samples.monoidList
       Samples.monoidPlus).
Proof.
  apply (@Monoid_getTupleMonoid_lawful (list nat) nat
           Samples.getTupleSemigroup Samples.monoidList Samples.monoidPlus
           (fun _ _ _ _ => eq_refl) monoidList_lawful monoidPlus_lawful).
Defined.

(** X27. [getDualMonoid(M)], with [getDualSemigroup] the semigroup with the
    arguments exchanged, is a lawful monoid when [M] is, with the same
    [empty]; and taking the dual twice gives back the [concat] of [M]. *)
Theorem Monoid_getDualMonoid_lawful (A : Type)
    (getDualSemigroup : Semigroup.Semigroup A -> Semigroup.Semigroup A)
    (M : Monoid.Monoid A)
    (Hdual : forall S x y,
        Semigroup.concat (getDualSemigroup S) x y = Semigroup.concat S y x)
    (HM : Monoid.Lawful M) :
  Monoid.Lawful (Monoid.getDualMonoid getDualSemigroup M)
  /\ (forall x y,
         Monoid.concat
           (Monoid.getDualMonoid getDualSemigroup
              (Monoid.getDualMonoid getDualSemigroup M)) x y
         = Monoid.concat M x y).
Proof.
  destruct HM as (Hassoc & Hleft & Hright).
  unfold Monoid.Lawful, Monoid.getDualMonoid; cbn.
  refine (conj (conj _ (conj _ _)) _).
  - intros x y z. rewrite !Hdual. cbn. rewrite Hassoc. reflexivity.
  - intros x. rewrite Hdual. cbn. apply Hright.
  - intros x. rewrite Hdual. cbn. apply Hleft.
  - intros x y. rewrite !Hdual. cbn. rewrite Hdual. reflexivity.
Qed.

Lemma Monoid_getDualMonoid_lawful_witness :
  Monoid.concat (Monoid.getDualMonoid Samples.getDualSemigroup
                   Samples.monoidList) [1] [2]
  = [2; 1]
  /\ Monoid.Lawful (Monoid.getDualMonoid Samples.getDualSemigroup
                      Samples.monoidList).
Proof.
  split; [reflexivity | ].
  apply (proj1 (@Monoid_getDualMonoid_lawful (list nat)
                  Samples.getDualSemigroup Samples.monoidList
                  (fun _ _ _ => eq_refl) monoidList_lawful)).
Defined.

(** X28. [getFunctionMonoid(M)()], with [getFunctionSemigroup] the pointwise
    semigroup, satisfies the monoid laws at every argument when [M] is
    lawful: the constant function [() => M.empty] is the identity. *)
Theorem Monoid_getFunctionMonoid_lawful (M A : Type)
    (getFunctionSemigroup : Semigroup.Semigroup M ->
                            Semigroup.Semigroup (A -> M))
    (MM : Monoid.Monoid M)
    (Hfun : forall S f g a,
        Semigroup.concat (getFunctionSemigroup S) f g a
        = Semigroup.concat S (f a) (g a))
    (HM : Monoid.Lawful MM) :
  let FM := Monoid.getFunctionMonoid getFunctionSemigroup MM in
  (forall f g h a,
      Monoid.concat FM (Monoid.concat FM f g) h a
      = Monoid.concat FM f (Monoid.concat FM g h) a)
  /\ (forall f a, Monoid.concat FM (Monoid.empty FM) f a = f a)
  /\ (forall f a, Monoid.concat FM f (Monoid.empty FM) a = f a).
Proof.
  destruct HM as (Hassoc & Hleft & Hright).
  cbn. refine (conj _ (conj _ _)).
  - intros f g h a. repeat (rewrite Hfun; cbn). apply Hassoc.
  - intros f a. rewrite Hfun. cbn. apply Hleft.
  - intros f a. rewrite Hfun. cbn. apply Hright.
Qed.

Lemma Monoid_getFunctionMonoid_lawful_witness :
  Monoid.concat
    (Monoid.getFunctionMonoid Samples.getFunctionSemigroup Samples.monoidList)
    (Monoid.empty
       (Monoid.getFunctionMonoid Samples.getFunctionSemigroup
          Samples.monoidList))
    (fun n : nat => [n; n]) 3
  = [3; 3].
Proof.
  pose proof (@Monoid_getFunctionMonoid_lawful (list nat) nat
                Samples.getFunctionSemigroup Samples.monoidList
                (fun _ _ _ _ => eq_refl) monoidList_lawful) as H.
  cbv zeta in H. apply (proj1 (proj2 H) (fun n : nat => [n; n]) 3).
Defined.

(* ------------------------------------------------------------------------- *)
(** ** Failures are captured into [Left] *)
(* ------------------------------------------------------------------------- *)

Section Captured.

Context {World Reason : Type}.

Local Abbreviation Task := (T.Task World Reason).
Local Abbreviation TaskEither := (TaskEither.TaskEither World Reason).
Local Abbreviation Fn := (JSF.Fn Reason).
Local Abbreviation returns := (@Capture.returns Reason).
Local Abbreviation yields := (@Capture.yields World Reason).
Local Abbreviation neverEscapes := (@Obs.neverEscapes World Reason).

Ltac run H w :=
  let p := fresh "p" in
  let w' := fresh "w" in
  let Heq := fresh "Heq" in
  let Hp := fresh "Hp" in
  destruct (neverEscapes_inv H w) as (p & w' & Heq & Hp);
  rewrite Heq; destruct p; cbn in Hp; try contradiction.

Ltac done := eexists; eexists; (split; [reflexivity | exact I]).

Lemma neverEscapes_captured X (t : Task X) :
  Obs.neverEscapes t -> Capture.captured t.
Proof.
  intros H w. destruct (neverEscapes_inv H w) as (p & w' & Heq & Hp).
  exists w'. rewrite Heq. destruct p as [ | x | r]; cbn in Hp.
  - left; reflexivity.
  - right; exists x; reflexivity.
  - contradiction.
Qed.

Lemma captured_neverEscapes X (t : Task X) :
  Capture.captured t -> Obs.neverEscapes t.
Proof.
  intros H w. destruct (H w) as (w' & [Heq | (x & Heq)]); rewrite Heq;
    unfold Obs.escapes; cbn; tauto.
Qed.

Lemma returns_next A B (c : JS.Completion Reason A)
    (k : A -> JS.Completion Reason B) :
  returns c -> (forall a, c = JS.Returns a -> returns (k a)) ->
  returns (JSF.next c k).
Proof. intros [a ->] Hk. cbn. apply Hk. reflexivity. Qed.

Lemma returns_total A B (f : A -> B) a : returns (JSF.total (Reason:=Reason) f a).
Proof. eexists; reflexivity. Qed.

Lemma ne_TJ_map A B (f : Fn A B) (fa : Task A) :
  Obs.neverEscapes fa -> (forall a, yields fa a -> returns (f a)) ->
  Obs.neverEscapes (TJ.map f fa).
Proof.
  intros H Hf. apply neverEscapes_intro. intros w.
  unfold TJ.map, JS.andThen.
  destruct (neverEscapes_inv H w) as (p & w' & Heq & Hp). rewrite Heq.
  destruct p as [ | a | r]; cbn in Hp; try contradiction; cbn.
  - done.
  - unfold JSF.react. destruct (Hf a) as [b Hb].
    + exists w, w'. exact Heq.
    + rewrite Hb. cbn. done.
Qed.

Lemma yields_TJ_map A B (f : Fn A B) (fa : Task A) b :
  yields (TJ.map f fa) b ->
  exists a, yields fa a /\ f a = JS.Returns b.
Proof.
  intros (w & w' & H). unfold TJ.map, JS.andThen in H.
  destruct (fa w) as [[[ | a | r] | x] w1] eqn:Hfa; cbn in H;
    try discriminate.
  unfold JSF.react in H. destruct (f a) as [b' | x] eqn:Hf; cbn in H;
    try discriminate.
  exists a. split.
  - exists w, w1. exact Hfa.
  - unfold Obs.settled in H. congruence.
Qed.

Lemma ne_TJ_ap A B (fa : Task A) (fab : Task (Fn A B)) :
  Obs.neverEscapes fa -> Obs.neverEscapes fab ->
  (forall f a, yields fab f -> yields fa a -> returns (f a)) ->
  Obs.neverEscapes (TJ.ap fa fab).
Proof.
  intros Ha Hf Hr. apply neverEscapes_intro. intros w. unfold TJ.ap.
  destruct (neverEscapes_inv Hf w) as (pf & w1 & Heqf & Hpf). rewrite Heqf.
  unfold JS.andThen.
  destruct (neverEscapes_inv Ha w1) as (pa & w2 & Heqa & Hpa). rewrite Heqa.
  destruct pf as [ | f | r]; cbn in Hpf; try contradiction;
    destruct pa as [ | a | r]; cbn in Hpa; try contradiction; cbn;
    try done.
  unfold JSF.react. cbn. destruct (Hr f a) as [b Hb].
  - exists w, w1. exact Heqf.
  - exists w1, w2. exact Heqa.
  - rewrite Hb. cbn. done.
Qed.

Lemma ne_chain_yields A B (f : A -> Task B) (ma : Task A) :
  Obs.neverEscapes ma -> (forall a, yields ma a -> Obs.neverEscapes (f a)) ->
  Obs.neverEscapes (T.chain f ma).
Proof.
  intros H Hf. apply neverEscapes_intro. intros w.
  rewrite T_chain_run.
  destruct (neverEscapes_inv H w) as (p & w' & Heq & Hp). rewrite Heq.
  destruct p as [ | a | r]; cbn in Hp; try contradiction; [done | ].
  assert (Hy : yields ma a) by (exists w, w'; exact Heq).
  run (Hf a Hy) w'; done.
Qed.

Lemma ne_TaskEither_chain_yields E A B (f : A -> TaskEither E B)
    (ma : TaskEither E A) :
  Obs.neverEscapes ma ->
  (forall a, yields ma (E.Right a) -> Obs.neverEscapes (f a)) ->
  Obs.neverEscapes (TaskEither.chain f ma).
Proof.
  intros Hma Hf. unfold TaskEither.chain, TE.chain, ET.chain_. cbn.
  unfold T._chain, function.pipe.
  apply ne_chain_yields; [exact Hma | ].
  intros [l | a] Hy; [apply ne_of | apply Hf; exact Hy].
Qed.

Lemma ne_TJ_apSeq A B (fa : Task A) (fab : Task (Fn A B)) :
  Obs.neverEscapes fa -> Obs.neverEscapes fab ->
  (forall f a, yields fab f -> yields fa a -> returns (f a)) ->
  Obs.neverEscapes (TJ.apSeq fa fab).
Proof.
  intros Ha Hf Hr. unfold TJ.apSeq.
  apply ne_chain_yields; [exact Hf | ].
  intros f Hy. apply ne_TJ_map; [exact Ha | ].
  intros a Hya. apply Hr; assumption.
Qed.

Lemma ne_whenReturned A B (c : JS.Completion Reason A) (k : A -> Task B) :
  returns c -> (forall a, c = JS.Returns a -> Obs.neverEscapes (k a)) ->
  Obs.neverEscapes (JSF.whenReturned c k).
Proof.
  intros [a ->] Hk. intros w. unfold JSF.whenReturned.
  apply (Hk a eq_refl).
Qed.

Lemma ne_fromIO A (ma : TJ.IO World Reason A) :
  Obs.neverThrows ma -> Obs.neverEscapes (TJ.fromIO ma).
Proof.
  intros H. apply neverEscapes_intro. intros w. unfold TJ.fromIO.
  destruct (H w) as (a & w' & ->). done.
Qed.

Lemma ne_TJ_getSemigroup A (S : JSF.Semigroup Reason A) (x y : Task A) :
  Obs.neverEscapes x -> Obs.neverEscapes y ->
  (forall a b, returns (JSF.concat S a b)) ->
  Obs.neverEscapes (TJ.getSemigroup S x y).
Proof.
  intros Hx Hy HS. apply neverEscapes_intro. intros w.
  unfold TJ.getSemigroup, JS.andThen.
  destruct (neverEscapes_inv Hx w) as (px & w1 & Heqx & Hpx). rewrite Heqx.
  destruct px as [ | rx | r]; cbn in Hpx; try contradiction; cbn;
    [done | ].
  destruct (neverEscapes_inv Hy w1) as (py & w2 & Heqy & Hpy). rewrite Heqy.
  destruct py as [ | ry | r]; cbn in Hpy; try contradiction; cbn;
    [done | ].
  unfold JSF.react. destruct (HS rx ry) as [c Hc]. rewrite Hc. cbn. done.
Qed.

Lemma ne_TaskEither_tryCatch E A
    (f : JS.Call World Reason (JS.Promise Reason A))
    (onRejected : Fn Reason E) :
  Obs.neverThrows f -> (forall r, returns (onRejected r)) ->
  Obs.neverEscapes (TaskEither.tryCatch f onRejected).
Proof.
  intros H Hr. apply neverEscapes_intro. intros w.
  unfold TaskEither.tryCatch, JS.andThen.
  destruct (H w) as (p & w' & Heq). rewrite Heq.
  destruct p as [ | a | r]; cbn; try done.
  unfold JSF.react. destruct (Hr r) as [e He]. rewrite He. cbn. done.
Qed.

Lemma ne_taskify Args L R (f : TE.NodeFunction World Reason Args L R)
    (args : Args) :
  (forall w, returns (TE.completion (fst (f args w)))
             \/ TE.sync (fst (f args w)) <> []) ->
  Obs.neverEscapes (TE.taskify f args).
Proof.
  intros H. apply neverEscapes_intro. intros w.
  destruct (f args w) as [run w'] eqn:Hrun.
  rewrite (@taskify_run _ _ _ _ _ f args _ _ _ Hrun). specialize (H w).
  rewrite Hrun in H.
  cbn in H. eexists; eexists; split; [reflexivity | ].
  rewrite (replayed_pending (TE.sync run)).
  destruct (TE.sync run) as [ | [[l | ] r] rest].
  - destruct H as [[u Hu] | H]; [ | congruence]. rewrite Hu.
    rewrite replayed_pending.
    destruct (TE.later run) as [ | [[l | ] r] rest]; exact I.
  - rewrite replayed_fulfilled. exact I.
  - rewrite replayed_fulfilled. exact I.
Qed.

Lemma ne_orElse E A M (onLeft : E -> TaskEither M A) (ma : TaskEither E A) :
  Obs.neverEscapes ma -> (forall e, Obs.neverEscapes (onLeft e)) ->
  Obs.neverEscapes (TaskEither.orElse onLeft ma).
Proof.
  intros Hma Hf. unfold TaskEither.orElse, TE.orElse, ET.orElse_. cbn.
  unfold T._chain, function.pipe.
  apply ne_chain; [exact Hma | ].
  intros [l | a]; [apply Hf | apply ne_of].
Qed.

Lemma ne_alt E A (that : unit -> TaskEither E A) (fa : TaskEither E A) :
  Obs.neverEscapes fa -> Obs.neverEscapes (that tt) ->
  Obs.neverEscapes (TaskEither.alt that fa).
Proof.
  intros Hfa Ht. unfold TaskEither.alt, TE.alt, ET.alt_. cbn.
  unfold T._chain, function.pipe.
  apply ne_chain; [exact Hfa | ].
  intros [l | a]; [exact Ht | apply ne_of].
Qed.

Lemma ne_TaskEither_map E A B (f : Fn A B) (fa : TaskEither E A) :
  (forall a, returns (f a)) -> Obs.neverEscapes fa ->
  Obs.neverEscapes (TaskEither.map f fa).
Proof.
  intros Hf H. apply ne_TJ_map; [exact H | ].
  intros [e | a] _; cbn; [eexists; reflexivity | ].
  apply returns_next; [apply Hf | ]. intros; eexists; reflexivity.
Qed.

Lemma ne_TaskEither_ap E A B (fa : TaskEither E A)
    (fab : TaskEither E (Fn A B)) :
  Obs.neverEscapes fa -> Obs.neverEscapes fab ->
  (forall f, yields fab (E.Right f) -> forall a, returns (f a)) ->
  Obs.neverEscapes (TaskEither.ap fa fab).
Proof.
  intros Ha Hf Hr. unfold TaskEither.ap.
  apply ne_TJ_ap; [exact Ha | | ].
  - apply ne_TJ_map; [exact Hf | ]. intros; apply returns_total.
  - intros h ga Hh _. apply yields_TJ_map in Hh.
    destruct Hh as (gab & Hy & Hh). cbv [JSF.total] in Hh.
    injection Hh as <-.
    destruct gab as [e | f]; cbn; [eexists; reflexivity | ].
    destruct ga as [e | a]; [eexists; reflexivity | ].
    apply returns_next; [apply (Hr f Hy) | ]. intros; eexists; reflexivity.
Qed.

Lemma ne_TaskEither_apSeq E A B (fab : TaskEither E (Fn A B))
    (fa : TaskEither E A) :
  Obs.neverEscapes fab -> Obs.neverEscapes fa ->
  (forall f, yields fab (E.Right f) -> forall a, returns (f a)) ->
  Obs.neverEscapes (TaskEither._apSeq fab fa).
Proof.
  intros Hf Ha Hr. unfold TaskEither._apSeq, function.pipe.
  apply ne_TaskEither_chain_yields; [exact Hf | ].
  intros f Hy. apply ne_TaskEither_map; [apply (Hr f Hy) | exact Ha].
Qed.

Lemma ne_validation_ap E X Y (A : TJ.Apply) (S : JSF.Semigroup Reason E)
    (fab : TaskEither E (Fn X Y)) (fa : TaskEither E X) :
  (forall a b, returns (JSF.concat S a b)) ->
  Obs.neverEscapes fab -> Obs.neverEscapes fa ->
  (forall f, yields fab (E.Right f) -> forall a, returns (f a)) ->
  Obs.neverEscapes (TaskEither.getApplicativeTaskValidation_ap A S fab fa).
Proof.
  intros HS Hf Ha Hr.
  unfold TaskEither.getApplicativeTaskValidation_ap, function.pipe,
    TJ.Apply_map.
  assert (Hm : Obs.neverEscapes
                 (TJ.map (JSF.total (Reason:=Reason)
                            (fun gab => fun ga => EJ.apValidation S gab ga))
                    fab)).
  { apply ne_TJ_map; [exact Hf | ]. intros; apply returns_total. }
  assert (Hc : forall h ga,
             yields (TJ.map (JSF.total (Reason:=Reason)
                            (fun gab => fun ga => EJ.apValidation S gab ga))
                         fab) h ->
             yields fa ga -> returns (h ga)).
  { intros h ga Hh _. apply yields_TJ_map in Hh.
    destruct Hh as (gab & Hy & Hh). cbv [JSF.total] in Hh.
    injection Hh as <-.
    destruct gab as [e1 | f]; destruct ga as [e2 | a]; cbn;
      try (eexists; reflexivity).
    - apply returns_next; [apply HS | ]. intros; eexists; reflexivity.
    - apply returns_next; [apply (Hr f Hy) | ].
      intros; eexists; reflexivity. }
  destruct A; cbn [TJ.Apply_ap].
  - apply ne_TJ_ap; assumption.
  - apply ne_TJ_apSeq; assumption.
Qed.

Lemma ne_validation_alt E A (S : JSF.Semigroup Reason E)
    (fa : TaskEither E A) (that : unit -> TaskEither E A) :
  (forall a b, returns (JSF.concat S a b)) ->
  Obs.neverEscapes fa -> Obs.neverEscapes (that tt) ->
  Obs.neverEscapes (TaskEither.getAltTaskValidation_alt S fa that).
Proof.
  intros HS Hfa Ht.
  unfold TaskEither.getAltTaskValidation_alt, function.pipe.
  apply ne_chain; [exact Hfa | ].
  intros [e1 | a]; [ | apply ne_of].
  apply ne_TJ_map; [exact Ht | ].
  intros [e2 | b] _; cbn; [ | eexists; reflexivity].
  apply returns_next; [apply HS | ]. intros; eexists; reflexivity.
Qed.

Lemma ne_filter E A (M : JSF.Monoid Reason E) (fa : TaskEither E A)
    (predicate : Fn A bool) :
  (forall a, returns (predicate a)) -> Obs.neverEscapes fa ->
  Obs.neverEscapes (TaskEither.getFilterable_filter M fa predicate).
Proof.
  intros Hp H. unfold TaskEither.getFilterable_filter, function.pipe.
  apply ne_TJ_map; [exact H | ].
  intros [e | a] _; cbn; [eexists; reflexivity | ].
  apply returns_next; [apply Hp | ]. intros; eexists; reflexivity.
Qed.

Lemma ne_filterMap E A B (M : JSF.Monoid Reason E) (fa : TaskEither E A)
    (f : Fn A (option B)) :
  (forall a, returns (f a)) -> Obs.neverEscapes fa ->
  Obs.neverEscapes (TaskEither.getFilterable_filterMap M fa f).
Proof.
  intros Hf H. unfold TaskEither.getFilterable_filterMap, function.pipe.
  apply ne_TJ_map; [exact H | ].
  intros [e | a] _; cbn; [eexists; reflexivity | ].
  apply returns_next; [apply Hf | ]. intros; eexists; reflexivity.
Qed.

Lemma ne_traverseArrayWithIndex A B E (f : nat -> A -> TaskEither E B) arr :
  (forall i a, In a arr -> Obs.neverEscapes (f i a)) ->
  Obs.neverEscapes (TE.traverseArrayWithIndex f arr).
Proof.
  intros Hf. unfold TE.traverseArrayWithIndex, function.pipe.
  apply ne_map. apply ne_T_traverseArrayWithIndex. exact Hf.
Qed.

Lemma ne_traverseSeqArrayWithIndex A B E (f : nat -> A -> TaskEither E B)
    arr :
  (forall i a, In a arr -> Obs.neverEscapes (f i a)) ->
  Obs.neverEscapes (TE.traverseSeqArrayWithIndex f arr).
Proof.
  intros Hf. apply neverEscapes_intro. intros w.
  unfold TE.traverseSeqArrayWithIndex.
  pose proof (ne_traverseSeq_loop f arr Hf 0 [] w) as H.
  destruct (TE.traverseSeqArrayWithIndex_loop f 0 arr [] w) as [p w'].
  exists p, w'. split; [reflexivity | exact H].
Qed.

(** With callbacks that always return, the operations are those of [TE]. *)
Lemma TaskEither_map_total E A B (f : A -> B) (fa : TaskEither E A) w :
  TaskEither.map (JSF.total f) fa w = TE.map f fa w.
Proof.
  unfold TaskEither.map, TJ.map, TE.map, ET.map_. cbn.
  unfold T._map, function.pipe. rewrite T_map_run. unfold JS.andThen.
  destruct (fa w) as [[[ | [e | a] | r] | x] w']; reflexivity.
Qed.

Lemma TaskEither_bimap_total E G A B (f : E -> G) (g : A -> B)
    (fa : TaskEither E A) w :
  TaskEither.bimap (JSF.total f) (JSF.total g) fa w = TE.bimap f g fa w.
Proof.
  unfold TaskEither.bimap, TJ.map, TE.bimap, ET.bimap_. cbn.
  unfold T._map, function.pipe. rewrite T_map_run. unfold JS.andThen.
  destruct (fa w) as [[[ | [e | a] | r] | x] w']; reflexivity.
Qed.

Lemma TaskEither_tryCatch_total E A
    (f : JS.Call World Reason (JS.Promise Reason A)) (onRejected : Reason -> E)
    w :
  TaskEither.tryCatch f (JSF.total onRejected) w = TE.tryCatch f onRejected w.
Proof.
  rewrite tryCatch_run. unfold TaskEither.tryCatch, JS.andThen.
  destruct (f w) as [[[ | a | r] | x] w']; reflexivity.
Qed.

Lemma TaskEither_fromPredicate_total E A (predicate : A -> bool)
    (onFalse : A -> E) (a : A) w :
  TaskEither.fromPredicate (JSF.total predicate) (JSF.total onFalse) a w
  = @TE.fromPredicate World Reason E A predicate onFalse a w.
Proof.
  unfold TaskEither.fromPredicate, TE.fromPredicate, JSF.whenReturned,
    JSF.total.
  destruct (predicate a); reflexivity.
Qed.

Lemma TaskEither_ap_total E A B (fa : TaskEither E A)
    (fab : TaskEither E (A -> B)) w :
  TaskEither.ap fa (T.map (E.map (fun f => JSF.total f)) fab) w
  = TE.ap fa fab w.
Proof.
  unfold TaskEither.ap, TJ.ap, TJ.map, TE.ap, ET.ap_, Apply.ap_. cbn.
  unfold T._apPar, T._map, function.pipe, T.ap, T.map, JS.andThen.
  destruct (fab w) as [[[ | [e | f] | r] | x] w1]; cbn; try reflexivity;
    destruct (fa w1) as [[[ | [e' | a] | r'] | x'] w2]; reflexivity.
Qed.

(** The members of the instance records and the aliases are built: they
    are the pipeable operations under another name. *)
Lemma Built_members (C : Capture.Contract (World:=World) (Reason:=Reason))
    E G A B (fa : TaskEither E A) (fab : TaskEither E (Fn A B))
    (f : Fn A B) (g : Fn E G) (k : A -> TaskEither E B)
    (that : unit -> TaskEither E A) (S : JSF.Semigroup Reason E)
    (a : A) (e : E) (io : TJ.IO World Reason A) (ta : Task A) :
  Capture.Built C fa -> Capture.Built C fab ->
  (forall h, yields fab (E.Right h) -> Capture.fnOk C h) ->
  Capture.fnOk C f -> Capture.fnOk C g ->
  (forall x, Capture.Built C (k x)) -> Capture.Built C (that tt) ->
  Capture.fn2Ok C (JSF.concat S) -> Capture.ioOk C io -> Capture.taskOk C ta ->
  Capture.Built C (TaskEither._map fa f)
  /\ Capture.Built C (TaskEither._bimap fa g f)
  /\ Capture.Built C (TaskEither._mapLeft fa g)
  /\ Capture.Built C (TaskEither._apPar fab fa)
  /\ Capture.Built C (TaskEither._chain fa k)
  /\ Capture.Built C (TaskEither._alt fa that)
  /\ Capture.Built C (@TaskEither.of_ World Reason E A a)
  /\ Capture.Built C (@TaskEither.throwError World Reason E A e)
  /\ Capture.Built C (@TaskEither.fromIO World Reason E A io)
  /\ Capture.Built C (@TaskEither.fromTask World Reason E A ta)
  /\ Capture.Built C (TaskEither.getTaskValidation_ap S fab fa)
  /\ Capture.Built C (TaskEither.getTaskValidation_alt S fa that).
Proof.
  intros Hfa Hfab Hh Hf Hg Hk Hthat HS Hio Hta.
  repeat match goal with |- _ /\ _ => split end.
  - apply Capture.Built_map; assumption.
  - apply Capture.Built_bimap; assumption.
  - apply Capture.Built_mapLeft; assumption.
  - apply Capture.Built_ap; assumption.
  - apply Capture.Built_chain; assumption.
  - apply Capture.Built_alt; assumption.
  - apply Capture.Built_right.
  - apply Capture.Built_left.
  - apply Capture.Built_rightIO; assumption.
  - apply Capture.Built_rightTask; assumption.
  - apply Capture.Built_validation_ap; assumption.
  - apply Capture.Built_validation_alt; assumption.
Qed.

End Captured.

(** C9, as the code has it. As long as nothing handed to the module
    throws (the operation wrapped by [tryCatch], every callback, [onRejected]
    and the [concat] of a semigroup included, the functions carried as
    values, the [IO]s, and a node style function before its first call to
    the callback) and the [Task]s handed to it never fail, every computation
    built from the operations of the module is captured: whenever it is
    invoked it returns a promise that is pending or fulfilled, never a
    rejection and never an exception. The failures of the underlying
    computations are in the [Left]: a rejection of the operation wrapped by
    [tryCatch] settles to the [Left] of what [onRejected] makes of the
    reason, and an error passed to the callback of [taskify], when that call
    is the first thing the node style function does, settles to the [Left]
    of that error. *)
Theorem built_captures_failures {World Reason : Type} :
  (forall X (t : T.Task World Reason X),
      Capture.Built Capture.noThrow t -> Capture.captured t)
  /\ (forall E A (f : JS.Call World Reason (JS.Promise Reason A))
             (onRejected : JSF.Fn Reason Reason E) (w w' : World) (r : Reason) (e : E),
         f w = (JS.Returns (JS.Rejected r), w') ->
         onRejected r = JS.Returns e ->
         TaskEither.tryCatch f onRejected w = Obs.settled (E.Left e) w')
  /\ (forall Args L R (f : TE.NodeFunction World Reason Args L R) (args : Args)
             (w w' : World) (run : TE.NodeRun Reason L R) (l : L) (r : R)
             (rest : list (option L * R)),
         f args w = (run, w') ->
         TE.sync run = (Some l, r) :: rest
         \/ (TE.sync run = [] /\ TE.completion run = JS.Returns tt
             /\ TE.later run = (Some l, r) :: rest) ->
         TaskEither.taskify f args w = Obs.settled (E.Left l) w').
Proof.
  refine (conj _ (conj _ _)).
  - intros X t Hbuilt. apply neverEscapes_captured.
    induction Hbuilt; cbn [Capture.fnOk Capture.fn2Ok Capture.lazyOk
                             Capture.ioOk Capture.nodeOk Capture.taskOk
                             Capture.noThrow] in *.
    + (* left *) apply ne_of.
    + (* right *) apply ne_of.
    + (* rightTask *) apply (ne_map (@E.Right E A)). assumption.
    + (* leftTask *) apply (ne_map (@E.Left E A)). assumption.
    + (* rightIO *)
      apply (ne_map (@E.Right E A)). apply ne_fromIO. assumption.
    + (* leftIO *)
      apply (ne_map (@E.Left E A)). apply ne_fromIO. assumption.
    + (* fromIOEither *) apply ne_fromIO. assumption.
    + (* fromEither *) destruct ma; apply ne_of.
    + (* fromOption *)
      destruct ma; [apply ne_of | ].
      apply ne_whenReturned; [auto | ]. intros; apply ne_of.
    + (* fromPredicate *)
      apply ne_whenReturned; [auto | ].
      intros [ | ] _; [apply ne_of | ].
      apply ne_whenReturned; [auto | ]. intros; apply ne_of.
    + (* tryCatch *) apply ne_TaskEither_tryCatch; assumption.
    + (* fold *)
      apply ne_chain; [assumption | ]. intros [l | a]; auto.
    + (* getOrElse *)
      apply ne_chain; [assumption | ]. intros [l | a]; [auto | apply ne_of].
    + (* orElse *) apply ne_orElse; assumption.
    + (* swap *) apply ne_map. assumption.
    + (* filterOrElse *)
      apply ne_TE_chain; [assumption | ]. intros a.
      apply ne_whenReturned; [auto | ].
      intros [ | ] _; [apply ne_of | ].
      apply ne_whenReturned; [auto | ]. intros; apply ne_of.
    + (* tryCatchK *) apply ne_TaskEither_tryCatch; assumption.
    + (* fromEitherK *)
      apply ne_whenReturned; [auto | ]. intros [e | b] _; apply ne_of.
    + (* fromIOEitherK *) apply ne_fromIO. assumption.
    + (* chainEitherK *)
      apply ne_TE_chain; [assumption | ]. intros a.
      apply ne_whenReturned; [auto | ]. intros [e | b] _; apply ne_of.
    + (* chainIOEitherK *)
      apply ne_TE_chain; [assumption | ]. intros a.
      apply ne_fromIO. auto.
    + (* map *) apply ne_TaskEither_map; assumption.
    + (* bimap *)
      apply ne_TJ_map; [assumption | ].
      intros [e | a] _; cbn;
        (apply returns_next; [auto | intros; eexists; reflexivity]).
    + (* mapLeft *)
      apply ne_TJ_map; [assumption | ].
      intros [e | a] _; cbn; [ | eexists; reflexivity].
      apply returns_next; [auto | intros; eexists; reflexivity].
    + (* ap *) apply ne_TaskEither_ap; assumption.
    + (* _apSeq *) apply ne_TaskEither_apSeq; assumption.
    + (* chain *) apply ne_TE_chain; assumption.
    + (* flatten *)
      apply ne_TaskEither_chain_yields; [assumption | ].
      intros m Hm. unfold function.identity. auto.
    + (* alt *) apply ne_alt; assumption.
    + (* getSemigroup *)
      apply ne_TJ_getSemigroup; [assumption | assumption | ].
      intros [e1 | a] [e2 | b]; cbn; try (eexists; reflexivity).
      apply returns_next; [auto | intros; eexists; reflexivity].
    + (* getApplySemigroup *)
      apply ne_TJ_getSemigroup; [assumption | assumption | ].
      intros [e1 | a] [e2 | b]; cbn; try (eexists; reflexivity).
      apply returns_next; [auto | intros; eexists; reflexivity].
    + (* getApplyMonoid, concat *)
      apply ne_TJ_getSemigroup; [assumption | assumption | ].
      intros [e1 | a] [e2 | b]; cbn; try (eexists; reflexivity).
      apply returns_next; [auto | intros; eexists; reflexivity].
    + (* getApplyMonoid, empty *) apply ne_of.
    + (* getApplicativeTaskValidation *)
      apply ne_validation_ap; assumption.
    + (* getAltTaskValidation *) apply ne_validation_alt; assumption.
    + (* compact *) apply ne_map. assumption.
    + (* separate, left *) cbn [fst]. apply ne_map. apply ne_map. assumption.
    + (* separate, right *) cbn [snd]. apply ne_map. apply ne_map. assumption.
    + (* filter *) apply ne_filter; assumption.
    + (* filterMap *) apply ne_filterMap; assumption.
    + (* partition, left *)
      cbn [fst]. apply ne_filter; [ | assumption].
      intros a. apply returns_next; [auto | intros; eexists; reflexivity].
    + (* partition, right *) cbn [snd]. apply ne_filter; assumption.
    + (* partitionMap, left *)
      cbn [fst]. apply ne_filterMap; [ | assumption].
      intros a. apply returns_next; [auto | intros; eexists; reflexivity].
    + (* partitionMap, right *)
      cbn [snd]. apply ne_filterMap; [ | assumption].
      intros a. apply returns_next; [auto | intros; eexists; reflexivity].
    + (* apFirst *)
      apply ne_TaskEither_ap; [assumption | | ].
      * apply ne_TaskEither_map; [intros; apply returns_total | assumption].
      * intros f Hf b. apply yields_TJ_map in Hf.
        destruct Hf as ([e | a] & _ & Hf); cbn in Hf; [discriminate | ].
        injection Hf as <-. apply returns_total.
    + (* apSecond *)
      apply ne_TaskEither_ap; [assumption | | ].
      * apply ne_TaskEither_map; [intros; apply returns_total | assumption].
      * intros f Hf b. apply yields_TJ_map in Hf.
        destruct Hf as ([e | a] & _ & Hf); cbn in Hf; [discriminate | ].
        injection Hf as <-. apply returns_total.
    + (* chainFirst *)
      apply ne_TE_chain; [assumption | ]. intros a.
      apply ne_TaskEither_map; [intros; apply returns_total | auto].
    + (* taskify *) apply ne_taskify. assumption.
    + (* bracket *) apply ne_bracket; assumption.
    + (* Do *) apply ne_of.
    + (* bindTo *)
      apply ne_TaskEither_map; [intros; apply returns_total | assumption].
    + (* bind *)
      apply ne_TE_chain; [assumption | ]. intros a.
      apply ne_TaskEither_map; [intros; apply returns_total | auto].
    + (* apS *)
      apply ne_TaskEither_ap; [assumption | | ].
      * apply ne_TaskEither_map; [intros; apply returns_total | assumption].
      * intros f Hf b. apply yields_TJ_map in Hf.
        destruct Hf as ([e | a] & _ & Hf); cbn in Hf; [discriminate | ].
        injection Hf as <-. apply returns_total.
    + (* traverseArrayWithIndex *)
      apply ne_traverseArrayWithIndex. assumption.
    + (* traverseArray *)
      apply ne_traverseArrayWithIndex. intros i a Ha. auto.
    + (* sequenceArray *)
      apply ne_traverseArrayWithIndex. intros i a Ha.
      unfold function.identity. auto.
    + (* traverseSeqArrayWithIndex *)
      apply ne_traverseSeqArrayWithIndex. assumption.
    + (* traverseSeqArray *)
      apply ne_traverseSeqArrayWithIndex. intros i a Ha. auto.
    + (* sequenceSeqArray *)
      apply ne_traverseSeqArrayWithIndex. intros i a Ha.
      unfold function.identity. auto.
  - intros E A f onRejected w w' r e Hf Hr.
    unfold TaskEither.tryCatch, JS.andThen. rewrite Hf. cbn.
    unfold JSF.react. rewrite Hr. reflexivity.
  - intros Args L R f args w w' run l r rest Hrun H.
    unfold TaskEither.taskify.
    rewrite (@taskify_run _ _ _ _ _ f args _ _ _ Hrun).
    destruct H as [Hs | (Hs & Hc & Hl)].
    + rewrite Hs, replayed_pending, replayed_fulfilled. reflexivity.
    + rewrite Hs, Hc, Hl. cbn. unfold Obs.settled.
      apply f_equal2; [ | reflexivity].
      apply f_equal. apply (replayed_fulfilled rest).
Qed.

(** The computation [Escapes.rejectsInChain] is built from operations that
    do not throw: it is captured; the rejection ['error'] wrapped by
    [tryCatch] is the failure [Left 'error'], and so is the error
    ['ENOENT'] that a node style function passes to its callback. *)
Lemma built_captures_failures_witness :
  Capture.captured Escapes.rejectsInChain
  /\ TaskEither.tryCatch Fix.rejectsError Escapes.String tt
     = Obs.settled (E.Left "error"%string) tt
  /\ TaskEither.taskify Samples.nodeCallsLater 6 tt
     = Obs.settled (E.Left "ENOENT"%string) tt.
Proof.
  refine (conj _ (conj _ _)).
  - apply (proj1 (@built_captures_failures unit string)).
    unfold Escapes.rejectsInChain.
    apply Capture.Built_map.
    + intros a. exists (S a). reflexivity.
    + apply Capture.Built_chain; [apply Capture.Built_right | ].
      intros _. apply Capture.Built_tryCatch.
      * intros w. exists (JS.Rejected "error"%string), w. reflexivity.
      * intros r. exists r. reflexivity.
  - apply (proj1 (proj2 (@built_captures_failures unit string))
             string nat Fix.rejectsError Escapes.String tt tt
             "error"%string "error"%string); reflexivity.
  - apply (proj2 (proj2 (@built_captures_failures unit string))
             nat string nat Samples.nodeCallsLater 6 tt tt _
             "ENOENT"%string 0 [(None, 6)] eq_refl).
    right. refine (conj _ (conj _ _)); reflexivity.
Defined.

(** C9 as stated does not hold: computations built from the operations of
    the module alone reject, or throw, when something handed to the module
    throws or fails. A callback of [map] that throws, an [onRejected] that
    throws, a wrapped operation that throws in the second step of a chain,
    a node style function that throws before it calls back, a semigroup
    whose [concat] throws and a carried function that throws all give a
    rejected promise; a [Task] that rejects gives a rejected promise; an
    [IO] that throws makes the invocation throw. *)
Lemma built_may_escape :
  (Capture.Built Capture.anyOperation Escapes.mapThrows
   /\ Escapes.mapThrows tt = (JS.Returns (JS.Rejected "boom"%string), tt))
  /\ (Capture.Built Capture.anyOperation Escapes.onRejectedThrows
      /\ Escapes.onRejectedThrows tt
         = (JS.Returns (JS.Rejected "error"%string), tt))
  /\ (Capture.Built Capture.anyOperation Escapes.throwsInChain
      /\ Escapes.throwsInChain tt
         = (JS.Returns (JS.Rejected "boom"%string), tt))
  /\ (Capture.Built Capture.anyOperation Escapes.taskifyThrows
      /\ Escapes.taskifyThrows tt
         = (JS.Returns (JS.Rejected "boom"%string), tt))
  /\ (Capture.Built Capture.anyOperation Escapes.concatThrows
      /\ Escapes.concatThrows tt
         = (JS.Returns (JS.Rejected "concat"%string), tt))
  /\ (Capture.Built Capture.anyOperation Escapes.apThrows
      /\ Escapes.apThrows tt
         = (JS.Returns (JS.Rejected "boom"%string), tt))
  /\ (Capture.Built Capture.anyOperation Escapes.rightTaskFails
      /\ Escapes.rightTaskFails tt
         = (JS.Returns (JS.Rejected "late"%string), tt))
  /\ (Capture.Built Capture.anyOperation Escapes.rightIOThrows
      /\ Escapes.rightIOThrows tt = (JS.Throws "io"%string, tt))
  /\ ~ (forall X (t : T.Task unit string X),
           Capture.Built Capture.anyOperation t -> Capture.captured t).
Proof.
  assert (Hmap : Capture.Built Capture.anyOperation Escapes.mapThrows).
  { apply Capture.Built_map; [exact I | apply Capture.Built_right]. }
  repeat match goal with |- _ /\ _ => split end; try reflexivity.
  - exact Hmap.
  - apply Capture.Built_tryCatch; exact I.
  - apply Capture.Built_chain; [apply Capture.Built_right | ].
    intros _. apply Capture.Built_tryCatch; exact I.
  - apply Capture.Built_taskify. exact I.
  - apply Capture.Built_getSemigroup;
      [exact I | apply Capture.Built_right | apply Capture.Built_right].
  - apply Capture.Built_ap;
      [apply Capture.Built_right | apply Capture.Built_right | ].
    intros; exact I.
  - apply Capture.Built_rightTask. exact I.
  - apply Capture.Built_rightIO. exact I.
  - intros H. destruct (H _ _ Hmap tt) as (w' & [Heq | (x & Heq)]);
      discriminate Heq.
Qed.
